(** * Gap filling and quality validation of vegetation-index time series

    A shallow embedding of [whittaker_smooth], [fill_gaps] and
    [validate_results] of [mcari_analysis.py] (the SAVI script is the same
    engine under other column names), and the properties the specification
    states about them; then the analyzer around them: the two index
    formulas, the configuration, the chunked acquisition and the frame it
    builds, with what the code itself shows about them.

    Numbers.  The scripts compute on float64; the embedding computes on the
    canonical rationals [Qc], so every arithmetic step is exact and [NaN]
    (pandas' null) is the [None] of [option Qc].

    Dates.  A calendar date is the number of its day ([Z]).  A cell of the
    [date] column is either still the ISO string the acquisition step
    delivered ([DateStr]) or a pandas timestamp ([Timestamp]); both carry the
    day they denote. *)

From Stdlib Require Import List ZArith QArith Qcanon Lia Lqa Bool String Ascii.
From Stdlib Require Import Sorting.Sorted Permutation.
From Stdlib Require Import Numbers.DecimalString.
Import ListNotations.

(* ================================================================== *)
(** * Exact vectors and matrices *)
(* ================================================================== *)

Module LinAlg.

Open Scope Qc_scope.

Abbreviation vec := (list Qc) (only parsing).
Abbreviation matrix := (list (list Qc)) (only parsing).

Definition Qc_of_Z (z : Z) : Qc := Q2Qc (inject_Z z).
Definition qfrac (a : Z) (b : positive) : Qc := Q2Qc (a # b).

Fixpoint map2 {A B C : Type} (f : A -> B -> C) (l : list A) (m : list B) : list C :=
  match l, m with
  | a :: l', b :: m' => f a b :: map2 f l' m'
  | _, _ => []
  end.

Fixpoint dot (u v : vec) : Qc :=
  match u, v with
  | a :: u', b :: v' => a * b + dot u' v'
  | _, _ => 0
  end.

Definition vadd (u v : vec) : vec := map2 Qcplus u v.
Definition vscale (c : Qc) (v : vec) : vec := map (Qcmult c) v.
Definition zeros (n : nat) : vec := repeat 0 n.

(** [A.dot(v)] for a matrix held as the list of its rows. *)
Definition mat_vec (A : matrix) (v : vec) : vec := map (fun r => dot r v) A.

(** [M.T] of a matrix with [cols] columns. *)
Definition transpose (cols : nat) (M : matrix) : matrix :=
  map (fun j => map (fun r => nth j r 0) M) (seq 0 cols).

(** [A.dot(B)], [B] with [cols] columns: row [r] of the product is [B.T r]. *)
Definition mat_mul (cols : nat) (A B : matrix) : matrix :=
  let Bt := transpose cols B in
  map (fun r => mat_vec Bt r) A.

Definition mat_add (A B : matrix) : matrix := map2 vadd A B.
Definition mat_scale (c : Qc) (A : matrix) : matrix := map (vscale c) A.

(** [scipy.sparse.diags(values, offsets, shape=(rows, cols))] with scalar
    diagonals: entry [(i, j)] collects the values whose offset is [j - i]. *)
Definition band_entry (values : list Qc) (offsets : list Z) (i j : nat) : Qc :=
  fold_right Qcplus 0
    (map2 (fun v k => if (Z.of_nat j - Z.of_nat i =? k)%Z then v else 0)
          values offsets).

Definition diags_bands (values : list Qc) (offsets : list Z) (rows cols : nat)
  : matrix :=
  map (fun i => map (fun j => band_entry values offsets i j) (seq 0 cols))
      (seq 0 rows).

(** [scipy.sparse.diags(w)]: the square matrix with [w] on its main diagonal. *)
Definition diags_main (w : vec) : matrix :=
  let n := List.length w in
  map2 (fun i wi => map (fun j => if Nat.eqb i j then wi else 0) (seq 0 n))
       (seq 0 n) w.

(** ** The linear solve

    [scipy.sparse.linalg.spsolve] is a direct solver.  In exact arithmetic the
    solution of a non-singular system does not depend on the elimination
    order, so the model is Gaussian elimination on the list of equations
    [(row, right-hand side)], taking as pivot the first equation whose leading
    coefficient is not zero.  It finds no pivot exactly when the matrix is
    singular; scipy then warns ([MatrixRankWarning]) and returns an array
    of [NaN]. *)

Abbreviation equation := (list Qc * Qc)%type (only parsing).

Fixpoint find_pivot (eqs : list equation) : option (equation * list equation) :=
  match eqs with
  | [] => None
  | e :: rest =>
      if Qc_eq_dec (hd 0 (fst e)) 0 then
        match find_pivot rest with
        | Some (p, others) => Some (p, e :: others)
        | None => None
        end
      else Some (e, rest)
  end.

Definition eliminate (p e : equation) : equation :=
  let k := hd 0 (fst e) / hd 0 (fst p) in
  (map2 (fun x y => x - k * y) (tl (fst e)) (tl (fst p)), snd e - k * snd p).

Fixpoint gauss (n : nat) (eqs : list equation) : option vec :=
  match n with
  | O => Some []
  | S n' =>
      match find_pivot eqs with
      | None => None
      | Some (p, others) =>
          match gauss n' (map (eliminate p) others) with
          | None => None
          | Some z => Some ((snd p - dot (tl (fst p)) z) / hd 0 (fst p) :: z)
          end
      end
  end.

Definition spsolve (A : matrix) (b : vec) : list (option Qc) :=
  match gauss (List.length b) (combine A b) with
  | Some z => map Some z
  | None => repeat None (List.length b)
  end.

End LinAlg.

(* ================================================================== *)
(** * Exceptions *)
(* ================================================================== *)

Inductive exn : Type :=
| KeyError (column : string)
| ValueError (message : string).

Inductive result (A : Type) : Type :=
| Ok (a : A)
| Raise (e : exn).

Arguments Ok {A} a.
Arguments Raise {A} e.

Definition bind {A B : Type} (r : result A) (k : A -> result B) : result B :=
  match r with
  | Ok a => k a
  | Raise e => Raise e
  end.

Notation "x <- e ;; k" := (bind e (fun x => k))
  (at level 61, e at next level, right associativity).

(* ================================================================== *)
(** * The smoother *)
(* ================================================================== *)

Import LinAlg.
Open Scope Qc_scope.

(** [lambda_: float = 100.0] *)
Definition default_lambda : Qc := Qc_of_Z 100.

(** [D = diags([1, -2, 1], [0, -1, -2], shape=(n+2, n))] *)
Definition second_difference (n : nat) : matrix :=
  diags_bands [1; Qc_of_Z (-2); 1] [0; -1; -2]%Z (n + 2) n.

(** [A = W + lambda_ * D.T.dot(D)], with [n = len(x)] *)
Definition whittaker_matrix (n : nat) (w : vec) (lambda_ : Qc) : matrix :=
  let D := second_difference n in
  let W := diags_main w in
  mat_add W (mat_scale lambda_ (mat_mul n (transpose n D) D)).

(** [whittaker_smooth(x, w, lambda_)].  The sum [W + lambda_ * D.T.dot(D)]
    needs [len(w) = len(x)]; scipy raises [ValueError] otherwise. *)
Definition whittaker_smooth (x w : vec) (lambda_ : Qc)
  : result (list (option Qc)) :=
  let n := List.length x in
  if negb (Nat.eqb (List.length w) n) then
    Raise (ValueError "inconsistent shapes")
  else
    Ok (spsolve (whittaker_matrix n w lambda_) (map2 Qcmult w x)).

(* ================================================================== *)
(** * Data frames *)
(* ================================================================== *)

Inductive DateCell : Type :=
| DateStr (day : Z)      (* the string 'YYYY-MM-dd' naming that day *)
| Timestamp (day : Z).   (* a datetime64 value at midnight of that day *)

Definition day_of (c : DateCell) : Z :=
  match c with DateStr d => d | Timestamp d => d end.

(** [pd.to_datetime] on one cell. *)
Definition to_datetime (c : DateCell) : DateCell := Timestamp (day_of c).

(** One row.  A statistic is [None] when it is null ([NaN]) or when the frame
    has no such column; [is_interpolated] is [None] when the frame has no
    such column. *)
Record Row : Type := mkRow {
  date : DateCell;
  idx_mean : option Qc;
  idx_stdDev : option Qc;
  idx_min : option Qc;
  idx_max : option Qc;
  cloud_cover : option Qc;
  is_interpolated : option bool
}.

Record DataFrame : Type := mkFrame {
  columns : list string;
  rows : list Row
}.

(** The column names of one vegetation index and the plausible range its
    validator checks: the two scripts differ in nothing else. *)
Record Index : Type := mkIndex {
  mean_col : string;
  stdDev_col : string;
  min_col : string;
  max_col : string;
  unrealistic_above : Qc;
  unrealistic_below : Qc;
  unrealistic_msg : string
}.

Definition MCARI : Index :=
  mkIndex "MCARI_mean" "MCARI_stdDev" "MCARI_min" "MCARI_max"
          (Qc_of_Z 2) (Qc_of_Z (-2)) "Unrealistic MCARI values detected".

Definition SAVI : Index :=
  mkIndex "SAVI_mean" "SAVI_stdDev" "SAVI_min" "SAVI_max"
          (Qc_of_Z 2) (Qc_of_Z (-1)) "Unrealistic SAVI values detected".

Definition has_column (c : string) (df : DataFrame) : bool :=
  existsb (String.eqb c) (columns df).

(** [df.empty]: some axis has length zero. *)
Definition empty (df : DataFrame) : bool :=
  match rows df, columns df with
  | [], _ => true
  | _, [] => true
  | _, _ => false
  end.

Definition isnull {A : Type} (c : option A) : bool :=
  match c with None => true | Some _ => false end.

Definition set_date (r : Row) (c : DateCell) : Row :=
  mkRow c (idx_mean r) (idx_stdDev r) (idx_min r) (idx_max r)
        (cloud_cover r) (is_interpolated r).
Definition set_mean (r : Row) (v : option Qc) : Row :=
  mkRow (date r) v (idx_stdDev r) (idx_min r) (idx_max r)
        (cloud_cover r) (is_interpolated r).
Definition set_stdDev (r : Row) (v : option Qc) : Row :=
  mkRow (date r) (idx_mean r) v (idx_min r) (idx_max r)
        (cloud_cover r) (is_interpolated r).
Definition set_min (r : Row) (v : option Qc) : Row :=
  mkRow (date r) (idx_mean r) (idx_stdDev r) v (idx_max r)
        (cloud_cover r) (is_interpolated r).
Definition set_max (r : Row) (v : option Qc) : Row :=
  mkRow (date r) (idx_mean r) (idx_stdDev r) (idx_min r) v
        (cloud_cover r) (is_interpolated r).
Definition set_is_interpolated (r : Row) (b : bool) : Row :=
  mkRow (date r) (idx_mean r) (idx_stdDev r) (idx_min r) (idx_max r)
        (cloud_cover r) (Some b).

(** [df['date'] = pd.to_datetime(df['date'])] *)
Definition dates_to_datetime (df : DataFrame) : DataFrame :=
  mkFrame (columns df) (map (fun r => set_date r (to_datetime (date r))) (rows df)).

Definition row_day (r : Row) : Z := day_of (date r).

(** [df.sort_values('date')], as a stable insertion sort on the day. *)
Fixpoint insert_by_date (r : Row) (l : list Row) : list Row :=
  match l with
  | [] => [r]
  | r' :: l' =>
      if (row_day r <=? row_day r')%Z then r :: l
      else r' :: insert_by_date r l'
  end.

Definition sort_values_date (l : list Row) : list Row :=
  fold_right insert_by_date [] l.

(** [df['date'].min()] and [.max()] of a frame with at least one row. *)
Definition date_min (l : list Row) : Z :=
  match l with
  | [] => 0%Z
  | r :: l' => fold_right (fun r' m => Z.min (row_day r') m) (row_day r) l'
  end.
Definition date_max (l : list Row) : Z :=
  match l with
  | [] => 0%Z
  | r :: l' => fold_right (fun r' m => Z.max (row_day r') m) (row_day r) l'
  end.

(** [pd.date_range(start=..., end=..., freq='D')] *)
Definition pd_date_range (start stop : Z) : list Z :=
  map (fun k => (start + Z.of_nat k)%Z) (seq 0 (Z.to_nat (stop - start + 1))).

Definition null_row (d : Z) : Row :=
  mkRow (Timestamp d) None None None None None None.

(** [template_df.merge(df, on='date', how='left')]: the template's days in
    their order, each with the rows of [df] of that day, or with one row of
    nulls when [df] has none. *)
Definition merge_day (l : list Row) (d : Z) : list Row :=
  match filter (fun r => (row_day r =? d)%Z) l with
  | [] => [null_row d]
  | ms => ms
  end.

Definition merge_left (template : list Z) (df : DataFrame) : DataFrame :=
  mkFrame ("date"%string
             :: filter (fun c => negb (String.eqb c "date")) (columns df))
          (flat_map (merge_day (rows df)) template).

(** ** Gap runs *)

(** [gaps.ne(gaps.shift())]: the first entry differs from the shifted-in
    null, every other entry is compared with its predecessor. *)
Fixpoint ne_shift_from (prev : option bool) (gaps : list bool) : list bool :=
  match gaps with
  | [] => []
  | g :: gaps' =>
      match prev with
      | None => true
      | Some p => xorb g p
      end :: ne_shift_from (Some g) gaps'
  end.
Definition ne_shift (gaps : list bool) : list bool := ne_shift_from None gaps.

(** [.cumsum()] of a boolean series. *)
Fixpoint cumsum_from (acc : nat) (l : list bool) : list nat :=
  match l with
  | [] => []
  | b :: l' =>
      let acc' := if b then S acc else acc in
      acc' :: cumsum_from acc' l'
  end.
Definition cumsum (l : list bool) : list nat := cumsum_from 0 l.

(** [series.groupby(groups).transform('size')] *)
Definition transform_size (groups : list nat) : list nat :=
  map (fun g => count_occ Nat.eq_dec groups g) groups.

(** [gaps.groupby(gap_groups).transform('size') * gaps] *)
Definition gap_sizes_of (gaps : list bool) : list nat :=
  let gap_groups := cumsum (ne_shift gaps) in
  map2 (fun s (g : bool) => if g then s else O) (transform_size gap_groups) gaps.

(** ** Series helpers *)

Definition sum_valid (col : list (option Qc)) : Qc :=
  fold_right (fun c s => match c with Some v => v + s | None => s end) 0 col.

Definition count_valid (col : list (option Qc)) : nat :=
  List.length (filter (fun c => negb (isnull c)) col).

(** [series.mean()]: nulls are skipped; null when nothing is left. *)
Definition series_mean (col : list (option Qc)) : option Qc :=
  match count_valid col with
  | O => None
  | n => Some (sum_valid col / Qc_of_Z (Z.of_nat n))
  end.

Fixpoint valid_points_from (i : nat) (col : list (option Qc)) : list (nat * Qc) :=
  match col with
  | [] => []
  | Some v :: col' => (i, v) :: valid_points_from (S i) col'
  | None :: col' => valid_points_from (S i) col'
  end.
(** [(np.arange(len(col))[valid], col[valid])] *)
Definition valid_points (col : list (option Qc)) : list (nat * Qc) :=
  valid_points_from 0 col.

Fixpoint mapi_from {A B : Type} (i : nat) (f : nat -> A -> B) (l : list A) : list B :=
  match l with
  | [] => []
  | a :: l' => f i a :: mapi_from (S i) f l'
  end.
Definition mapi {A B : Type} (f : nat -> A -> B) (l : list A) : list B :=
  mapi_from 0 f l.

Definition opt_map2 (f : Qc -> Qc -> Qc) (a b : option Qc) : option Qc :=
  match a, b with
  | Some u, Some v => Some (f u v)
  | _, _ => None
  end.

(** [frame[mask]] *)
Fixpoint mask_filter {A : Type} (mask : list bool) (l : list A) : list A :=
  match mask, l with
  | m :: mask', a :: l' =>
      if m then a :: mask_filter mask' l' else mask_filter mask' l'
  | _, _ => []
  end.

(* ================================================================== *)
(** * The gap filler and the validator *)
(* ================================================================== *)

Section Engine.

(** The index whose columns are processed. *)
Variable idx : Index.

(** [CubicSpline(xs, ys, bc_type='natural')]: the value at a position of the
    natural cubic spline through the points [(xs, ys)]. *)
Variable CubicSpline : list (nat * Qc) -> nat -> Qc.

(** What [Series.interpolate(method='cubic', limit_direction='both',
    limit=...)] puts at a null position of a column: the value of scipy's
    cubic interpolant through the valid entries, or null where the limit or
    the range of the valid entries excludes the position. *)
Variable cubic_value : Z -> list (option Qc) -> nat -> option Qc.

(** [series.interpolate(method='cubic', limit_direction='both', limit=limit)].
    pandas refuses a limit below 1; a column without nulls or without values
    comes back as it is; scipy's [interp1d(kind='cubic')] refuses fewer than
    four points; valid entries are never touched. *)
Definition interpolate (limit : Z) (col : list (option Qc))
  : result (list (option Qc)) :=
  if (limit <? 1)%Z then Raise (ValueError "Limit must be greater than 0")
  else
    let valid := count_valid col in
    if Nat.eqb valid 0 || Nat.eqb valid (List.length col) then Ok col
    else if Nat.ltb valid 4 then
      Raise (ValueError
        "The number of derivatives at boundaries does not match")
    else
      Ok (mapi (fun i c => match c with
                           | Some _ => c
                           | None => cubic_value limit col i
                           end) col).

(** [for col in [..._min, ..._max, ..._stdDev]: if col in merged_df.columns:
    merged_df[col] = merged_df[col].interpolate(...)] *)
Definition interpolate_column (present : bool) (limit : Z)
    (get : Row -> option Qc) (set : Row -> option Qc -> Row)
    (l : list Row) : result (list Row) :=
  if present then
    col <- interpolate limit (map get l) ;;
    Ok (map2 set l col)
  else Ok l.

(** Lines 61-72: sort, build the daily calendar, merge. *)
Definition merged_frame (df : DataFrame) : DataFrame :=
  let df := mkFrame (columns df) (sort_values_date (rows df)) in
  let date_range := pd_date_range (date_min (rows df)) (date_max (rows df)) in
  merge_left date_range df.

(** [weights = (~gaps).astype(float); weights[gap_sizes > max_gap_days] = 0] *)
Definition weights_of (gaps : list bool) (gap_sizes : list nat)
    (max_gap_days : Z) : vec :=
  map2 (fun (g : bool) (s : nat) =>
          if (max_gap_days <? Z.of_nat s)%Z then 0 else if g then 0 else 1)
       gaps gap_sizes.

(** [x = mean.fillna(mean.mean()).values; whittaker_smooth(x, weights)].
    A column without any value has a null mean: [x] is all null then, and
    the nulls go through the solve. *)
Definition smooth_means (mean_column : list (option Qc)) (weights : vec)
  : result (list (option Qc)) :=
  match series_mean mean_column with
  | Some m =>
      whittaker_smooth
        (map (fun c => match c with Some v => v | None => m end) mean_column)
        weights default_lambda
  | None => Ok (repeat None (List.length mean_column))
  end.

(** [alpha = 0.7] *)
Definition alpha : Qc := qfrac 7 10.

(** Lines 95-110: with more than three observations the smoothed values are
    blended with the natural cubic spline through the observations. *)
Definition blend (mean_column : list (option Qc)) (smoothed : list (option Qc))
  : list (option Qc) :=
  if Nat.ltb 3 (count_valid mean_column) then
    let spline := CubicSpline (valid_points mean_column) in
    mapi (fun i s =>
            opt_map2 Qcplus (option_map (Qcmult alpha) s)
                     (Some ((1 - alpha) * spline i))) smoothed
  else smoothed.

(** The body of [fill_gaps] after the date column was converted. *)
Definition fill_gaps_body (df : DataFrame) (max_gap_days : Z)
  : result DataFrame :=
  let merged_df := merged_frame df in
  if negb (has_column (mean_col idx) merged_df) then
    Raise (KeyError (mean_col idx))
  else
  let gaps := map (fun r => isnull (idx_mean r)) (rows merged_df) in
  if negb (existsb (fun g => g) gaps) then Ok merged_df
  else
    let gap_sizes := gap_sizes_of gaps in
    let weights := weights_of gaps gap_sizes max_gap_days in
    let mean_column := map idx_mean (rows merged_df) in
    smoothed <- smooth_means mean_column weights ;;
    let filled := blend mean_column smoothed in
    (* merged_df.loc[mean.isnull(), mean_col] = ... *)
    let rows1 :=
      map2 (fun r v => if isnull (idx_mean r) then set_mean r v else r)
           (rows merged_df) filled in
    rows2 <- interpolate_column (has_column (min_col idx) merged_df)
               max_gap_days idx_min set_min rows1 ;;
    rows3 <- interpolate_column (has_column (max_col idx) merged_df)
               max_gap_days idx_max set_max rows2 ;;
    rows4 <- interpolate_column (has_column (stdDev_col idx) merged_df)
               max_gap_days idx_stdDev set_stdDev rows3 ;;
    (* merged_df['is_interpolated'] = gaps *)
    let rows5 := map2 set_is_interpolated rows4 gaps in
    let columns5 :=
      if has_column "is_interpolated" merged_df then columns merged_df
      else (columns merged_df ++ ["is_interpolated"%string])%list in
    (* merged_df = merged_df[gap_sizes <= max_gap_days] *)
    let keep := map (fun s => (Z.of_nat s <=? max_gap_days)%Z) gap_sizes in
    Ok (mkFrame columns5 (mask_filter keep rows5)).

(** [fill_gaps(df, max_gap_days)]: what it returns or raises, and the
    caller's frame [df] as the call leaves it (line 62 assigns its [date]
    column in place; line 63 rebinds the local name only). *)
Definition fill_gaps (df : DataFrame) (max_gap_days : Z)
  : result DataFrame * DataFrame :=
  if empty df then (Ok df, df)
  else if negb (has_column "date" df) then (Raise (KeyError "date"), df)
  else
    let df' := dates_to_datetime df in
    (fill_gaps_body df' max_gap_days, df').

(** [max_gap_days: int = 32] *)
Definition default_max_gap_days : Z := 32.

(** ** The validator *)

Definition row_has_null (df : DataFrame) (r : Row) : bool :=
  (has_column (mean_col idx) df && isnull (idx_mean r))
  || (has_column (stdDev_col idx) df && isnull (idx_stdDev r))
  || (has_column (min_col idx) df && isnull (idx_min r))
  || (has_column (max_col idx) df && isnull (idx_max r))
  || (has_column "cloud_cover" df && isnull (cloud_cover r))
  || (has_column "is_interpolated" df && isnull (is_interpolated r)).

Definition Qc_ltb (a b : Qc) : bool :=
  match a ?= b with Lt => true | _ => false end.

Definition string_of_Z (z : Z) : string := NilZero.string_of_int (Z.to_int z).

(** [df_sorted['date'].diff().dt.days]: the differences of consecutive days
    (the first, null, entry compares false with everything and is left out). *)
Fixpoint day_diffs (days : list Z) : list Z :=
  match days with
  | d1 :: (d2 :: _) as rest => (d2 - d1)%Z :: day_diffs rest
  | _ => []
  end.

(** [validate_results(df)]: what it returns or raises, and the caller's
    frame as the call leaves it (line 400 assigns the [date] column). *)
Definition validate_results (df : DataFrame)
  : result (bool * list string) * DataFrame :=
  if empty df then (Ok (false, ["No valid data found"%string]), df)
  else
    let issues1 :=
      if existsb (row_has_null df) (rows df)
      then ["Missing values detected in the data"%string] else [] in
    if negb (has_column "date" df) then (Raise (KeyError "date"), df)
    else
      let df' := dates_to_datetime df in
      if negb (has_column (mean_col idx) df') then
        (Raise (KeyError (mean_col idx)), df')
      else
        let means := map idx_mean (rows df') in
        let above := existsb (fun c => match c with
                                       | Some v => Qc_ltb (unrealistic_above idx) v
                                       | None => false end) means in
        let below := existsb (fun c => match c with
                                       | Some v => Qc_ltb v (unrealistic_below idx)
                                       | None => false end) means in
        let issues2 :=
          if above || below then (issues1 ++ [unrealistic_msg idx])%list
          else issues1 in
        let date_range := (date_max (rows df') - date_min (rows df'))%Z in
        let issues3 :=
          if (date_range <? 30)%Z then
            (issues2 ++ [("Short temporal coverage: "
                           ++ string_of_Z date_range ++ " days")%string])%list
          else issues2 in
        let df_sorted := sort_values_date (rows df') in
        let gaps := day_diffs (map row_day df_sorted) in
        let issues4 :=
          if existsb (fun g => (30 <? g)%Z) gaps then
            (issues3 ++ ["Large temporal gaps detected (>30 days)"%string])%list
          else issues3 in
        (Ok (Nat.eqb (List.length issues4) 0, issues4), df').

End Engine.

(* ================================================================== *)
(** * The numerical library behind the two interpolants *)
(* ================================================================== *)

(** The cubic splines of scipy, computed exactly: the second derivatives
    [M] at the knots solve a linear system whose inner equations state that
    the first derivative is continuous; the two outer equations are the
    boundary condition ([natural]: no curvature at the ends; otherwise
    not-a-knot: the third derivative is continuous at the second and at the
    last but one knot). *)
Module Scipy.

Definition knot_x (pts : list (nat * Qc)) (i : nat) : Qc :=
  Qc_of_Z (Z.of_nat (fst (nth i pts (O, 0)))).
Definition knot_y (pts : list (nat * Qc)) (i : nat) : Qc :=
  snd (nth i pts (O, 0)).
Definition step (pts : list (nat * Qc)) (i : nat) : Qc :=
  knot_x pts (S i) - knot_x pts i.
Definition slope (pts : list (nat * Qc)) (i : nat) : Qc :=
  (knot_y pts (S i) - knot_y pts i) / step pts i.

Definition sparse_row (m : nat) (entries : list (nat * Qc)) : vec :=
  map (fun j =>
         fold_right (fun e s => if Nat.eqb (fst e) j then snd e + s else s)
                    0 entries)
      (seq 0 m).

Definition moment_equation (natural : bool) (pts : list (nat * Qc)) (i : nat)
  : equation :=
  let m := List.length pts in
  let h := step pts in
  if Nat.eqb i 0 then
    if natural then (sparse_row m [(O, 1)], 0)
    else (sparse_row m [(O, h 1%nat); (1%nat, - (h O + h 1%nat)); (2%nat, h O)], 0)
  else if Nat.eqb (S i) m then
    if natural then (sparse_row m [(i, 1)], 0)
    else (sparse_row m [(i - 2, h (i - 1))%nat;
                        (i - 1, - (h (i - 2) + h (i - 1)))%nat;
                        (i, h (i - 2)%nat)], 0)
  else
    (sparse_row m [((i - 1)%nat, h (i - 1)%nat);
                   (i, Qc_of_Z 2 * (h (i - 1)%nat + h i));
                   (S i, h i)],
     Qc_of_Z 6 * (slope pts i - slope pts (i - 1))).

Definition moments (natural : bool) (pts : list (nat * Qc)) : vec :=
  let m := List.length pts in
  match gauss m (map (moment_equation natural pts) (seq 0 m)) with
  | Some M => M
  | None => zeros m
  end.

Definition cube (a : Qc) : Qc := a * a * a.

(** The cubic piece between two knots [(x0, y0, M0)] and [(x1, y1, M1)]. *)
Definition piece (k0 k1 : Qc * Qc * Qc) (t : Qc) : Qc :=
  let '(x0, y0, M0) := k0 in
  let '(x1, y1, M1) := k1 in
  let h := x1 - x0 in
  M0 * cube (x1 - t) / (Qc_of_Z 6 * h) + M1 * cube (t - x0) / (Qc_of_Z 6 * h)
  + (y0 / h - M0 * h / Qc_of_Z 6) * (x1 - t)
  + (y1 / h - M1 * h / Qc_of_Z 6) * (t - x0).

Fixpoint eval_pieces (knots : list (Qc * Qc * Qc)) (t : Qc) : Qc :=
  match knots with
  | k0 :: ((k1 :: rest) as later) =>
      match rest with
      | [] => piece k0 k1 t
      | _ => if Qc_ltb (fst (fst k1)) t then eval_pieces later t
             else piece k0 k1 t
      end
  | _ => 0
  end.

Definition cubic_spline (natural : bool) (pts : list (nat * Qc)) (t : nat) : Qc :=
  let M := moments natural pts in
  eval_pieces
    (map2 (fun p Mi => (Qc_of_Z (Z.of_nat (fst p)), snd p, Mi)) pts M)
    (Qc_of_Z (Z.of_nat t)).

(** [CubicSpline(xs, ys, bc_type='natural')] *)
Definition CubicSpline_natural : list (nat * Qc) -> nat -> Qc :=
  cubic_spline true.

(** pandas' [limit_direction='both']: a null stays when no valid entry lies
    within [limit] positions of it on either side, and outside the range of
    the valid entries, where [interp1d] gives [NaN]. *)
Definition pandas_cubic_value (limit : Z) (col : list (option Qc)) (i : nat)
  : option Qc :=
  let pts := valid_points col in
  let near :=
    existsb (fun p => (Z.abs (Z.of_nat (fst p) - Z.of_nat i) <=? limit)%Z) pts in
  let inside :=
    existsb (fun p => Nat.leb (fst p) i) pts
    && existsb (fun p => Nat.leb i (fst p)) pts in
  if near && inside then Some (cubic_spline false pts i) else None.

End Scipy.

(** The two scripts' gap fillers and validators. *)
Definition mcari_fill_gaps : DataFrame -> Z -> result DataFrame * DataFrame :=
  fill_gaps MCARI Scipy.CubicSpline_natural Scipy.pandas_cubic_value.
Definition savi_fill_gaps : DataFrame -> Z -> result DataFrame * DataFrame :=
  fill_gaps SAVI Scipy.CubicSpline_natural Scipy.pandas_cubic_value.

(* ================================================================== *)
(** * Sample inputs *)
(* ================================================================== *)

(** An observation that carries the primary statistic only. *)
Definition obs_mean (d : Z) (m : Qc) : Row :=
  mkRow (DateStr d) (Some m) None None None None None.

(** An observation with all four statistics and its cloud cover. *)
Definition obs_full (d : Z) (m sd lo hi cc : Qc) : Row :=
  mkRow (DateStr d) (Some m) (Some sd) (Some lo) (Some hi) (Some cc) None.

Definition mean_only_columns : list string := ["date"; "MCARI_mean"]%string.
Definition full_columns : list string :=
  ["date"; "MCARI_mean"; "MCARI_stdDev"; "MCARI_min"; "MCARI_max";
   "cloud_cover"]%string.

(** The end-to-end example of the specification: days 0, 10 and 50. *)
Definition end_to_end_input : DataFrame :=
  mkFrame mean_only_columns
    [obs_mean 0 (qfrac 3 10); obs_mean 10 (qfrac 1 2); obs_mean 50 (qfrac 2 5)].

Definition out_days (r : result DataFrame) : list Z :=
  match r with Ok df => map row_day (rows df) | Raise _ => [] end.

Definition three_observations_full : DataFrame :=
  mkFrame full_columns
    [obs_full 0 (qfrac 3 10) (qfrac 1 10) (qfrac 1 5) (qfrac 2 5) (Qc_of_Z 12);
     obs_full 20 (qfrac 1 2) (qfrac 1 10) (qfrac 2 5) (qfrac 3 5) (Qc_of_Z 5);
     obs_full 39 (qfrac 2 5) (qfrac 1 10) (qfrac 3 10) (qfrac 1 2) (Qc_of_Z 20)].

Definition three_observations_mean : DataFrame :=
  mkFrame mean_only_columns
    [obs_mean 0 (qfrac 3 10); obs_mean 20 (qfrac 1 2); obs_mean 39 (qfrac 2 5)].

(** Two observations of value 1 around one missing day. *)
Definition two_observations : DataFrame :=
  mkFrame mean_only_columns [obs_mean 0 1; obs_mean 2 1].

(** Observations on days 0, 1 and 3: day 2 is missing. *)
Definition one_missing_day : DataFrame :=
  mkFrame mean_only_columns [obs_mean 0 1; obs_mean 1 1; obs_mean 3 1].

(** Five observations with gaps, so that the spline is fitted. *)
Definition five_observations : DataFrame :=
  mkFrame mean_only_columns
    [obs_mean 0 1; obs_mean 2 1; obs_mean 3 (qfrac 1 2);
     obs_mean 6 (qfrac 3 2); obs_mean 8 1].



(** Three observations that do not lie on a line, around the missing day 2,
    as the smoothing step of [fill_gaps] receives them: the missing position
    holds the mean of the three, and has weight 0. *)
Definition bent_series : vec := [0; 1; qfrac 1 3; 0].
Definition bent_weights : vec := [1; 1; 0; 1].

(* ================================================================== *)
(** * The vocabulary of the specification *)
(* ================================================================== *)

(** A real Observation: its primary statistic is not null, and it carries no
    interpolation flag (that column is the gap filler's). *)
Definition observation (r : Row) : Prop :=
  idx_mean r <> None /\ is_interpolated r = None.

(** An Observation set: a frame with a [date] and a mean column whose rows
    are real Observations. *)
Definition observation_set (idx : Index) (df : DataFrame) : Prop :=
  has_column "date" df = true
  /\ has_column (mean_col idx) df = true
  /\ Forall observation (rows df).

Definition unique_dates (df : DataFrame) : Prop :=
  NoDup (map row_day (rows df)).

(** Day [d] has a real observation in [df]. *)
Definition observed_on (df : DataFrame) (d : Z) : Prop :=
  exists r, In r (rows df) /\ row_day r = d /\ idx_mean r <> None.

(** Day [d] lies in a maximal run of [k] missing days, between the
    observed days [a] and [b]. *)
Definition missing_run (df : DataFrame) (d : Z) (k : Z) : Prop :=
  exists a b, (a < d < b)%Z /\ observed_on df a /\ observed_on df b /\
    (forall e, (a < e < b)%Z -> ~ observed_on df e) /\ k = (b - a - 1)%Z.

(** How the consumers read the flag: a frame without the column has no
    interpolated row ([plot_time_series] counts every row as an observation
    then). *)
Definition isInterpolated (r : Row) : bool :=
  match is_interpolated r with
  | Some b => b
  | None => false
  end.

(** A statistic of the input is kept: the value it has is the value the
    output has. *)
Definition keeps (input output : option Qc) : Prop :=
  forall v, input = Some v -> output = Some v.

(** Row [r] of the output carries what row [b] of the merged calendar
    carried: the same date, and every value [b] had. *)
Definition row_kept (b r : Row) : Prop :=
  date r = date b
  /\ keeps (idx_mean b) (idx_mean r)
  /\ keeps (idx_stdDev b) (idx_stdDev r)
  /\ keeps (idx_min b) (idx_min r)
  /\ keeps (idx_max b) (idx_max r)
  /\ cloud_cover r = cloud_cover b.

(** A step of the pipeline that leaves the primary statistic alone. *)
Definition secondary_step (b r : Row) : Prop :=
  date r = date b
  /\ idx_mean r = idx_mean b
  /\ keeps (idx_stdDev b) (idx_stdDev r)
  /\ keeps (idx_min b) (idx_min r)
  /\ keeps (idx_max b) (idx_max r)
  /\ cloud_cover r = cloud_cover b
  /\ is_interpolated r = is_interpolated b.

Definition count_true (l : list bool) : nat :=
  List.length (filter (fun b => b) l).

(** The value a run of the gap scan has seen last. *)
Definition last_seen (prev : option bool) (l : list bool) : option bool :=
  fold_left (fun _ x => Some x) l prev.

(** The rows of a series on day [d]. *)
Definition rows_on (df : DataFrame) (d : Z) : list Row :=
  filter (fun r => (row_day r =? d)%Z) (rows df).

Definition present (df : DataFrame) (d : Z) : Prop :=
  exists r, In r (rows df) /\ row_day r = d.

(** The solver tolerance of the specification, [1e-6]. *)
Definition solver_tolerance : Qc := qfrac 1 1000000.

Definition Qc_abs (a : Qc) : Qc := if Qc_ltb a 0 then - a else a.

(** The smoothed sequence [z] reproduces [x] at every weight-1 position. *)
Definition reproduces_observed (tol : Qc) (x w : vec) (z : list (option Qc))
  : Prop :=
  forall i, nth i w 0 = 1 ->
    exists zi, nth i z None = Some zi /\ Qc_abs (zi - nth i x 0) <= tol.

(** [D.T.dot(D)], the matrix of the roughness penalty. *)
Definition penalty_matrix (n : nat) : matrix :=
  mat_mul n (transpose n (second_difference n)) (second_difference n).

Definition binary_weights (w : vec) : Prop :=
  Forall (fun wi => wi = 0 \/ wi = 1) w.

Definition strictly_increasing (l : list Z) : Prop :=
  StronglySorted Z.lt l.

(** What a caller can see of a row besides the representation of its date. *)
Definition row_content (r : Row) :=
  (row_day r, idx_mean r, idx_stdDev r, idx_min r, idx_max r, cloud_cover r,
   is_interpolated r).

(** The rows of the output that count as real observations: unflagged, and
    carrying the primary statistic of an input observation of that day. *)
Definition real_observation_row (df : DataFrame) (r' : Row) : Prop :=
  isInterpolated r' = false
  /\ exists r, In r (rows df) /\ row_day r = row_day r'
               /\ idx_mean r' = idx_mean r /\ idx_mean r <> None.

(** A cell of the [date] column that already is a timestamp. *)
Definition timestamped (r : Row) : Prop := date r = Timestamp (row_day r).

(* ================================================================== *)
(** * The vocabulary of the proofs *)
(* ================================================================== *)

(** ** Linear systems *)

Definition satisfies (z : vec) (e : equation) : Prop := dot (fst e) z = snd e.

(** [n] equations in [n] unknowns. *)
Definition well_formed (n : nat) (eqs : list equation) : Prop :=
  List.length eqs = n /\ Forall (fun e => List.length (fst e) = n) eqs.

(** Positive definite (symmetry is not needed for what follows). *)
Definition posdef (n : nat) (A : matrix) : Prop :=
  forall v, List.length v = n -> v <> zeros n -> 0 < dot v (mat_vec A v).

(** [u - v] *)
Definition vsub (u v : vec) : vec := map2 Qcminus u v.

(** The entries of the second-difference operator [D]. *)
Definition D_entry : nat -> nat -> Qc :=
  band_entry [1; Qc_of_Z (-2); 1] [0; -1; -2]%Z.

Close Scope Qc_scope.

(** ** The stages of [fill_gaps] *)

(** One row after [pd.to_datetime] on its date. *)
Definition conv (r : Row) : Row := set_date r (to_datetime (date r)).

(** The caller's rows, converted and sorted (line 63). *)
Definition sorted_input (df : DataFrame) : list Row :=
  sort_values_date (rows (dates_to_datetime df)).

(** The rows of [merged_df] (line 72). *)
Definition calendar_rows (df : DataFrame) : list Row :=
  flat_map (merge_day (sorted_input df))
    (pd_date_range (date_min (sorted_input df)) (date_max (sorted_input df))).

(** [merged_df[mean_col].isnull()] (line 75). *)
Definition gaps_of (l : list Row) : list bool :=
  map (fun r => isnull (idx_mean r)) l.

(** [gap_sizes <= max_gap_days] (line 125). *)
Definition kept_sizes (df : DataFrame) (mg : Z) : list bool :=
  map (fun s => (Z.of_nat s <=? mg)%Z) (gap_sizes_of (gaps_of (calendar_rows df))).

(** Some row of [l] is on day [d]. *)
Definition has_row (l : list Row) (d : Z) : Prop :=
  exists r, In r l /\ row_day r = d.

(** What a successful run of the body has made of row [b] of the calendar:
    row [r], flagged when [b] had no mean, and with a mean when the smoother
    delivered one everywhere. *)
Definition filled_row (all_filled : Prop) (b r : Row) : Prop :=
  row_kept b r
  /\ is_interpolated r = Some (isnull (idx_mean b))
  /\ (all_filled -> idx_mean r <> None).

(** The same, read through [isInterpolated], so that it also covers the run
    that found no gap and returned the calendar as it was. *)
Definition from_calendar (filled : Prop) (b r : Row) : Prop :=
  row_kept b r
  /\ isInterpolated r = isnull (idx_mean b)
  /\ (filled -> idx_mean r <> None).

(** Whatever the smoothing step returns has a value at every position. *)
Definition solve_succeeds (df : DataFrame) (mg : Z) : Prop :=
  forall smoothed,
    smooth_means (map idx_mean (calendar_rows df))
      (weights_of (gaps_of (calendar_rows df))
         (gap_sizes_of (gaps_of (calendar_rows df))) mg) = Ok smoothed ->
    Forall (fun v => v <> None) smoothed.

(** ** Sample outputs *)

Definition output_of (r : result DataFrame) : DataFrame :=
  match r with
  | Ok out => out
  | Raise _ => mkFrame [] []
  end.

Definition two_observations_filled : DataFrame :=
  output_of (fst (mcari_fill_gaps two_observations 32)).

Definition one_missing_day_filled : DataFrame :=
  output_of (fst (mcari_fill_gaps one_missing_day 32)).

Definition end_to_end_filled : DataFrame :=
  output_of (fst (mcari_fill_gaps end_to_end_input 32)).

(* ================================================================== *)
(** * The analyzer around the gap filler *)
(* ================================================================== *)

(** ** The index of one pixel

    [calculate_mcari] and [calculate_savi] build an Earth Engine expression;
    the server evaluates it pixel by pixel.  A pixel is the digital numbers
    of the Sentinel-2 bands the two methods select.  [ee.Image.divide]
    returns 0 where the divisor is 0. *)

Open Scope Qc_scope.

Module EE.

Definition divide (a b : Qc) : Qc := if Qc_eq_dec b 0 then 0 else a / b.
Definition subtract (a b : Qc) : Qc := a - b.
Definition multiply (a b : Qc) : Qc := a * b.
Definition add (a b : Qc) : Qc := a + b.

End EE.

Record Pixel : Type := mkPixel {
  B3 : Qc;   (* green *)
  B4 : Qc;   (* red *)
  B5 : Qc;   (* red edge *)
  B8 : Qc    (* near infrared *)
}.

(** [calculate_mcari(image)]: [[(B5 - B4) - 0.2 * (B5 - B3)] * (B5 / B4)]
    on the bands divided by 10000. *)
Definition calculate_mcari (image : Pixel) : Qc :=
  let GREEN := EE.divide (B3 image) (Qc_of_Z 10000) in
  let RED := EE.divide (B4 image) (Qc_of_Z 10000) in
  let REDEDGE := EE.divide (B5 image) (Qc_of_Z 10000) in
  let term1 := EE.subtract REDEDGE RED in
  let term2 := EE.multiply (EE.subtract REDEDGE GREEN) (qfrac 1 5) in
  let term3 := EE.divide REDEDGE RED in
  EE.multiply (EE.subtract term1 term2) term3.

(** [calculate_savi(image)] with [L = self.config['soil_brightness_factor']]:
    [((NIR - RED) * (1 + L)) / (NIR + RED + L)]. *)
Definition calculate_savi (L : Qc) (image : Pixel) : Qc :=
  let NIR := EE.divide (B8 image) (Qc_of_Z 10000) in
  let RED := EE.divide (B4 image) (Qc_of_Z 10000) in
  EE.divide (EE.multiply (EE.subtract NIR RED) (1 + L))
            (EE.add (EE.add NIR RED) L).

Close Scope Qc_scope.

(** ** The configuration *)

(** A value [json.load] returns. *)
#[warnings="-register-all"] Inductive json : Type :=
| JNull
| JBool (b : bool)
| JNumber (q : Qc)
| JString (s : string)
| JArray (items : list json)
| JObject (members : list (string * json)).

(** A Python [dict] with string keys, in insertion order. *)
Abbreviation dict := (list (string * json)) (only parsing).

(** [d[k]], as an option. *)
Fixpoint dict_get (d : dict) (k : string) : option json :=
  match d with
  | [] => None
  | (k', v) :: d' => if String.eqb k k' then Some v else dict_get d' k
  end.

(** [d[k] = v]: a key that is there keeps its place. *)
Fixpoint dict_set (d : dict) (k : string) (v : json) : dict :=
  match d with
  | [] => [(k, v)]
  | (k', v') :: d' =>
      if String.eqb k k' then (k', v) :: d' else (k', v') :: dict_set d' k v
  end.

(** [{**d, **other}] *)
Definition dict_merge (d other : dict) : dict :=
  fold_left (fun acc kv => dict_set acc (fst kv) (snd kv)) other d.

(** [default_config] of the MCARI and of the SAVI analyzer. *)
Definition mcari_default_config : dict :=
  [("cloud_cover_threshold", JNumber (Qc_of_Z 30));
   ("chunk_size_days", JNumber (Qc_of_Z 15));
   ("scale_meters", JNumber (Qc_of_Z 30));
   ("max_pixels", JNumber (Qc_of_Z 1000000000));
   ("output_directory", JString "output")]%string.

Definition savi_default_config : dict :=
  mcari_default_config
    ++ [("soil_brightness_factor"%string, JNumber (qfrac 1 2))].

(** What is at [config_path]: nothing, a file that is not JSON, or a file
    holding a JSON value. *)
Inductive config_file : Type :=
| NoFile
| NotJSON
| Holds (v : json).

Inductive config_exn : Type :=
| ConfigurationError (message : string)
| TypeError (message : string).

(** [_load_config(config_path)], lines 145-165: the defaults when there is
    no file; [ConfigurationError] for a file that does not parse; for a file
    that parses, the defaults updated with the file's members.  Unpacking
    with [**] a value that is not a mapping raises [TypeError], which the
    [except json.JSONDecodeError] clause does not catch. *)
Definition _load_config (default_config : dict) (file : config_file)
  : config_exn + dict :=
  match file with
  | NoFile => inr default_config
  | NotJSON => inl (ConfigurationError "Error parsing config file")
  | Holds (JObject config) => inr (dict_merge default_config config)
  | Holds _ => inl (TypeError "object is not a mapping")
  end.

(** ** Acquisition *)

(** The value of one property of a feature as [getInfo()] delivers it: the
    key may be absent, or hold [None], or a number. *)
Inductive property : Type :=
| Absent
| Null
| Number (q : Qc).

(** The properties [process_image] gives a feature (lines 251-258).  The
    [date] is the string [image.date().format('YYYY-MM-dd')], held as the day
    it names. *)
Record Properties : Type := mkProperties {
  prop_date : Z;
  prop_mean : property;
  prop_stdDev : property;
  prop_min : property;
  prop_max : property;
  prop_cloud_cover : property
}.

(** What Earth Engine answers for one chunk: an error raised by one of the
    calls, or the number of images ([s2_collection.size().getInfo()]) and
    the features ([...getInfo()['features']]), the second request failing
    when [features] is [None]. *)
Inductive ee_reply : Type :=
| EEException
| Images (image_count : nat) (features : option (list Properties)).

(** Lines 264-267: [for feature in features: if
    feature['properties'][mean] is not None: results.append(...)].  The
    subscript raises [KeyError] when the key is absent. *)
Fixpoint extract_properties (idx : Index) (features : list Properties)
    (results : list Properties) : result (list Properties) :=
  match features with
  | [] => Ok results
  | feature :: rest =>
      match prop_mean feature with
      | Absent => Raise (KeyError (mean_col idx))
      | Null => extract_properties idx rest results
      | Number _ => extract_properties idx rest (results ++ [feature])
      end
  end.

(** [process_date_chunk(geometry, start_date, end_date)], lines 214-273,
    given what Earth Engine answers: every exception is logged and turned
    into an empty list. *)
Definition process_date_chunk (idx : Index) (reply : ee_reply)
  : list Properties :=
  match reply with
  | EEException => []
  | Images O _ => []
  | Images (S _) None => []
  | Images (S _) (Some features) =>
      match extract_properties idx features [] with
      | Ok results => results
      | Raise _ => []
      end
  end.

(** The chunk loop of [run_analysis], lines 434-448, on day numbers:
    [while current_start < end: current_end = min(current_start + chunk_size,
    end); all_results.extend(process_date_chunk(...)); current_start =
    current_end].  [None] when the loop has not ended after [fuel]
    iterations. *)
Fixpoint chunk_loop {A : Type} (process : Z -> Z -> list A) (fuel : nat)
    (current_start end_ chunk_size : Z) (all_results : list A)
  : option (list A) :=
  match fuel with
  | O => None
  | S fuel' =>
      if (current_start <? end_)%Z then
        let current_end := Z.min (current_start + chunk_size) end_ in
        let chunk_results := process current_start current_end in
        chunk_loop process fuel' current_end end_ chunk_size
                   (all_results ++ chunk_results)
      else Some all_results
  end.

Definition property_value (p : property) : option Qc :=
  match p with Number q => Some q | _ => None end.

Definition property_present (p : property) : bool :=
  match p with Absent => false | _ => true end.

(** [pd.DataFrame(all_results)], line 451: one row per record, one column
    per key that some record has; a key a record lacks, and [None], give a
    null cell.  No record gives a frame without columns. *)
Definition frame_of_results (idx : Index) (all_results : list Properties)
  : DataFrame :=
  match all_results with
  | [] => mkFrame [] []
  | _ =>
      let column (name : string) (get : Properties -> property) :=
        if existsb (fun p => property_present (get p)) all_results
        then [name] else [] in
      mkFrame
        (("date"%string :: column (mean_col idx) prop_mean)
           ++ column (stdDev_col idx) prop_stdDev
           ++ column (min_col idx) prop_min
           ++ column (max_col idx) prop_max
           ++ column "cloud_cover"%string prop_cloud_cover)
        (map (fun p =>
                mkRow (DateStr (prop_date p))
                      (property_value (prop_mean p))
                      (property_value (prop_stdDev p))
                      (property_value (prop_min p))
                      (property_value (prop_max p))
                      (property_value (prop_cloud_cover p))
                      None)
             all_results)
  end.

(** ** The checks of the validator, one by one *)

(** [df.isnull().any().any()] *)
Definition missing_values (idx : Index) (df : DataFrame) : bool :=
  existsb (row_has_null idx df) (rows df).

(** [(df[mean] > above).any() or (df[mean] < below).any()] *)
Definition unrealistic_values (idx : Index) (df : DataFrame) : bool :=
  existsb (fun c => match c with
                    | Some v => Qc_ltb (unrealistic_above idx) v
                    | None => false end) (map idx_mean (rows df))
  || existsb (fun c => match c with
                       | Some v => Qc_ltb v (unrealistic_below idx)
                       | None => false end) (map idx_mean (rows df)).

(** [(df['date'].max() - df['date'].min()).days] *)
Definition coverage_days (df : DataFrame) : Z :=
  (date_max (rows df) - date_min (rows df))%Z.

(** [(df.sort_values('date')['date'].diff().dt.days > 30).any()] *)
Definition large_gaps (df : DataFrame) : bool :=
  existsb (fun g => (30 <? g)%Z)
          (day_diffs (map row_day (sort_values_date (rows df)))).

(** The issues in the order the validator appends them. *)
Definition issues_of (idx : Index) (df : DataFrame) : list string :=
  ((if missing_values idx df
    then ["Missing values detected in the data"%string] else [])
   ++ (if unrealistic_values idx df then [unrealistic_msg idx] else [])
   ++ (if (coverage_days df <? 30)%Z
       then [("Short temporal coverage: "
                ++ string_of_Z (coverage_days df) ++ " days")%string] else [])
   ++ (if large_gaps df
       then ["Large temporal gaps detected (>30 days)"%string] else []))%list.

(** A row of the merged calendar that carries an observation. *)
Definition has_mean (r : Row) : bool := negb (isnull (idx_mean r)).

(** A property that holds a number. *)
Definition numeric (p : property) : bool :=
  match p with Number _ => true | _ => false end.

(** ** More sample inputs *)

(** Three consecutive days, delivered out of order. *)
Definition consecutive_days : DataFrame :=
  mkFrame mean_only_columns
    [obs_mean 1 1%Qc; obs_mean 0 (qfrac 1 2); obs_mean 2 1%Qc].

(** An observation with its mean and its cloud cover. *)
Definition obs_cloud (d : Z) (m cc : Qc) : Row :=
  mkRow (DateStr d) (Some m) None None None (Some cc) None.

Definition cloud_columns : list string :=
  ["date"; "MCARI_mean"; "cloud_cover"]%string.

Definition two_observations_cloud : DataFrame :=
  mkFrame cloud_columns
    [obs_cloud 0 1%Qc (Qc_of_Z 10); obs_cloud 2 1%Qc (Qc_of_Z 20)].

Definition two_observations_cloud_filled : DataFrame :=
  output_of (fst (mcari_fill_gaps two_observations_cloud 32)).

(** [two_observations], the later row first. *)
Definition two_observations_swapped : DataFrame :=
  mkFrame mean_only_columns [obs_mean 2 1%Qc; obs_mean 0 1%Qc].

(** Two observations thirty days apart. *)
Definition thirty_days : DataFrame :=
  mkFrame mean_only_columns [obs_mean 0 1%Qc; obs_mean 30 1%Qc].

(** A configuration file that sets the chunk size only. *)
Definition sample_config : list (string * json) :=
  [("chunk_size_days"%string, JNumber (Qc_of_Z 10))].

Definition sample_pixel : Pixel :=
  mkPixel (Qc_of_Z 800) (Qc_of_Z 600) (Qc_of_Z 1500) (Qc_of_Z 3000).

(** An Earth Engine that has one image on the first day of every chunk. *)
Definition sample_ee (start_date end_date : Z) : ee_reply :=
  Images 1 (Some [mkProperties start_date (Number 1%Qc) Null Null Null
                               (Number (Qc_of_Z 10))]).

(* ================================================================== *)
(** * Lists, gap groups *)
(* ================================================================== *)

Section ListFacts.
Context {A B C : Type}.

Lemma map2_length (f : A -> B -> C) (l : list A) (m : list B) :
  List.length (map2 f l m) = Nat.min (List.length l) (List.length m).
Proof.
  revert m; induction l as [| a l IH]; intros [| b m]; simpl; auto.
Qed.

Lemma map2_app (f : A -> B -> C) (l1 l2 : list A) (m1 m2 : list B) :
  List.length l1 = List.length m1 ->
  map2 f (l1 ++ l2) (m1 ++ m2) = map2 f l1 m1 ++ map2 f l2 m2.
Proof.
  revert m1; induction l1 as [| a l1 IH]; intros [| b m1] H; simpl in *;
    try discriminate; auto.
  f_equal. apply IH. lia.
Qed.

Lemma map2_nth (f : A -> B -> C) (l : list A) (m : list B) i a b c :
  (i < List.length l)%nat -> (i < List.length m)%nat ->
  nth i (map2 f l m) c = f (nth i l a) (nth i m b).
Proof.
  revert m i; induction l as [| x l IH]; intros [| y m] [| i] Hl Hm; simpl in *;
    try lia; auto.
  apply IH; lia.
Qed.

Lemma nth_map_lt (f : A -> B) (l : list A) i a b :
  (i < List.length l)%nat -> nth i (map f l) b = f (nth i l a).
Proof.
  revert i; induction l as [| x l IH]; intros [| i] H; simpl in *; try lia; auto.
  apply IH; lia.
Qed.

End ListFacts.

(** ** Group identifiers *)


Lemma cumsum_from_app acc l1 l2 :
  cumsum_from acc (l1 ++ l2)
  = cumsum_from acc l1 ++ cumsum_from (acc + count_true l1) l2.
Proof.
  revert acc; induction l1 as [| b l1 IH]; intro acc; simpl.
  - f_equal. unfold count_true; simpl; lia.
  - f_equal. rewrite IH. f_equal. f_equal.
    unfold count_true; destruct b; simpl; lia.
Qed.

Lemma cumsum_from_bounds acc l :
  Forall (fun g => acc <= g <= acc + count_true l)%nat (cumsum_from acc l).
Proof.
  revert acc; induction l as [| b l IH]; intro acc; simpl; constructor.
  - unfold count_true; destruct b; simpl; lia.
  - eapply Forall_impl; [| apply IH].
    intros g Hg. simpl in Hg. unfold count_true in *. destruct b; simpl in *; lia.
Qed.

Lemma cumsum_from_length acc l : List.length (cumsum_from acc l) = List.length l.
Proof. revert acc; induction l; intro; simpl; auto. Qed.

Lemma ne_shift_from_length p l : List.length (ne_shift_from p l) = List.length l.
Proof. revert p; induction l; intro; simpl; auto. Qed.


Lemma last_seen_app prev l1 l2 :
  last_seen prev (l1 ++ l2) = last_seen (last_seen prev l1) l2.
Proof. apply fold_left_app. Qed.

Lemma ne_shift_from_app prev l1 l2 :
  ne_shift_from prev (l1 ++ l2)
  = ne_shift_from prev l1 ++ ne_shift_from (last_seen prev l1) l2.
Proof.
  revert prev; induction l1 as [| b l1 IH]; intro prev; simpl; auto.
  f_equal. apply IH.
Qed.

Lemma ne_shift_from_repeat_true k :
  ne_shift_from (Some true) (repeat true k) = repeat false k.
Proof. induction k; simpl; auto. f_equal; auto. Qed.

Lemma last_seen_repeat_true k : last_seen (Some true) (repeat true k) = Some true.
Proof. induction k; simpl; auto. Qed.

Lemma cumsum_from_repeat_false acc k :
  cumsum_from acc (repeat false k) = repeat acc k.
Proof. induction k; simpl; auto. f_equal; auto. Qed.

Lemma count_true_repeat_false k : count_true (repeat false k) = 0%nat.
Proof. induction k; simpl; auto. Qed.

Lemma count_occ_out_of_range (l : list nat) (c lo hi : nat) :
  Forall (fun g => lo <= g <= hi)%nat l -> (c < lo \/ hi < c)%nat ->
  count_occ Nat.eq_dec l c = 0%nat.
Proof.
  intros H Hc. apply count_occ_not_In. intro Hin.
  rewrite Forall_forall in H. specialize (H _ Hin). lia.
Qed.

Lemma count_occ_repeat_same (c k : nat) : count_occ Nat.eq_dec (repeat c k) c = k.
Proof.
  induction k; simpl; auto. destruct (Nat.eq_dec c c); [lia | congruence].
Qed.

(** The group identifiers of a maximal run of [k] gaps. *)
Lemma gap_groups_run (X Y : list bool) (k : nat) :
  last_seen None X <> Some true ->
  hd false Y = false ->
  exists IX IY c,
    cumsum (ne_shift (X ++ repeat true (S k) ++ Y)) = IX ++ repeat c (S k) ++ IY
    /\ List.length IX = List.length X
    /\ List.length IY = List.length Y
    /\ Forall (fun g => g < c)%nat IX
    /\ Forall (fun g => c < g)%nat IY.
Proof.
  intros HX HY.
  unfold cumsum, ne_shift.
  rewrite ne_shift_from_app, cumsum_from_app.
  set (p := last_seen None X) in *.
  set (a := (0 + count_true (ne_shift_from None X))%nat).
  change (repeat true (S k) ++ Y) with (true :: (repeat true k ++ Y)).
  cbn [ne_shift_from cumsum_from].
  assert (Hchg : match p with None => true | Some q => xorb true q end = true).
  { destruct p as [[|] |]; simpl; congruence. }
  rewrite Hchg.
  rewrite ne_shift_from_app, cumsum_from_app.
  rewrite ne_shift_from_repeat_true, cumsum_from_repeat_false,
    count_true_repeat_false, Nat.add_0_r, last_seen_repeat_true.
  exists (cumsum_from 0 (ne_shift_from None X)),
    (cumsum_from (S a) (ne_shift_from (Some true) Y)),
    (S a).
  split; [reflexivity |].
  split; [rewrite cumsum_from_length, ne_shift_from_length; reflexivity |].
  split; [rewrite cumsum_from_length, ne_shift_from_length; reflexivity |].
  split.
  - eapply Forall_impl; [| apply cumsum_from_bounds].
    intros g Hg. subst a. simpl in *. lia.
  - destruct Y as [| y Y]; [constructor |].
    simpl in HY. subst y.
    cbn [ne_shift_from cumsum_from xorb].
    constructor; [lia |].
    eapply Forall_impl; [| apply cumsum_from_bounds].
    intros g Hg. simpl in Hg. lia.
Qed.

Lemma gap_sizes_of_length g : List.length (gap_sizes_of g) = List.length g.
Proof.
  unfold gap_sizes_of, transform_size, cumsum, ne_shift.
  rewrite map2_length, length_map, cumsum_from_length, ne_shift_from_length.
  lia.
Qed.

(** Every position of a maximal run of [k] gaps has gap size [k]. *)
Lemma gap_sizes_run (X Y : list bool) (k i : nat) :
  last_seen None X <> Some true ->
  hd false Y = false ->
  (List.length X <= i < List.length X + S k)%nat ->
  nth i (gap_sizes_of (X ++ repeat true (S k) ++ Y)) 0%nat = S k.
Proof.
  intros HX HY Hi.
  destruct (gap_groups_run X Y k HX HY) as (IX & IY & c & E & LX & LY & FX & FY).
  unfold gap_sizes_of. rewrite E.
  set (g := X ++ repeat true (S k) ++ Y).
  assert (Hlen : List.length g = (List.length X + S k + List.length Y)%nat).
  { subst g. rewrite !length_app, repeat_length. lia. }
  assert (Hlen' : List.length (IX ++ repeat c (S k) ++ IY) = List.length g).
  { rewrite !length_app, repeat_length. lia. }
  rewrite map2_nth with (a := 0%nat) (b := false).
  2:{ unfold transform_size. rewrite length_map, Hlen'. lia. }
  2:{ lia. }
  assert (Hg : nth i g false = true).
  { subst g. rewrite app_nth2 by lia. rewrite app_nth1 by (rewrite repeat_length; lia).
    apply nth_repeat_lt. lia. }
  rewrite Hg.
  unfold transform_size.
  rewrite nth_map_lt with (a := 0%nat) by (rewrite Hlen'; lia).
  assert (Hc : nth i (IX ++ repeat c (S k) ++ IY) 0%nat = c).
  { rewrite app_nth2 by lia. rewrite app_nth1 by (rewrite repeat_length; lia).
    apply nth_repeat_lt. lia. }
  rewrite Hc. rewrite !count_occ_app, count_occ_repeat_same.
  assert (EX : count_occ Nat.eq_dec IX c = 0%nat).
  { apply count_occ_not_In. intro Hin.
    rewrite Forall_forall in FX. specialize (FX _ Hin). lia. }
  assert (EY : count_occ Nat.eq_dec IY c = 0%nat).
  { apply count_occ_not_In. intro Hin.
    rewrite Forall_forall in FY. specialize (FY _ Hin). lia. }
  lia.
Qed.

Lemma gap_sizes_observed (g : list bool) (i : nat) :
  nth i g false = false -> nth i (gap_sizes_of g) 0%nat = 0%nat.
Proof.
  intro H. destruct (Nat.lt_ge_cases i (List.length g)) as [Hi | Hi].
  - unfold gap_sizes_of.
    rewrite map2_nth with (a := 0%nat) (b := false).
    + rewrite H. reflexivity.
    + unfold transform_size, cumsum, ne_shift.
      rewrite length_map, cumsum_from_length, ne_shift_from_length. exact Hi.
    + exact Hi.
  - apply nth_overflow. rewrite gap_sizes_of_length. exact Hi.
Qed.

(* ================================================================== *)
(** * Sorting, the calendar and the merge *)
(* ================================================================== *)

(** ** Sorting and the extreme dates *)

Lemma insert_by_date_perm r l : Permutation (insert_by_date r l) (r :: l).
Proof.
  induction l as [| a l IH]; simpl; auto.
  destruct (row_day r <=? row_day a)%Z; auto.
  rewrite IH. apply perm_swap.
Qed.

Lemma sort_values_date_perm l : Permutation (sort_values_date l) l.
Proof.
  induction l as [| a l IH]; simpl; auto.
  rewrite insert_by_date_perm. auto.
Qed.

Lemma sort_values_date_In r l : In r (sort_values_date l) <-> In r l.
Proof.
  split; apply Permutation_in;
    [apply sort_values_date_perm | symmetry; apply sort_values_date_perm].
Qed.

Lemma date_min_le l r : In r l -> (date_min l <= row_day r)%Z.
Proof.
  destruct l as [| a l]; [intros [] |].
  simpl. revert r. induction l as [| b l IH]; intros r [E | H]; simpl in *.
  - subst; lia.
  - destruct H.
  - subst. specialize (IH r (or_introl eq_refl)). lia.
  - destruct H as [E | H].
    + subst; lia.
    + specialize (IH r (or_intror H)). lia.
Qed.

Lemma date_max_ge l r : In r l -> (row_day r <= date_max l)%Z.
Proof.
  destruct l as [| a l]; [intros [] |].
  simpl. revert r. induction l as [| b l IH]; intros r [E | H]; simpl in *.
  - subst; lia.
  - destruct H.
  - subst. specialize (IH r (or_introl eq_refl)). lia.
  - destruct H as [E | H].
    + subst; lia.
    + specialize (IH r (or_intror H)). lia.
Qed.

Lemma date_min_In l : l <> [] -> exists r, In r l /\ row_day r = date_min l.
Proof.
  destruct l as [| a l]; [congruence | intros _].
  simpl. induction l as [| b l IH]; simpl.
  - exists a; auto.
  - destruct IH as (r & Hr & E).
    destruct (Z.min_spec (row_day b) (fold_right (fun r' m => Z.min (row_day r') m) (row_day a) l))
      as [[_ ->] | [_ ->]].
    + exists b; auto.
    + exists r. split; [| exact E]. destruct Hr; auto.
Qed.

Lemma date_max_In l : l <> [] -> exists r, In r l /\ row_day r = date_max l.
Proof.
  destruct l as [| a l]; [congruence | intros _].
  simpl. induction l as [| b l IH]; simpl.
  - exists a; auto.
  - destruct IH as (r & Hr & E).
    destruct (Z.max_spec (row_day b) (fold_right (fun r' m => Z.max (row_day r') m) (row_day a) l))
      as [[_ ->] | [_ ->]].
    + exists r. split; [| exact E]. destruct Hr; auto.
    + exists b; auto.
Qed.

(** ** The daily calendar *)

Lemma pd_date_range_In lo hi d : In d (pd_date_range lo hi) <-> (lo <= d <= hi)%Z.
Proof.
  unfold pd_date_range. rewrite in_map_iff. split.
  - intros (k & <- & Hk). apply in_seq in Hk. lia.
  - intros H. exists (Z.to_nat (d - lo)). split; [lia |].
    apply in_seq. lia.
Qed.

Lemma seq_shift_by (k s n : nat) : seq (k + s) n = map (fun i => k + i)%nat (seq s n).
Proof.
  revert s; induction n as [| n IH]; intro s; simpl; auto.
  f_equal. rewrite <- IH. f_equal. lia.
Qed.

Lemma pd_date_range_split lo m hi :
  (lo - 1 <= m <= hi)%Z ->
  pd_date_range lo hi = pd_date_range lo m ++ pd_date_range (m + 1) hi.
Proof.
  intro H. unfold pd_date_range.
  replace (Z.to_nat (hi - lo + 1))
    with (Z.to_nat (m - lo + 1) + Z.to_nat (hi - (m + 1) + 1))%nat by lia.
  rewrite seq_app, map_app. f_equal.
  rewrite Nat.add_0_l.
  replace (Z.to_nat (m - lo + 1)) with (Z.to_nat (m - lo + 1) + 0)%nat at 1 by lia.
  rewrite seq_shift_by, map_map.
  apply map_ext. intro k. lia.
Qed.

Lemma pd_date_range_length lo hi :
  List.length (pd_date_range lo hi) = Z.to_nat (hi - lo + 1).
Proof. unfold pd_date_range. rewrite length_map, length_seq. reflexivity. Qed.

Lemma pd_date_range_sorted lo hi : StronglySorted Z.lt (pd_date_range lo hi).
Proof.
  unfold pd_date_range. generalize (Z.to_nat (hi - lo + 1)) as n. intro n.
  generalize 0%nat as s. induction n as [| n IH]; intro s; simpl; constructor.
  - apply IH.
  - rewrite Forall_forall. intros d Hd. apply in_map_iff in Hd.
    destruct Hd as (k & <- & Hk). apply in_seq in Hk. lia.
Qed.

(** ** The left merge *)

Lemma merge_day_cases l d b :
  In b (merge_day l d) ->
  (b = null_row d /\ forall r, In r l -> row_day r <> d)
  \/ (In b l /\ row_day b = d).
Proof.
  unfold merge_day. intro H.
  destruct (filter (fun r => (row_day r =? d)%Z) l) as [| m ms] eqn:E.
  - left. destruct H as [<- | []]. split; auto.
    intros r Hr Hd.
    assert (Hin : In r (filter (fun r => (row_day r =? d)%Z) l)).
    { apply filter_In. split; auto. apply Z.eqb_eq; auto. }
    rewrite E in Hin. destruct Hin.
  - right. rewrite <- E in H. apply filter_In in H.
    destruct H as [H1 H2]. apply Z.eqb_eq in H2. auto.
Qed.

Lemma merge_day_day l d b : In b (merge_day l d) -> row_day b = d.
Proof.
  intro H. destruct (merge_day_cases _ _ _ H) as [[-> _] | [_ E]]; auto.
Qed.

Lemma merge_day_nonempty l d : merge_day l d <> [].
Proof.
  unfold merge_day.
  destruct (filter (fun r => (row_day r =? d)%Z) l); congruence.
Qed.

Lemma merge_day_observed l d r :
  In r l -> row_day r = d -> In r (merge_day l d).
Proof.
  intros Hr Hd. unfold merge_day.
  assert (Hin : In r (filter (fun r => (row_day r =? d)%Z) l)).
  { apply filter_In. split; auto. apply Z.eqb_eq; auto. }
  destruct (filter (fun r => (row_day r =? d)%Z) l); [destruct Hin | exact Hin].
Qed.

Lemma merge_day_missing l d :
  (forall r, In r l -> row_day r <> d) -> merge_day l d = [null_row d].
Proof.
  intro H. unfold merge_day.
  destruct (filter (fun r => (row_day r =? d)%Z) l) as [| m ms] eqn:E; auto.
  assert (Hin : In m (filter (fun r => (row_day r =? d)%Z) l)) by (rewrite E; left; auto).
  apply filter_In in Hin. destruct Hin as [H1 H2]. apply Z.eqb_eq in H2.
  exfalso. eapply H; eauto.
Qed.

Lemma filter_day_unique l d :
  NoDup (map row_day l) ->
  (List.length (filter (fun r => (row_day r =? d)%Z) l) <= 1)%nat.
Proof.
  induction l as [| a l IH]; simpl; intro H; [lia |].
  inversion H as [| ? ? Hn Hnd]; subst.
  destruct (row_day a =? d)%Z eqn:E; simpl.
  - apply Z.eqb_eq in E.
    assert (Hf : filter (fun r => (row_day r =? d)%Z) l = []).
    { destruct (filter (fun r => (row_day r =? d)%Z) l) as [| m ms] eqn:F; auto.
      assert (Hin : In m (filter (fun r => (row_day r =? d)%Z) l)) by (rewrite F; left; auto).
      apply filter_In in Hin. destruct Hin as [H1 H2]. apply Z.eqb_eq in H2.
      exfalso. apply Hn. rewrite E, <- H2. apply in_map; auto. }
    rewrite Hf. simpl. lia.
  - apply IH; auto.
Qed.

Lemma merge_day_unique_days l d :
  NoDup (map row_day l) -> map row_day (merge_day l d) = [d].
Proof.
  intro H. pose proof (filter_day_unique l d H) as Hlen.
  pose proof (merge_day_day l d) as Hday.
  unfold merge_day in *.
  destruct (filter (fun r => (row_day r =? d)%Z) l) as [| m [| m' ms]] eqn:E.
  - reflexivity.
  - simpl. f_equal. apply Hday. left; auto.
  - simpl in Hlen. lia.
Qed.

Lemma merged_unique_days l range :
  NoDup (map row_day l) ->
  map row_day (flat_map (merge_day l) range) = range.
Proof.
  intro H. induction range as [| d range IH]; simpl; auto.
  rewrite map_app, IH, merge_day_unique_days; auto.
Qed.

(* ================================================================== *)
(** * The stages of the pipeline *)
(* ================================================================== *)

Lemma keeps_refl c : keeps c c.
Proof. intros v H; exact H. Qed.

Lemma keeps_trans a b c : keeps a b -> keeps b c -> keeps a c.
Proof. intros H1 H2 v H. apply H2, H1, H. Qed.

Lemma secondary_step_refl r : secondary_step r r.
Proof. repeat split; auto using keeps_refl. Qed.

Lemma secondary_step_trans a b c :
  secondary_step a b -> secondary_step b c -> secondary_step a c.
Proof.
  intros (D1 & M1 & S1 & N1 & X1 & C1 & I1) (D2 & M2 & S2 & N2 & X2 & C2 & I2).
  repeat split; try congruence; eauto using keeps_trans.
Qed.

Lemma Forall2_refl {A} (R : A -> A -> Prop) (l : list A) :
  (forall a, R a a) -> Forall2 R l l.
Proof. intro H; induction l; constructor; auto. Qed.

Lemma Forall2_trans {A} (R : A -> A -> Prop) (l1 l2 l3 : list A) :
  (forall a b c, R a b -> R b c -> R a c) ->
  Forall2 R l1 l2 -> Forall2 R l2 l3 -> Forall2 R l1 l3.
Proof.
  intros HR H12; revert l3; induction H12; intros l3 H23; inversion H23; subst;
    constructor; eauto.
Qed.

Lemma Forall2_map2 {A B} (P : A -> A -> Prop) (f : A -> B -> A) (l : list A) (m : list B) :
  List.length l = List.length m ->
  (forall a b, In a l -> In b m -> P a (f a b)) ->
  Forall2 P l (map2 f l m).
Proof.
  revert m; induction l as [| a l IH]; intros [| b m] Hlen H; simpl in *;
    try discriminate; constructor.
  - apply H; auto.
  - apply IH; [lia | intros; apply H; auto].
Qed.

Lemma gauss_length n eqs z : gauss n eqs = Some z -> List.length z = n.
Proof.
  revert eqs z; induction n as [| n IH]; intros eqs z; simpl.
  - intro H; injection H as <-; reflexivity.
  - destruct (find_pivot eqs) as [[p others] |]; [| discriminate].
    destruct (gauss n (map (eliminate p) others)) as [z' |] eqn:E; [| discriminate].
    intro H; injection H as <-. simpl. f_equal. eapply IH; eauto.
Qed.

Lemma spsolve_length A b : List.length (spsolve A b) = List.length b.
Proof.
  unfold spsolve. destruct (gauss (List.length b) (combine A b)) eqn:E.
  - rewrite length_map. eapply gauss_length; eauto.
  - apply repeat_length.
Qed.

Lemma mapi_from_length {A B} (f : nat -> A -> B) i l :
  List.length (mapi_from i f l) = List.length l.
Proof. revert i; induction l; intro; simpl; auto. Qed.

Lemma mapi_from_Forall2 {A B} (P : A -> B -> Prop) (f : nat -> A -> B) i l :
  (forall j a, P a (f j a)) -> Forall2 P l (mapi_from i f l).
Proof. intro H. revert i; induction l; intro; simpl; constructor; auto. Qed.

Lemma mapi_from_Forall {A B} (P : A -> Prop) (Q : B -> Prop) (f : nat -> A -> B) i l :
  (forall j a, P a -> Q (f j a)) -> Forall P l -> Forall Q (mapi_from i f l).
Proof.
  intros H HP. revert i; induction HP; intro; simpl; constructor; auto.
Qed.

Section Pipeline.

Variable idx : Index.
Variable cs : list (nat * Qc) -> nat -> Qc.
Variable cv : Z -> list (option Qc) -> nat -> option Qc.

Lemma interpolate_keeps limit col col' :
  interpolate cv limit col = Ok col' -> Forall2 keeps col col'.
Proof.
  unfold interpolate.
  destruct (limit <? 1)%Z; [discriminate |].
  destruct (Nat.eqb (count_valid col) 0 || Nat.eqb (count_valid col) (List.length col)).
  - intro H; injection H as <-. apply Forall2_refl, keeps_refl.
  - destruct (Nat.ltb (count_valid col) 4); [discriminate |].
    intro H; injection H as <-. unfold mapi.
    apply mapi_from_Forall2. intros j [v |]; [apply keeps_refl |].
    intros v H; discriminate.
Qed.

Lemma interpolate_column_step present limit get set l l' :
  (forall r v, keeps (get r) v -> secondary_step r (set r v)) ->
  interpolate_column cv present limit get set l = Ok l' ->
  Forall2 secondary_step l l'.
Proof.
  intros Hset. unfold interpolate_column.
  destruct present.
  - destruct (interpolate cv limit (map get l)) as [col |] eqn:E; simpl; [| discriminate].
    intro H; injection H as <-.
    apply interpolate_keeps in E.
    clear -E Hset. revert col E.
    induction l as [| r l IH]; intros col E; inversion E; subst; simpl; constructor.
    + apply Hset; assumption.
    + apply IH; assumption.
  - intro H; injection H as <-. apply Forall2_refl, secondary_step_refl.
Qed.

Lemma set_min_step r v : keeps (idx_min r) v -> secondary_step r (set_min r v).
Proof. intro H. repeat split; auto using keeps_refl. Qed.
Lemma set_max_step r v : keeps (idx_max r) v -> secondary_step r (set_max r v).
Proof. intro H. repeat split; auto using keeps_refl. Qed.
Lemma set_stdDev_step r v : keeps (idx_stdDev r) v -> secondary_step r (set_stdDev r v).
Proof. intro H. repeat split; auto using keeps_refl. Qed.

Lemma whittaker_smooth_length x w lam z :
  whittaker_smooth x w lam = Ok z -> List.length z = List.length x.
Proof.
  unfold whittaker_smooth.
  destruct (Nat.eqb (List.length w) (List.length x)) eqn:E; simpl; [| discriminate].
  apply Nat.eqb_eq in E.
  intro H; injection H as <-.
  rewrite spsolve_length, map2_length. lia.
Qed.

Lemma smooth_means_length col w z :
  smooth_means col w = Ok z -> List.length z = List.length col.
Proof.
  unfold smooth_means. destruct (series_mean col).
  - intro H. apply whittaker_smooth_length in H. rewrite length_map in H. exact H.
  - intro H; injection H as <-. apply repeat_length.
Qed.

Lemma blend_length col z : List.length (blend cs col z) = List.length z.
Proof.
  unfold blend. destruct (Nat.ltb 3 (count_valid col)); auto.
  apply mapi_from_length.
Qed.

Lemma blend_filled col z :
  Forall (fun v => v <> None) z -> Forall (fun v => v <> None) (blend cs col z).
Proof.
  unfold blend. destruct (Nat.ltb 3 (count_valid col)); auto.
  apply mapi_from_Forall. intros j [v |] H; simpl; congruence.
Qed.


Lemma fill_gaps_body_ok df mg out :
  fill_gaps_body idx cs cv df mg = Ok out ->
  let base := rows (merged_frame df) in
  let gaps := map (fun r => isnull (idx_mean r)) base in
  (existsb (fun g => g) gaps = false /\ out = merged_frame df)
  \/ (existsb (fun g => g) gaps = true
      /\ exists smoothed rows5,
          smooth_means (map idx_mean base) (weights_of gaps (gap_sizes_of gaps) mg)
            = Ok smoothed
          /\ Forall2 (filled_row (Forall (fun v => v <> None) smoothed)) base rows5
          /\ rows out
             = mask_filter (map (fun s => (Z.of_nat s <=? mg)%Z) (gap_sizes_of gaps))
                           rows5).
Proof.
  intro H. cbv zeta. set (base := rows (merged_frame df)). set (gaps := map (fun r => isnull (idx_mean r)) base). unfold fill_gaps_body in H.
  destruct (has_column (mean_col idx) (merged_frame df)); cbn [negb bind] in H; [| discriminate].
  fold base in H. fold gaps in H.
  destruct (existsb (fun g => g) gaps) eqn:Eg; cbn [negb] in H.
  2:{ left. split; auto. injection H as <-. reflexivity. }
  right. split; [reflexivity |].
  destruct (smooth_means (map idx_mean base) (weights_of gaps (gap_sizes_of gaps) mg))
    as [smoothed |] eqn:Es; cbn [negb bind] in H; [| discriminate].
  set (rows1 := map2 (fun r v => if isnull (idx_mean r) then set_mean r v else r)
                     base (blend cs (map idx_mean base) smoothed)) in *.
  destruct (interpolate_column cv (has_column (min_col idx) (merged_frame df)) mg
              idx_min set_min rows1) as [rows2 |] eqn:E2; cbn [negb bind] in H; [| discriminate].
  destruct (interpolate_column cv (has_column (max_col idx) (merged_frame df)) mg
              idx_max set_max rows2) as [rows3 |] eqn:E3; cbn [negb bind] in H; [| discriminate].
  destruct (interpolate_column cv (has_column (stdDev_col idx) (merged_frame df)) mg
              idx_stdDev set_stdDev rows3) as [rows4 |] eqn:E4; cbn [negb bind] in H; [| discriminate].
  injection H as <-. simpl.
  exists smoothed, (map2 set_is_interpolated rows4 gaps).
  split; [reflexivity |]. split; [| reflexivity].
  apply interpolate_column_step in E2; [| apply set_min_step].
  apply interpolate_column_step in E3; [| apply set_max_step].
  apply interpolate_column_step in E4; [| apply set_stdDev_step].
  assert (E14 : Forall2 secondary_step rows1 rows4).
  { eapply Forall2_trans; [apply secondary_step_trans | exact E2 |].
    eapply Forall2_trans; [apply secondary_step_trans | exact E3 | exact E4]. }
  assert (Hlen : List.length (blend cs (map idx_mean base) smoothed) = List.length base).
  { rewrite blend_length. apply smooth_means_length in Es.
    rewrite length_map in Es. exact Es. }
  assert (E01 : Forall2 (fun b r =>
             date r = date b /\ keeps (idx_mean b) (idx_mean r)
             /\ idx_stdDev r = idx_stdDev b /\ idx_min r = idx_min b
             /\ idx_max r = idx_max b /\ cloud_cover r = cloud_cover b
             /\ (Forall (fun v => v <> None) smoothed -> idx_mean r <> None))
           base rows1).
  { subst rows1. apply Forall2_map2; [symmetry; exact Hlen |].
    intros b v Hb Hv. destruct (idx_mean b) as [m |] eqn:Em; simpl.
    - rewrite Em. repeat split; auto using keeps_refl. congruence.
    - repeat split; auto.
      + intros m' Hm'; discriminate.
      + intro Hall. apply (blend_filled (map idx_mean base)) in Hall.
        rewrite Forall_forall in Hall. apply Hall; exact Hv. }
  subst gaps. clearbody rows1. clearbody base.
  clear -E01 E14.
  revert rows1 rows4 E01 E14.
  induction base as [| b base IH]; intros rows1 rows4 E01 E14.
  - inversion E01; subst. inversion E14; subst. constructor.
  - inversion E01 as [| ? r1 ? rs1 H1 HR1]; subst.
    inversion E14 as [| ? r4 ? rs4 H4 HR4]; subst.
    simpl. constructor; [| eapply IH; eauto].
    destruct H1 as (D1 & M1 & S1 & N1 & X1 & C1 & F1).
    destruct H4 as (D4 & M4 & S4 & N4 & X4 & C4 & I4).
    unfold filled_row, row_kept, set_is_interpolated; simpl.
    repeat split; try congruence.
    + rewrite M4; assumption.
    + rewrite <- S1; assumption.
    + rewrite <- N1; assumption.
    + rewrite <- X1; assumption.
    + intro Hall. rewrite M4. auto.
Qed.

End Pipeline.

Open Scope Qc_scope.

(* ================================================================== *)
(** * Exact arithmetic *)
(* ================================================================== *)

(** ** Order facts on [Qc] *)

Lemma Qc_this_mult a b : (this (a * b) == this a * this b)%Q.
Proof. exact (Qred_correct (this a * this b)). Qed.
Lemma Qc_this_plus a b : (this (a + b) == this a + this b)%Q.
Proof. exact (Qred_correct (this a + this b)). Qed.

Lemma Qc_sq_nonneg a : 0 <= a * a.
Proof.
  unfold Qcle. rewrite Qc_this_mult. simpl. nra.
Qed.

Lemma Qc_add_nonneg a b : 0 <= a -> 0 <= b -> 0 <= a + b.
Proof.
  unfold Qcle. rewrite Qc_this_plus. simpl. intros; lra.
Qed.

Lemma Qc_mul_nonneg a b : 0 <= a -> 0 <= b -> 0 <= a * b.
Proof.
  unfold Qcle. rewrite Qc_this_mult. simpl. intros; nra.
Qed.

Lemma Qc_mul_pos a b : 0 < a -> 0 < b -> 0 < a * b.
Proof.
  unfold Qclt. rewrite Qc_this_mult. simpl. intros; nra.
Qed.

Lemma Qc_add_nonneg_pos a b : 0 <= a -> 0 < b -> 0 < a + b.
Proof.
  unfold Qcle, Qclt. rewrite Qc_this_plus. simpl. intros; lra.
Qed.

Lemma Qc_add_zero a b : 0 <= a -> 0 <= b -> a + b = 0 -> a = 0 /\ b = 0.
Proof.
  intros Ha Hb E.
  assert (Hq : (this a + this b == 0)%Q).
  { rewrite <- Qc_this_plus. rewrite E. reflexivity. }
  unfold Qcle in *. simpl in *.
  split; apply Qc_is_canon; simpl; lra.
Qed.

Lemma Qc_sq_zero a : a * a = 0 -> a = 0.
Proof. intro H. destruct (Qcmult_integral _ _ H); assumption. Qed.

Lemma Qc_pos_neq a : 0 < a -> a <> 0.
Proof. intros H E. subst. apply (Qclt_not_eq _ _ H). reflexivity. Qed.

Lemma Qc_nonneg_neq_pos a : 0 <= a -> a <> 0 -> 0 < a.
Proof.
  intros H Hn. destruct (Qcle_lt_or_eq _ _ H) as [Hlt | E]; auto.
  exfalso. apply Hn. symmetry. exact E.
Qed.

(** ** Dot products *)

Lemma dot_nil_r u : dot u [] = 0.
Proof. destruct u; reflexivity. Qed.

Lemma dot_comm u v : dot u v = dot v u.
Proof.
  revert v; induction u as [| a u IH]; intros [| b v]; simpl; auto.
  rewrite IH. ring.
Qed.

Lemma dot_zeros_l n v : dot (zeros n) v = 0.
Proof.
  revert v; induction n as [| n IH]; intros [| b v]; simpl; auto.
  unfold zeros in IH. rewrite IH. ring.
Qed.

Lemma dot_zeros_r n v : dot v (zeros n) = 0.
Proof. rewrite dot_comm. apply dot_zeros_l. Qed.

Lemma dot_vadd_r u x y :
  List.length x = List.length y ->
  dot u (vadd x y) = dot u x + dot u y.
Proof.
  revert x y; induction u as [| a u IH]; intros [| b x] [| c y] H; simpl in H;
    try discriminate; try (simpl; ring).
  change (vadd (b :: x) (c :: y)) with ((b + c) :: vadd x y).
  cbn [dot]. rewrite IH by lia. ring.
Qed.

Lemma dot_vscale_r c u x : dot u (vscale c x) = c * dot u x.
Proof.
  revert x; induction u as [| a u IH]; intros [| b x]; try (simpl; ring).
  change (vscale c (b :: x)) with ((c * b) :: vscale c x).
  cbn [dot]. rewrite IH. ring.
Qed.

Lemma dot_self_nonneg y : 0 <= dot y y.
Proof.
  induction y as [| a y IH]; simpl; [apply Qcle_refl |].
  apply Qc_add_nonneg; [apply Qc_sq_nonneg | exact IH].
Qed.

Lemma dot_self_zero y : dot y y = 0 -> y = zeros (List.length y).
Proof.
  induction y as [| a y IH]; simpl; intro H; [reflexivity |].
  destruct (Qc_add_zero _ _ (Qc_sq_nonneg a) (dot_self_nonneg y) H) as [Ha Hy].
  apply Qc_sq_zero in Ha. subst a.
  change (zeros (S (List.length y))) with (0 :: zeros (List.length y)).
  f_equal. apply IH; exact Hy.
Qed.

Lemma dot_weighted_nonneg w v :
  Forall (fun wi => 0 <= wi) w -> 0 <= dot v (map2 Qcmult w v).
Proof.
  intro H. revert v; induction H as [| wi w Hw _ IH]; intros [| a v];
    try (simpl; apply Qcle_refl).
  cbn [map2 dot].
  apply Qc_add_nonneg; [| apply IH].
  replace (a * (wi * a)) with (wi * (a * a)) by ring.
  apply Qc_mul_nonneg; [exact Hw | apply Qc_sq_nonneg].
Qed.

(* ================================================================== *)
(** * The linear solve *)
(* ================================================================== *)




Lemma find_pivot_spec eqs p others :
  find_pivot eqs = Some (p, others) ->
  hd 0 (fst p) <> 0 /\ Permutation eqs (p :: others).
Proof.
  revert p others; induction eqs as [| e rest IH]; intros p others; simpl;
    [discriminate |].
  destruct (Qc_eq_dec (hd 0 (fst e)) 0) as [E | N].
  - destruct (find_pivot rest) as [[p' others'] |]; [| discriminate].
    intro H; injection H as <- <-.
    destruct (IH p' others' eq_refl) as [Hp Hperm].
    split; [exact Hp |].
    rewrite Hperm. apply perm_swap.
  - intro H; injection H as <- <-. split; [exact N | reflexivity].
Qed.

Lemma dot_map2_sub k t r z :
  List.length t = List.length r ->
  dot (map2 (fun x y => x - k * y) t r) z = dot t z - k * dot r z.
Proof.
  revert r z; induction t as [| a t IH]; intros [| b r] [| c z] H; simpl in H;
    try discriminate; try (simpl; ring).
  cbn [map2 dot]. rewrite IH by lia. ring.
Qed.

Lemma eliminate_length n p e :
  List.length (fst p) = S n -> List.length (fst e) = S n ->
  List.length (fst (eliminate p e)) = n.
Proof.
  intros Hp He. unfold eliminate. cbn [fst].
  rewrite map2_length.
  destruct p as [[| a r] bp]; [discriminate |].
  destruct e as [[| c t] be]; [discriminate |].
  simpl in *. lia.
Qed.

Lemma well_formed_step n eqs p others :
  well_formed (S n) eqs -> find_pivot eqs = Some (p, others) ->
  List.length (fst p) = S n /\ well_formed (S n) (p :: others)
  /\ well_formed n (map (eliminate p) others).
Proof.
  intros [Hlen Hrows] Hf.
  destruct (find_pivot_spec _ _ _ Hf) as [_ Hperm].
  assert (Hrows' : Forall (fun e => List.length (fst e) = S n) (p :: others)).
  { rewrite Forall_forall in *. intros e He. apply Hrows.
    eapply Permutation_in; [symmetry; exact Hperm | exact He]. }
  assert (Hlen' : List.length (p :: others) = S n).
  { rewrite <- (Permutation_length Hperm). exact Hlen. }
  inversion Hrows' as [| ? ? Hp Ho]; subst.
  split; [exact Hp |]. split; [split; assumption |].
  split.
  - rewrite length_map. simpl in Hlen'. lia.
  - rewrite Forall_map. eapply Forall_impl; [| exact Ho].
    intros e He. apply eliminate_length; assumption.
Qed.

Lemma gauss_correct n : forall eqs z,
  well_formed n eqs -> gauss n eqs = Some z -> Forall (satisfies z) eqs.
Proof.
  induction n as [| n IH]; intros eqs z Hwf H.
  - destruct Hwf as [Hlen _]. destruct eqs; [constructor | discriminate].
  - simpl in H.
    destruct (find_pivot eqs) as [[p others] |] eqn:Hf; [| discriminate].
    destruct (gauss n (map (eliminate p) others)) as [z' |] eqn:Hg; [| discriminate].
    injection H as <-.
    destruct (well_formed_step _ _ _ _ Hwf Hf) as (Hp & [_ Hrows] & Hwf').
    destruct (find_pivot_spec _ _ _ Hf) as [Ha Hperm].
    specialize (IH _ _ Hwf' Hg).
    assert (Hall : Forall
              (satisfies (((snd p - dot (tl (fst p)) z') / hd 0 (fst p)) :: z'))
              (p :: others)).
    { destruct p as [[| a r] bp]; [discriminate |]. cbn [fst snd hd tl] in *.
      constructor.
      - unfold satisfies. cbn [fst snd dot]. field. exact Ha.
      - rewrite Forall_map in IH.
        inversion Hrows as [| ? ? _ Ho]; subst.
        rewrite Forall_forall in *. intros e He.
        specialize (IH e He). specialize (Ho e He).
        destruct e as [[| c t] be]; [discriminate |].
        unfold satisfies, eliminate in *. cbn [fst snd hd tl dot] in *.
        rewrite dot_map2_sub in IH by (simpl in *; lia).
        assert (Ht : dot t z' = be - c / a * bp + c / a * dot r z').
        { rewrite <- IH. ring. }
        rewrite Ht. field. exact Ha. }
    rewrite Forall_forall in *. intros e He. apply Hall.
    eapply Permutation_in; [exact Hperm | exact He].
Qed.

(** ** Positive definite systems are solved *)

Lemma posdef_pivot n a r rows :
  posdef (S n) ((a :: r) :: rows) -> 0 < a.
Proof.
  intro H. specialize (H (1 :: zeros n)).
  assert (Hlen : List.length (1 :: zeros n) = S n)
    by (simpl; unfold zeros; rewrite repeat_length; reflexivity).
  assert (Hnz : 1 :: zeros n <> zeros (S n)).
  { unfold zeros. simpl. intro E. injection E as E. discriminate. }
  specialize (H Hlen Hnz). cbn [mat_vec map dot] in H.
  rewrite !dot_zeros_l, dot_zeros_r in H.
  replace (1 * (a * 1 + 0) + 0) with a in H by ring. exact H.
Qed.

Lemma mat_vec_cons_rows rows t0 u :
  Forall (fun row => row <> []) rows ->
  mat_vec rows (t0 :: u)
  = map (fun row => hd 0 row * t0 + dot (tl row) u) rows.
Proof.
  intro H. unfold mat_vec. apply map_ext_in. intros row Hr.
  rewrite Forall_forall in H. specialize (H row Hr).
  destruct row; [congruence | reflexivity].
Qed.

Lemma posdef_schur n (p : equation) (others : list equation) :
  List.length (fst p) = S n ->
  Forall (fun e => List.length (fst e) = S n) others ->
  posdef (S n) (map fst (p :: others)) ->
  posdef n (map fst (map (eliminate p) others)).
Proof.
  intros Hp Ho Hpd u Hu Hnz.
  destruct p as [[| a r] bp]; [discriminate |]. cbn [fst] in *.
  pose proof (posdef_pivot _ _ _ _ Hpd) as Ha.
  pose proof (Qc_pos_neq _ Ha) as Ha'.
  set (t0 := - (dot r u) / a).
  specialize (Hpd (t0 :: u)).
  assert (Hlen : List.length (t0 :: u) = S n) by (simpl; lia).
  assert (Hnz' : t0 :: u <> zeros (S n)).
  { unfold zeros. simpl. intro E. injection E as _ E. apply Hnz. exact E. }
  specialize (Hpd Hlen Hnz').
  cbn [map fst mat_vec dot] in Hpd.
  fold (mat_vec (map fst others) (t0 :: u)) in Hpd.
  assert (E0 : a * t0 + dot r u = 0) by (subst t0; field; exact Ha').
  rewrite E0 in Hpd.
  replace (t0 * 0 + dot u (mat_vec (map fst others) (t0 :: u)))
    with (dot u (mat_vec (map fst others) (t0 :: u))) in Hpd by ring.
  assert (E : mat_vec (map fst (map (eliminate (a :: r, bp)) others)) u
              = mat_vec (map fst others) (t0 :: u)).
  { rewrite mat_vec_cons_rows.
    2:{ rewrite Forall_map. eapply Forall_impl; [| exact Ho].
        intros [[| c t] be] He Hn; simpl in *; [discriminate He | discriminate Hn]. }
    unfold mat_vec. rewrite !map_map. apply map_ext_in. intros e He.
    rewrite Forall_forall in Ho. specialize (Ho e He).
    destruct e as [[| c t] be]; [discriminate |].
    unfold eliminate. cbn [fst snd hd tl].
    rewrite dot_map2_sub by (simpl in *; lia).
    subst t0. field. exact Ha'. }
  exact (eq_ind_r (fun m => 0 < dot u m) Hpd E).
Qed.

Lemma gauss_posdef n : forall eqs,
  well_formed n eqs -> posdef n (map fst eqs) ->
  exists z, gauss n eqs = Some z.
Proof.
  induction n as [| n IH]; intros eqs Hwf Hpd.
  - exists []. reflexivity.
  - destruct Hwf as [Hlen Hrows].
    destruct eqs as [| e rest]; [discriminate |].
    inversion Hrows as [| ? ? He Hr]; subst.
    destruct e as [[| a r] be]; [discriminate |].
    pose proof (posdef_pivot _ _ _ _ Hpd) as Ha.
    destruct (IH (map (eliminate ((a :: r), be)) rest)) as (z & Hz).
    + split.
      * rewrite length_map. simpl in Hlen. lia.
      * rewrite Forall_map. eapply Forall_impl; [| exact Hr].
        intros e He'. apply eliminate_length; assumption.
    + apply posdef_schur; assumption.
    + destruct (gauss (S n) ((a :: r, be) :: rest)) as [z' |] eqn:G;
        [exists z'; reflexivity |].
      exfalso. cbn [gauss find_pivot fst hd] in G.
      destruct (Qc_eq_dec a 0) as [E | N].
      * apply (Qc_pos_neq _ Ha). exact E.
      * destruct (gauss n (map (eliminate (a :: r, be)) rest)) as [z'' |] eqn:G';
          [discriminate G |].
        discriminate Hz.
Qed.

(* ================================================================== *)
(** * Transposition, products and diagonals *)
(* ================================================================== *)

(** ** Transposition and products *)

Lemma dot_map_seq_add v (F G : nat -> Qc) s c :
  dot v (map (fun j => F j + G j) (seq s c))
  = dot v (map F (seq s c)) + dot v (map G (seq s c)).
Proof.
  revert v s; induction c as [| c IH]; intros [| a v] s; simpl; try ring.
  rewrite IH. ring.
Qed.

Lemma dot_map_seq_scale v (F : nat -> Qc) b s c :
  dot v (map (fun j => F j * b) (seq s c)) = b * dot v (map F (seq s c)).
Proof.
  revert v s; induction c as [| c IH]; intros [| a v] s; simpl; try ring.
  rewrite IH. ring.
Qed.

Lemma map_nth_seq_from (r : vec) s :
  map (fun j => nth (j - s) r 0) (seq s (List.length r)) = r.
Proof.
  revert s; induction r as [| a r IH]; intro s; simpl; auto.
  rewrite Nat.sub_diag. f_equal.
  rewrite <- (IH (S s)) at 2. apply map_ext_in. intros j Hj.
  apply in_seq in Hj. destruct (j - s)%nat as [| k] eqn:E; [lia |].
  f_equal. lia.
Qed.

Lemma map_nth_seq (r : vec) : map (fun j => nth j r 0) (seq 0 (List.length r)) = r.
Proof.
  rewrite <- (map_nth_seq_from r 0) at 2. apply map_ext. intro j.
  f_equal. lia.
Qed.

Lemma mat_vec_nil_r (A : matrix) : mat_vec A [] = zeros (List.length A).
Proof.
  induction A as [| r A IH]; [reflexivity |].
  unfold mat_vec in *. cbn [map List.length]. rewrite IH, dot_nil_r. reflexivity.
Qed.

Lemma mat_vec_nil_rows (l : list nat) y :
  mat_vec (map (fun _ => []) l) y = zeros (List.length l).
Proof.
  induction l as [| j l IH]; [reflexivity |].
  unfold mat_vec in *. cbn [map List.length]. rewrite IH. reflexivity.
Qed.

Lemma dot_transpose c (M : matrix) : forall y v,
  Forall (fun r => List.length r = c) M ->
  dot v (mat_vec (transpose c M) y) = dot (mat_vec M v) y.
Proof.
  induction M as [| r M IH]; intros y v HM.
  - unfold transpose. cbn [map]. rewrite mat_vec_nil_rows, dot_zeros_r. reflexivity.
  - inversion HM as [| ? ? Hr HM']; subst.
    destruct y as [| b y].
    + rewrite mat_vec_nil_r, dot_zeros_r, dot_nil_r. reflexivity.
    + pose proof (IH y v HM') as IH'. clear IH.
      unfold mat_vec, transpose in IH' |- *. rewrite map_map in IH' |- *.
      cbn [map dot].
      rewrite (dot_map_seq_add v (fun j => nth j r 0 * b)
                 (fun j => dot (map (fun r0 => nth j r0 0) M) y)).
      rewrite dot_map_seq_scale, map_nth_seq.
      rewrite IH'. rewrite (dot_comm r v). ring.
Qed.

Lemma mat_vec_mat_mul c (A B : matrix) v :
  Forall (fun r => List.length r = c) B ->
  mat_vec (mat_mul c A B) v = mat_vec A (mat_vec B v).
Proof.
  intro HB. unfold mat_mul. unfold mat_vec at 1 3. rewrite map_map.
  apply map_ext. intro r.
  rewrite (dot_comm _ v), dot_transpose by exact HB. apply dot_comm.
Qed.

Lemma dot_vadd_l r1 r2 v :
  List.length r1 = List.length r2 -> dot (vadd r1 r2) v = dot r1 v + dot r2 v.
Proof.
  intro H. rewrite dot_comm, dot_vadd_r by exact H.
  rewrite (dot_comm v r1), (dot_comm v r2). reflexivity.
Qed.

Lemma dot_vscale_l c r v : dot (vscale c r) v = c * dot r v.
Proof. rewrite dot_comm, dot_vscale_r, (dot_comm v r). reflexivity. Qed.

Lemma mat_vec_mat_add (W S : matrix) v :
  Forall2 (fun a b => List.length a = List.length b) W S ->
  mat_vec (mat_add W S) v = vadd (mat_vec W v) (mat_vec S v).
Proof.
  induction 1 as [| a b W S Hab _ IH]; [reflexivity |].
  unfold mat_add, vadd, mat_vec in *. cbn [map2 map].
  f_equal; [| exact IH]. apply dot_vadd_l; exact Hab.
Qed.

Lemma mat_vec_mat_scale c (P : matrix) v :
  mat_vec (mat_scale c P) v = vscale c (mat_vec P v).
Proof.
  unfold mat_scale, mat_vec, vscale. rewrite !map_map.
  apply map_ext. intro r. apply dot_vscale_l.
Qed.

(** ** The diagonal of the weights *)

Lemma dot_indicator i c v : forall s n,
  dot (map (fun j => if Nat.eqb i j then c else 0) (seq s n)) v
  = if (Nat.leb s i && Nat.ltb i (s + n))%bool then c * nth (i - s) v 0 else 0.
Proof.
  intros s n; revert s v; induction n as [| n IH]; intros s v.
  - simpl. destruct (Nat.leb s i && Nat.ltb i (s + 0))%bool eqn:E; auto.
    apply andb_true_iff in E. destruct E as [E1 E2].
    apply Nat.leb_le in E1. apply Nat.ltb_lt in E2. lia.
  - destruct v as [| a v].
    + rewrite dot_nil_r. destruct (i - s)%nat; simpl;
        destruct (Nat.leb s i && Nat.ltb i (s + S n))%bool; ring.
    + cbn [seq map dot]. rewrite IH.
      destruct (Nat.eqb i s) eqn:Eis.
      * apply Nat.eqb_eq in Eis. subst s.
        replace (Nat.leb (S i) i) with false by (symmetry; apply Nat.leb_gt; lia).
        replace (Nat.leb i i) with true by (symmetry; apply Nat.leb_le; lia).
        replace (Nat.ltb i (i + S n)) with true by (symmetry; apply Nat.ltb_lt; lia).
        rewrite Nat.sub_diag. simpl. ring.
      * apply Nat.eqb_neq in Eis.
        destruct (Nat.leb (S s) i && Nat.ltb i (S s + n))%bool eqn:E1.
        -- apply andb_true_iff in E1. destruct E1 as [E1 E2].
           apply Nat.leb_le in E1. apply Nat.ltb_lt in E2.
           replace (Nat.leb s i) with true by (symmetry; apply Nat.leb_le; lia).
           replace (Nat.ltb i (s + S n)) with true by (symmetry; apply Nat.ltb_lt; lia).
           simpl. replace (i - s)%nat with (S (i - S s)) by lia. simpl. ring.
        -- destruct (Nat.leb s i && Nat.ltb i (s + S n))%bool eqn:E2; [| ring].
           exfalso. apply andb_true_iff in E2. destruct E2 as [E2 E3].
           apply Nat.leb_le in E2. apply Nat.ltb_lt in E3.
           apply andb_false_iff in E1. destruct E1 as [E1 | E1].
           ++ apply Nat.leb_gt in E1. lia.
           ++ apply Nat.ltb_ge in E1. lia.
Qed.

Lemma mat_vec_diags_main (w v : vec) :
  List.length v = List.length w ->
  mat_vec (diags_main w) v = map2 Qcmult w v.
Proof.
  intro Hlen. unfold diags_main, mat_vec.
  set (n := List.length w).
  assert (G : forall s (w' v' : vec),
             List.length v' = List.length w' ->
             (s + List.length w' = n)%nat ->
             (forall k, (k < List.length w')%nat -> nth (s + k) v 0 = nth k v' 0) ->
             map (fun r => dot r v)
               (map2 (fun i wi => map (fun j => if Nat.eqb i j then wi else 0) (seq 0 n))
                     (seq s (List.length w')) w')
             = map2 Qcmult w' v').
  { intros s w'; revert s; induction w' as [| a w' IH]; intros s [| b v'] Hl Hs Hn;
      simpl in Hl; try discriminate; [reflexivity |].
    cbn [List.length seq map2 map]. f_equal.
    - rewrite dot_indicator. simpl in Hs.
      replace (Nat.leb 0 s) with true by reflexivity.
      replace (Nat.ltb s (0 + n)) with true by (symmetry; apply Nat.ltb_lt; lia).
      simpl. rewrite Nat.sub_0_r.
      specialize (Hn 0%nat ltac:(simpl; lia)). rewrite Nat.add_0_r in Hn.
      rewrite Hn. reflexivity.
    - apply IH; [lia | simpl in Hs; lia |].
      intros k Hk. specialize (Hn (S k) ltac:(simpl; lia)).
      replace (S s + k)%nat with (s + S k)%nat by lia. exact Hn. }
  apply (G 0%nat w v Hlen); [reflexivity | intros; reflexivity].
Qed.

(* ================================================================== *)
(** * The matrix of the smoother *)
(* ================================================================== *)

(** ** The second-difference operator *)


Lemma D_entry_shift i j : D_entry (S i) (S j) = D_entry i j.
Proof.
  unfold D_entry, band_entry.
  replace (Z.of_nat (S j) - Z.of_nat (S i))%Z with (Z.of_nat j - Z.of_nat i)%Z by lia.
  reflexivity.
Qed.

Lemma D_entry_first_row j : D_entry 0 (S j) = 0.
Proof.
  unfold D_entry, band_entry. cbn [map2 fold_right].
  replace (Z.of_nat (S j) - Z.of_nat 0 =? 0)%Z with false by (symmetry; apply Z.eqb_neq; lia).
  replace (Z.of_nat (S j) - Z.of_nat 0 =? -1)%Z with false by (symmetry; apply Z.eqb_neq; lia).
  replace (Z.of_nat (S j) - Z.of_nat 0 =? -2)%Z with false by (symmetry; apply Z.eqb_neq; lia).
  ring.
Qed.

Lemma D_entry_corner : D_entry 0 0 = 1.
Proof. apply Qc_is_canon. reflexivity. Qed.

Lemma second_difference_rows n :
  second_difference n
  = map (fun i => map (D_entry i) (seq 0 n)) (seq 0 (n + 2)).
Proof. reflexivity. Qed.

Lemma second_difference_wf n :
  Forall (fun r => List.length r = n) (second_difference n).
Proof.
  rewrite second_difference_rows, Forall_map, Forall_forall.
  intros i _. rewrite length_map, length_seq. reflexivity.
Qed.

Lemma second_difference_length n : List.length (second_difference n) = (n + 2)%nat.
Proof. rewrite second_difference_rows, length_map, length_seq. reflexivity. Qed.

Lemma map_D_shift i s n :
  map (D_entry (S i)) (seq (S s) n) = map (D_entry i) (seq s n).
Proof.
  rewrite <- seq_shift, map_map. apply map_ext. intro j. apply D_entry_shift.
Qed.

Lemma cons_eq_inv {A} (a b : A) (l m : list A) :
  a :: l = b :: m -> a = b /\ l = m.
Proof. intro H. injection H as H1 H2. split; assumption. Qed.

(** Only the zero vector has zero second differences. *)
Lemma second_difference_kernel : forall v,
  mat_vec (second_difference (List.length v)) v = zeros (List.length v + 2) ->
  v = zeros (List.length v).
Proof.
  induction v as [| a v IH]; intro H; [reflexivity |].
  rewrite second_difference_rows in H. unfold mat_vec in H. rewrite map_map in H.
  cbn [List.length] in H.
  change (S (List.length v) + 2)%nat with (S (List.length v + 2)) in H.
  cbn [seq map dot] in H.
  change (zeros (S (List.length v + 2))) with (0 :: zeros (List.length v + 2)) in H.
  apply cons_eq_inv in H. destruct H as [H0 Hrest].
  assert (Ez : map (D_entry 0) (seq 1 (List.length v)) = zeros (List.length v)).
  { rewrite <- seq_shift, map_map.
    rewrite (map_ext _ (fun _ => 0) (fun j => D_entry_first_row j)).
    unfold zeros. rewrite map_const, length_seq. reflexivity. }
  rewrite Ez, dot_zeros_l, D_entry_corner in H0.
  assert (Ha : a = 0) by (rewrite <- H0; ring).
  subst a.
  change (0 :: v = 0 :: zeros (List.length v)).
  f_equal. apply IH.
  rewrite second_difference_rows. unfold mat_vec. rewrite map_map.
  rewrite <- Hrest. rewrite <- (seq_shift (List.length v + 2) 0), map_map.
  apply map_ext. intro i. rewrite map_D_shift. ring.
Qed.

Lemma mat_vec_length (A : matrix) v : List.length (mat_vec A v) = List.length A.
Proof. apply length_map. Qed.

Lemma penalty_quadratic_form n v :
  List.length v = n ->
  dot v (mat_vec (penalty_matrix n) v)
  = dot (mat_vec (second_difference n) v) (mat_vec (second_difference n) v).
Proof.
  intro Hv. unfold penalty_matrix.
  rewrite mat_vec_mat_mul by apply second_difference_wf.
  apply dot_transpose. apply second_difference_wf.
Qed.

Lemma penalty_positive n v :
  List.length v = n -> v <> zeros n -> 0 < dot v (mat_vec (penalty_matrix n) v).
Proof.
  intros Hv Hnz. rewrite penalty_quadratic_form by exact Hv.
  apply Qc_nonneg_neq_pos; [apply dot_self_nonneg |].
  intro E. apply dot_self_zero in E.
  rewrite mat_vec_length, second_difference_length in E.
  apply Hnz. subst n. apply second_difference_kernel. exact E.
Qed.

(** ** The matrix of the smoother *)

Lemma penalty_matrix_dims n :
  List.length (penalty_matrix n) = n
  /\ Forall (fun r => List.length r = n) (penalty_matrix n).
Proof.
  unfold penalty_matrix, mat_mul. split.
  - rewrite length_map. unfold transpose. rewrite length_map, length_seq. reflexivity.
  - rewrite Forall_map, Forall_forall. intros r _.
    rewrite mat_vec_length. unfold transpose. rewrite length_map, length_seq.
    reflexivity.
Qed.

Lemma Forall_map2 {A B C} (P : C -> Prop) (f : A -> B -> C) l m :
  (forall a b, P (f a b)) -> Forall P (map2 f l m).
Proof.
  intro H. revert m; induction l as [| a l IH]; intros [| b m]; simpl; constructor; auto.
Qed.

Lemma diags_main_dims w :
  List.length (diags_main w) = List.length w
  /\ Forall (fun r => List.length r = List.length w) (diags_main w).
Proof.
  unfold diags_main. split.
  - rewrite map2_length, length_seq. lia.
  - apply Forall_map2. intros i wi.
    rewrite length_map, length_seq. reflexivity.
Qed.

Lemma Forall2_same_length (W S : matrix) n :
  List.length W = List.length S ->
  Forall (fun r => List.length r = n) W ->
  Forall (fun r => List.length r = n) S ->
  Forall2 (fun a b => List.length a = List.length b) W S.
Proof.
  revert S; induction W as [| a W IH]; intros [| b S] Hl HW HS; simpl in Hl;
    try discriminate; constructor.
  - inversion HW; inversion HS; subst. congruence.
  - apply IH; [lia | inversion HW; assumption | inversion HS; assumption].
Qed.

Lemma whittaker_matrix_dims n w lam :
  List.length w = n ->
  List.length (whittaker_matrix n w lam) = n
  /\ Forall (fun r => List.length r = n) (whittaker_matrix n w lam).
Proof.
  intro Hw. unfold whittaker_matrix. fold (penalty_matrix n).
  destruct (penalty_matrix_dims n) as [Pl Pr].
  destruct (diags_main_dims w) as [Wl Wr]. rewrite Hw in Wl, Wr.
  unfold mat_add, mat_scale. split.
  - rewrite map2_length, length_map. lia.
  - assert (Pr' : Forall (fun r => List.length r = n) (map (vscale lam) (penalty_matrix n))).
    { rewrite Forall_map. eapply Forall_impl; [| exact Pr].
      intros r Hr. unfold vscale. rewrite length_map. exact Hr. }
    revert Wr Pr'. generalize (map (vscale lam) (penalty_matrix n)) as S.
    generalize (diags_main w) as W. clear.
    induction W as [| a W IH]; intros [| b S] HW HS; simpl; constructor.
    + inversion HW; inversion HS; subst. unfold vadd. rewrite map2_length. lia.
    + apply IH; [inversion HW | inversion HS]; assumption.
Qed.

Lemma whittaker_matrix_action n w lam v :
  List.length w = n -> List.length v = n ->
  mat_vec (whittaker_matrix n w lam) v
  = vadd (map2 Qcmult w v) (vscale lam (mat_vec (penalty_matrix n) v)).
Proof.
  intros Hw Hv. unfold whittaker_matrix. fold (penalty_matrix n).
  destruct (penalty_matrix_dims n) as [Pl Pr].
  destruct (diags_main_dims w) as [Wl Wr]. rewrite Hw in Wl, Wr.
  rewrite mat_vec_mat_add.
  - rewrite mat_vec_mat_scale, mat_vec_diags_main by congruence. reflexivity.
  - apply Forall2_same_length with (n := n); auto.
    + unfold mat_scale. rewrite length_map. congruence.
    + unfold mat_scale. rewrite Forall_map. eapply Forall_impl; [| exact Pr].
      intros r Hr. unfold vscale. rewrite length_map. exact Hr.
Qed.

Lemma whittaker_posdef n w lam :
  List.length w = n -> Forall (fun wi => 0 <= wi) w -> 0 < lam ->
  posdef n (whittaker_matrix n w lam).
Proof.
  intros Hw Hnn Hlam v Hv Hnz.
  rewrite whittaker_matrix_action by assumption.
  rewrite dot_vadd_r.
  - rewrite dot_vscale_r.
    apply Qc_add_nonneg_pos; [apply dot_weighted_nonneg; exact Hnn |].
    apply Qc_mul_pos; [exact Hlam | apply penalty_positive; assumption].
  - rewrite map2_length. unfold vscale. rewrite length_map, mat_vec_length.
    destruct (penalty_matrix_dims n) as [Pl _]. lia.
Qed.

(* ================================================================== *)
(** * The smoother *)
(* ================================================================== *)

Lemma satisfies_combine (A : matrix) (b z : vec) :
  List.length A = List.length b ->
  Forall (satisfies z) (combine A b) -> mat_vec A z = b.
Proof.
  revert b; induction A as [| r A IH]; intros [| c b] Hl H; simpl in Hl;
    try discriminate; [reflexivity |].
  inversion H as [| ? ? Hr Hrest]; subst.
  unfold mat_vec in *. cbn [map]. f_equal; [exact Hr | apply IH; [lia | exact Hrest]].
Qed.

Lemma map_fst_combine {A B} (l : list A) (m : list B) :
  List.length l = List.length m -> map fst (combine l m) = l.
Proof.
  revert m; induction l as [| a l IH]; intros [| b m] H; simpl in *;
    try discriminate; auto.
  f_equal. apply IH. lia.
Qed.

Lemma default_lambda_pos : 0 < default_lambda.
Proof. reflexivity. Qed.

(** The solve of the smoother succeeds, and its result solves the system. *)
Lemma whittaker_smooth_solves (x w : vec) (lam : Qc) :
  List.length x = List.length w -> Forall (fun wi => 0 <= wi) w -> 0 < lam ->
  exists z,
    whittaker_smooth x w lam = Ok (map Some z)
    /\ List.length z = List.length x
    /\ mat_vec (whittaker_matrix (List.length x) w lam) z = map2 Qcmult w x.
Proof.
  intros Hlen Hnn Hlam.
  set (n := List.length x) in *.
  set (A := whittaker_matrix n w lam).
  set (b := map2 Qcmult w x).
  destruct (whittaker_matrix_dims n w lam (eq_sym Hlen)) as [Al Ar]. fold A in Al, Ar.
  assert (Hb : List.length b = n) by (subst b; rewrite map2_length; lia).
  assert (Hwf : well_formed n (combine A b)).
  { split.
    - rewrite length_combine. lia.
    - rewrite Forall_forall. intros [r c] Hin. apply in_combine_l in Hin.
      rewrite Forall_forall in Ar. apply Ar. exact Hin. }
  assert (Hpd : posdef n (map fst (combine A b))).
  { rewrite map_fst_combine by lia. apply whittaker_posdef; auto. }
  destruct (gauss_posdef n _ Hwf Hpd) as (z & Hz).
  exists z. split; [| split].
  - unfold whittaker_smooth. fold n.
    replace (Nat.eqb (List.length w) n) with true by (symmetry; apply Nat.eqb_eq; lia).
    cbn [negb]. f_equal. unfold spsolve. fold A b. rewrite Hb, Hz. reflexivity.
  - eapply gauss_length; eauto.
  - apply satisfies_combine; [lia |]. eapply gauss_correct; eauto.
Qed.

Lemma binary_weights_nonneg w : binary_weights w -> Forall (fun wi => 0 <= wi) w.
Proof.
  unfold binary_weights. apply Forall_impl. intros wi [-> | ->]; discriminate.
Qed.

Lemma nth_vadd i a b :
  List.length a = List.length b -> nth i (vadd a b) 0 = nth i a 0 + nth i b 0.
Proof.
  revert i b; induction a as [| x a IH]; intros i [| y b] H; simpl in H;
    try discriminate.
  - destruct i; simpl; ring.
  - change (vadd (x :: a) (y :: b)) with ((x + y) :: vadd a b).
    destruct i as [| i]; [reflexivity |]. cbn [nth]. apply IH. lia.
Qed.

Lemma nth_vscale i c a : nth i (vscale c a) 0 = c * nth i a 0.
Proof.
  revert i; induction a as [| x a IH]; intros i.
  - destruct i; simpl; ring.
  - change (vscale c (x :: a)) with ((c * x) :: vscale c a).
    destruct i as [| i]; [reflexivity |]. cbn [nth]. apply IH.
Qed.

Lemma nth_map2_mult i w z :
  List.length w = List.length z -> nth i (map2 Qcmult w z) 0 = nth i w 0 * nth i z 0.
Proof.
  revert i z; induction w as [| x w IH]; intros i [| y z] H; simpl in H;
    try discriminate.
  - destruct i; simpl; ring.
  - cbn [map2]. destruct i as [| i]; [reflexivity |]. cbn [nth]. apply IH. lia.
Qed.

Lemma dot_vsub_r r u v :
  List.length u = List.length v -> dot r (vsub u v) = dot r u - dot r v.
Proof.
  revert u v; induction r as [| a r IH]; intros [| b u] [| c v] H; simpl in H;
    try discriminate; try (simpl; ring).
  change (vsub (b :: u) (c :: v)) with ((b - c) :: vsub u v).
  cbn [dot]. rewrite IH by lia. ring.
Qed.

Lemma vsub_zero u v :
  List.length u = List.length v -> vsub u v = zeros (List.length u) -> u = v.
Proof.
  revert v; induction u as [| a u IH]; intros [| b v] H E; simpl in H;
    try discriminate; [reflexivity |].
  change (vsub (a :: u) (b :: v)) with ((a - b) :: vsub u v) in E.
  change (zeros (List.length (a :: u))) with (0 :: zeros (List.length u)) in E.
  apply cons_eq_inv in E. destruct E as [E0 E1].
  f_equal; [| apply IH; [lia | exact E1]].
  replace a with (a - b + b) by ring. rewrite E0. ring.
Qed.

(** A positive definite system has at most one solution: whatever direct
    solver stands behind [spsolve], it returns the vector the elimination
    returns. *)
Lemma posdef_solution_unique n (A : matrix) (z z' : vec) :
  posdef n A -> List.length z = n -> List.length z' = n ->
  mat_vec A z = mat_vec A z' -> z = z'.
Proof.
  intros Hpd Hz Hz' E.
  apply vsub_zero; [congruence |].
  destruct (list_eq_dec Qc_eq_dec (vsub z z') (zeros (List.length z)))
    as [Hy | Hn]; [exact Hy | exfalso].
  assert (Hl : List.length (vsub z z') = n)
    by (unfold vsub; rewrite map2_length; lia).
  rewrite Hz in Hn.
  pose proof (Hpd (vsub z z') Hl Hn) as Hpos.
  assert (Hm : mat_vec A (vsub z z') = vsub (mat_vec A z) (mat_vec A z')).
  { unfold mat_vec. clear -Hz Hz'.
    induction A as [| r A IH]; [reflexivity |].
    cbn [map]. change (vsub (dot r z :: map (fun r0 => dot r0 z) A)
                            (dot r z' :: map (fun r0 => dot r0 z') A))
      with ((dot r z - dot r z') :: vsub (map (fun r0 => dot r0 z) A)
                                         (map (fun r0 => dot r0 z') A)).
    f_equal; [apply dot_vsub_r; congruence | exact IH]. }
  rewrite Hm, E in Hpos.
  assert (Hz0 : vsub (mat_vec A z') (mat_vec A z') = zeros (List.length A)).
  { unfold mat_vec. clear. induction A as [| r A IH]; [reflexivity |].
    cbn [map List.length].
    change (vsub (dot r z' :: map (fun r0 => dot r0 z') A)
                 (dot r z' :: map (fun r0 => dot r0 z') A))
      with ((dot r z' - dot r z') :: vsub (map (fun r0 => dot r0 z') A)
                                          (map (fun r0 => dot r0 z') A)).
    rewrite IH. change (zeros (S (List.length A))) with (0 :: zeros (List.length A)).
    f_equal. ring. }
  rewrite Hz0, dot_zeros_r in Hpos.
  exact (Qclt_not_eq _ _ Hpos eq_refl).
Qed.

(** The result of the smoother is the only solution of its system. *)
Lemma whittaker_solution_unique (x w z z' : vec) :
  List.length x = List.length w -> binary_weights w ->
  whittaker_smooth x w default_lambda = Ok (map Some z) ->
  List.length z' = List.length x ->
  mat_vec (whittaker_matrix (List.length x) w default_lambda) z'
    = map2 Qcmult w x ->
  z' = z.
Proof.
  intros Hlen Hbin Hz Hz' Hsys.
  destruct (whittaker_smooth_solves x w default_lambda Hlen
              (binary_weights_nonneg w Hbin) default_lambda_pos)
    as (z0 & Hz0 & Hl0 & Hsys0).
  rewrite Hz0 in Hz. injection Hz as Hz.
  assert (z0 = z).
  { revert Hz. clear. revert z. induction z0 as [| a z0 IH]; intros [| b z] H;
      simpl in H; try discriminate; [reflexivity |].
    apply cons_eq_inv in H. destruct H as [H1 H2].
    f_equal; [congruence | apply IH; exact H2]. }
  subst z0.
  apply (posdef_solution_unique (List.length x)
           (whittaker_matrix (List.length x) w default_lambda)).
  - apply whittaker_posdef; [congruence | apply binary_weights_nonneg; exact Hbin
                            | apply default_lambda_pos].
  - exact Hz'.
  - exact Hl0.
  - congruence.
Qed.

(** Claim C3, amended.  For weights 0 and 1 and [lambda_ = 100] the
    smoother returns the solution [z] of the whole system
    [(W + lambda_ * D.T.dot(D)) z = w * x], and that system has no other
    solution.  Row by row: [w_i * z_i + lambda_ * (D.T.dot(D) z)_i = w_i * x_i].
    So at an observed (weight-1) position the result differs from the
    observed value by [lambda_] times the roughness penalty there,
    [z_i = x_i - lambda_ * (D.T.dot(D) z)_i], which no solver tolerance
    bounds; and at a missing (weight-0) position the penalty term is 0. *)
Theorem smoother_normal_equations (x w : vec) :
  List.length x = List.length w -> binary_weights w ->
  exists z,
    whittaker_smooth x w default_lambda = Ok (map Some z)
    /\ List.length z = List.length x
    /\ mat_vec (whittaker_matrix (List.length x) w default_lambda) z
       = map2 Qcmult w x
    /\ (forall z', List.length z' = List.length x ->
          mat_vec (whittaker_matrix (List.length x) w default_lambda) z'
            = map2 Qcmult w x ->
          z' = z)
    /\ (forall i,
          nth i w 0 * nth i z 0
          + default_lambda * nth i (mat_vec (penalty_matrix (List.length x)) z) 0
          = nth i w 0 * nth i x 0)
    /\ (forall i, nth i w 0 = 1 ->
          nth i z 0
          = nth i x 0
            - default_lambda * nth i (mat_vec (penalty_matrix (List.length x)) z) 0)
    /\ (forall i, nth i w 0 = 0 ->
          nth i (mat_vec (penalty_matrix (List.length x)) z) 0 = 0).
Proof.
  intros Hlen Hbin.
  destruct (whittaker_smooth_solves x w default_lambda Hlen
              (binary_weights_nonneg w Hbin) default_lambda_pos)
    as (z & Hz & Hzl & Hsys).
  exists z. split; [exact Hz |]. split; [exact Hzl |]. split; [exact Hsys |].
  split.
  { intros z' Hz' Hsys'.
    apply (whittaker_solution_unique x w z z' Hlen Hbin Hz Hz' Hsys'). }
  assert (Hrow : forall i,
             nth i w 0 * nth i z 0
             + default_lambda * nth i (mat_vec (penalty_matrix (List.length x)) z) 0
             = nth i w 0 * nth i x 0).
  { intro i.
    pose proof Hsys as Hi.
    rewrite whittaker_matrix_action in Hi by congruence.
    apply (f_equal (fun l => nth i l 0)) in Hi.
    destruct (penalty_matrix_dims (List.length x)) as [Pl _].
    rewrite nth_vadd in Hi
      by (rewrite map2_length; unfold vscale; rewrite length_map, mat_vec_length; lia).
    rewrite nth_vscale, !nth_map2_mult in Hi by congruence.
    exact Hi. }
  split; [exact Hrow |]. split.
  - intros i Hi. specialize (Hrow i). rewrite Hi in Hrow.
    replace (nth i z 0) with
      (1 * nth i z 0
       + default_lambda * nth i (mat_vec (penalty_matrix (List.length x)) z) 0
       - default_lambda * nth i (mat_vec (penalty_matrix (List.length x)) z) 0)
      by ring.
    rewrite Hrow. ring.
  - intros i Hi. specialize (Hrow i). rewrite Hi in Hrow.
    assert (E : default_lambda
                * nth i (mat_vec (penalty_matrix (List.length x)) z) 0 = 0).
    { replace (default_lambda
               * nth i (mat_vec (penalty_matrix (List.length x)) z) 0)
        with (0 * nth i z 0
              + default_lambda
                * nth i (mat_vec (penalty_matrix (List.length x)) z) 0) by ring.
      rewrite Hrow. ring. }
    destruct (Qcmult_integral _ _ E) as [E0 | E0]; [| exact E0].
    exfalso. exact (Qc_pos_neq _ default_lambda_pos E0).
Qed.

Lemma weighted_agree (w x x' : vec) :
  binary_weights w ->
  (forall i, nth i w 0 = 1 -> nth i x 0 = nth i x' 0) ->
  List.length x = List.length x' ->
  map2 Qcmult w x = map2 Qcmult w x'.
Proof.
  intro Hbin. revert x x'.
  induction Hbin as [| wi w Hwi _ IH]; intros [| a x] [| b x'] Hag Hl; simpl in Hl;
    try discriminate; try reflexivity.
  cbn [map2]. f_equal.
  - destruct Hwi as [-> | ->]; [ring |].
    specialize (Hag 0%nat eq_refl). simpl in Hag. rewrite Hag. reflexivity.
  - apply IH; [| lia]. intros i Hi. apply (Hag (S i)). exact Hi.
Qed.

(** Claim C6.  Two input sequences of the same length that agree at every
    weight-1 position give, for the same weights of 0 and 1 and the same
    [lambda_], the same result of the smoother: at every position, so in
    particular at the weight-1 positions. *)
Theorem placeholders_do_not_matter (x x' w : vec) (lambda_ : Qc) :
  List.length x = List.length x' -> binary_weights w ->
  (forall i, nth i w 0 = 1 -> nth i x 0 = nth i x' 0) ->
  whittaker_smooth x w lambda_ = whittaker_smooth x' w lambda_.
Proof.
  intros Hlen Hbin Hag. unfold whittaker_smooth.
  rewrite <- Hlen. rewrite (weighted_agree w x x' Hbin Hag Hlen). reflexivity.
Qed.

(** ** The smoothing step of the gap filler *)

Lemma weights_of_binary gaps sizes mg : binary_weights (weights_of gaps sizes mg).
Proof.
  unfold weights_of, binary_weights. apply Forall_map2. intros g s.
  destruct (mg <? Z.of_nat s)%Z; [left; reflexivity |].
  destruct g; [left | right]; reflexivity.
Qed.

Lemma series_mean_some col : count_valid col <> 0%nat -> exists m, series_mean col = Some m.
Proof.
  unfold series_mean. destruct (count_valid col); [congruence |]. eauto.
Qed.

Lemma smooth_means_filled col w z :
  count_valid col <> 0%nat -> List.length w = List.length col ->
  binary_weights w ->
  smooth_means col w = Ok z -> Forall (fun v => v <> None) z.
Proof.
  intros Hc Hl Hb H. unfold smooth_means in H.
  destruct (series_mean_some col Hc) as (m & Em). rewrite Em in H.
  destruct (whittaker_smooth_solves
              (map (fun c => match c with Some v => v | None => m end) col) w
              default_lambda) as (z' & Hz & _).
  - rewrite length_map. congruence.
  - apply binary_weights_nonneg; exact Hb.
  - apply default_lambda_pos.
  - rewrite Hz in H. injection H as <-.
    rewrite Forall_map. apply Forall_forall. intros; discriminate.
Qed.

Close Scope Qc_scope.

(* ================================================================== *)
(** * The converted input *)
(* ================================================================== *)

(** ** Selecting rows by a mask *)

Lemma mask_filter_In {A} (m : list bool) (l : list A) (a : A) :
  In a (mask_filter m l) <->
  exists i, nth_error m i = Some true /\ nth_error l i = Some a.
Proof.
  revert l; induction m as [| b m IH]; intros [| x l]; simpl.
  - split; [intros [] | intros ([| i] & H & _); discriminate].
  - split; [intros [] | intros ([| i] & H & _); discriminate].
  - split; [intros [] | intros ([| i] & _ & H); discriminate].
  - destruct b; simpl; rewrite ?IH; split.
    + intros [<- | (i & H1 & H2)]; [exists 0%nat; auto | exists (S i); auto].
    + intros ([| i] & H1 & H2); simpl in *; [left; congruence | right; eauto].
    + intros (i & H1 & H2). exists (S i); auto.
    + intros ([| i] & H1 & H2); simpl in *; [discriminate | eauto].
Qed.

Lemma mask_filter_sorted {A} (R : Z -> Z -> Prop) (f : A -> Z) m (l : list A) :
  StronglySorted R (map f l) -> StronglySorted R (map f (mask_filter m l)).
Proof.
  revert m; induction l as [| x l IH]; intros [| b m] H; simpl; try constructor.
  inversion H as [| ? ? Hs Hf]; subst.
  destruct b; simpl; [constructor |]; auto.
  rewrite Forall_forall in *. intros y Hy.
  apply in_map_iff in Hy. destruct Hy as (r & <- & Hr).
  apply mask_filter_In in Hr. destruct Hr as (i & _ & Hi).
  apply Hf, in_map. eapply nth_error_In; eauto.
Qed.

Lemma mask_filter_first {A} m (l : list A) x :
  hd_error l = Some x -> hd_error m = Some true ->
  hd_error (mask_filter m l) = Some x.
Proof.
  destruct l, m; simpl; try discriminate.
  intros H1 H2. injection H1 as ->. injection H2 as ->. reflexivity.
Qed.

Lemma mask_filter_last {A} m (l l' : list A) x :
  List.length m = List.length l -> l = l' ++ [x] ->
  nth (List.length l') m false = true ->
  exists pre, mask_filter m l = pre ++ [x].
Proof.
  intros Hlen -> . revert m Hlen; induction l' as [| y l' IH]; intros [| b m] Hlen Hn;
    simpl in *; try discriminate.
  - subst b. destruct m; [| simpl in Hlen; lia]. exists []. reflexivity.
  - destruct (IH m) as (pre & E); [lia | exact Hn |].
    rewrite E. destruct b; [exists (y :: pre) | exists pre]; reflexivity.
Qed.

Lemma Forall2_nth_error {A B} (R : A -> B -> Prop) l l' i b :
  Forall2 R l l' -> nth_error l' i = Some b ->
  exists a, nth_error l i = Some a /\ R a b.
Proof.
  intro H; revert i; induction H; intros [| i] Hn; simpl in *; try discriminate.
  - injection Hn as <-. eauto.
  - eauto.
Qed.

Lemma Forall2_nth_error_l {A B} (R : A -> B -> Prop) l l' i a :
  Forall2 R l l' -> nth_error l i = Some a ->
  exists b, nth_error l' i = Some b /\ R a b.
Proof.
  intro H; revert i; induction H; intros [| i] Hn; simpl in *; try discriminate.
  - injection Hn as <-. eauto.
  - eauto.
Qed.

Lemma Forall2_length' {A B} (R : A -> B -> Prop) l l' :
  Forall2 R l l' -> List.length l = List.length l'.
Proof. induction 1; simpl; auto. Qed.

(** ** The converted input *)


Lemma conv_day r : row_day (conv r) = row_day r.
Proof. destruct r as [[d | d] ? ? ? ? ? ?]; reflexivity. Qed.

Lemma rows_dates_to_datetime df : rows (dates_to_datetime df) = map conv (rows df).
Proof. reflexivity. Qed.


Lemma sorted_input_In df r' :
  In r' (sorted_input df) <-> exists r, In r (rows df) /\ r' = conv r.
Proof.
  unfold sorted_input. rewrite sort_values_date_In, rows_dates_to_datetime, in_map_iff.
  split; intros (r & H1 & H2); exists r; auto.
Qed.

Lemma merged_frame_rows df :
  rows (merged_frame (dates_to_datetime df))
  = flat_map (merge_day (sorted_input df))
      (pd_date_range (date_min (sorted_input df)) (date_max (sorted_input df))).
Proof. reflexivity. Qed.

Lemma observed_on_sorted df d :
  observed_on df d <->
  exists r', In r' (sorted_input df) /\ row_day r' = d /\ idx_mean r' <> None.
Proof.
  unfold observed_on. split.
  - intros (r & H1 & H2 & H3). exists (conv r). rewrite sorted_input_In.
    split; [eauto |]. rewrite conv_day. auto.
  - intros (r' & H1 & H2 & H3). apply sorted_input_In in H1.
    destruct H1 as (r & Hr & ->). exists r. rewrite conv_day in H2. auto.
Qed.

Lemma sorted_input_nonempty df : rows df <> [] -> sorted_input df <> [].
Proof.
  intros H E. destruct (rows df) as [| r l] eqn:R; [congruence |].
  assert (Hin : In (conv r) (sorted_input df)).
  { apply sorted_input_In. exists r. rewrite R. split; [left |]; auto. }
  rewrite E in Hin. destruct Hin.
Qed.

Lemma sorted_input_observation idx df r' :
  observation_set idx df -> In r' (sorted_input df) ->
  idx_mean r' <> None /\ is_interpolated r' = None.
Proof.
  intros (_ & _ & H) Hin. apply sorted_input_In in Hin.
  destruct Hin as (r & Hr & ->). rewrite Forall_forall in H.
  destruct (H r Hr) as [H1 H2]. split; assumption.
Qed.

Lemma sorted_input_unique df :
  unique_dates df -> NoDup (map row_day (sorted_input df)).
Proof.
  unfold unique_dates, sorted_input. intro H.
  eapply Permutation_NoDup.
  - apply Permutation_map. symmetry. apply sort_values_date_perm.
  - rewrite rows_dates_to_datetime, map_map.
    erewrite map_ext; [exact H |]. intro r. apply conv_day.
Qed.

Lemma date_min_sorted_input df :
  rows df <> [] -> date_min (sorted_input df) = date_min (rows df).
Proof.
  intro H.
  pose proof (sorted_input_nonempty df H) as Hs.
  destruct (date_min_In (sorted_input df) Hs) as (r1 & H1 & E1).
  destruct (date_min_In (rows df) H) as (r2 & H2 & E2).
  apply sorted_input_In in H1. destruct H1 as (r & Hr & ->).
  rewrite conv_day in E1.
  pose proof (date_min_le (rows df) r Hr) as Hge.
  pose proof (date_min_le (sorted_input df) (conv r2)) as Hle.
  rewrite conv_day in Hle.
  assert (Hin : In (conv r2) (sorted_input df)) by (apply sorted_input_In; eauto).
  specialize (Hle Hin). lia.
Qed.

Lemma date_max_sorted_input df :
  rows df <> [] -> date_max (sorted_input df) = date_max (rows df).
Proof.
  intro H.
  pose proof (sorted_input_nonempty df H) as Hs.
  destruct (date_max_In (sorted_input df) Hs) as (r1 & H1 & E1).
  destruct (date_max_In (rows df) H) as (r2 & H2 & E2).
  apply sorted_input_In in H1. destruct H1 as (r & Hr & ->).
  rewrite conv_day in E1.
  pose proof (date_max_ge (rows df) r Hr) as Hge.
  pose proof (date_max_ge (sorted_input df) (conv r2)) as Hle.
  rewrite conv_day in Hle.
  assert (Hin : In (conv r2) (sorted_input df)) by (apply sorted_input_In; eauto).
  specialize (Hle Hin). lia.
Qed.

(** What [fill_gaps] does on a frame that is not empty and has dates. *)
Lemma fill_gaps_nonempty idx cs cv df mg :
  has_column "date" df = true -> rows df <> [] ->
  fill_gaps idx cs cv df mg
  = (fill_gaps_body idx cs cv (dates_to_datetime df) mg, dates_to_datetime df).
Proof.
  intros Hd Hr. unfold fill_gaps, empty.
  destruct (rows df) as [| r l]; [congruence |].
  destruct (columns df) as [| c cols] eqn:C.
  - unfold has_column in Hd. rewrite C in Hd. discriminate.
  - rewrite Hd. reflexivity.
Qed.

(* ================================================================== *)
(** * Runs of missing days on the calendar *)
(* ================================================================== *)


Section Calendar.

(** The sorted input [L], all of whose rows are observations. *)
Variable L : list Row.
Hypothesis L_observed : forall r, In r L -> idx_mean r <> None.


Lemma has_row_dec d : {has_row L d} + {~ has_row L d}.
Proof.
  destruct (existsb (fun r => (row_day r =? d)%Z) L) eqn:E.
  - left. apply existsb_exists in E. destruct E as (r & H1 & H2).
    exists r. split; auto. apply Z.eqb_eq; auto.
  - right. intros (r & H1 & H2).
    assert (existsb (fun r => (row_day r =? d)%Z) L = true).
    { apply existsb_exists. exists r. split; auto. apply Z.eqb_eq; auto. }
    congruence.
Qed.

Lemma block_observed d b : has_row L d -> In b (merge_day L d) -> In b L /\ row_day b = d.
Proof.
  intros (r & Hr & Hd) Hb.
  destruct (merge_day_cases _ _ _ Hb) as [[_ Hno] | H]; auto.
  exfalso. eapply Hno; eauto.
Qed.

Lemma block_missing d : ~ has_row L d -> merge_day L d = [null_row d].
Proof.
  intro H. apply merge_day_missing. intros r Hr Hd. apply H. exists r; auto.
Qed.

Lemma flat_map_missing R :
  (forall d, In d R -> ~ has_row L d) -> flat_map (merge_day L) R = map null_row R.
Proof.
  induction R as [| d R IH]; intro H; simpl; auto.
  rewrite block_missing by (apply H; left; auto).
  simpl. f_equal. apply IH. intros; apply H; right; auto.
Qed.

Lemma gaps_of_null_rows R : gaps_of (map null_row R) = repeat true (List.length R).
Proof. induction R; simpl; auto. f_equal; auto. Qed.

Lemma merged_row_cases range b :
  In b (flat_map (merge_day L) range) ->
  In (row_day b) range
  /\ ((idx_mean b <> None /\ In b L)
      \/ (idx_mean b = None /\ b = null_row (row_day b) /\ ~ has_row L (row_day b))).
Proof.
  intro H. apply in_flat_map in H. destruct H as (d & Hd & Hb).
  pose proof (merge_day_day _ _ _ Hb) as E. rewrite E. split; auto.
  destruct (merge_day_cases _ _ _ Hb) as [[-> Hno] | [Hin _]].
  - right. repeat split; auto. intros (r & Hr & Hrd). eapply Hno; eauto.
  - left. split; auto.
Qed.

Lemma last_seen_all_false prev l :
  l <> [] -> Forall (fun g => g = false) l -> last_seen prev l = Some false.
Proof.
  revert prev; induction l as [| g l IH]; intros prev Hne Hall; [congruence |].
  inversion Hall; subst. unfold last_seen in *. simpl.
  destruct l as [| g' l]; [reflexivity |].
  apply IH; [congruence | assumption].
Qed.

Lemma gaps_of_app l1 l2 : gaps_of (l1 ++ l2) = gaps_of l1 ++ gaps_of l2.
Proof. apply map_app. Qed.

Lemma block_gaps_false d : has_row L d -> Forall (fun g => g = false) (gaps_of (merge_day L d)).
Proof.
  intro H. unfold gaps_of. rewrite Forall_map, Forall_forall. intros b Hb.
  destruct (block_observed d b H Hb) as [Hin _].
  destruct (idx_mean b) eqn:E; [reflexivity |].
  exfalso. eapply L_observed; eauto.
Qed.

(** The calendar around a maximal run of missing days. *)
Lemma calendar_around_run lo hi a b :
  (lo <= a)%Z -> (a < b)%Z -> (b <= hi)%Z ->
  has_row L a -> has_row L b ->
  (forall e, (a < e < b)%Z -> ~ has_row L e) ->
  exists B1 B3,
    flat_map (merge_day L) (pd_date_range lo hi)
    = B1 ++ map null_row (pd_date_range (a + 1) (b - 1)) ++ B3
    /\ last_seen None (gaps_of B1) <> Some true
    /\ hd false (gaps_of B3) = false
    /\ (forall r, In r B1 -> (row_day r <= a)%Z)
    /\ (forall r, In r B3 -> (b <= row_day r)%Z).
Proof.
  intros Hlo Hab Hhi Ha Hb Hnone.
  exists (flat_map (merge_day L) (pd_date_range lo a)),
         (flat_map (merge_day L) (pd_date_range b hi)).
  split; [| split; [| split; [| split]]].
  - rewrite (pd_date_range_split lo a hi) by lia.
    rewrite (pd_date_range_split (a + 1) (b - 1) hi) by lia.
    rewrite !flat_map_app. f_equal.
    replace (b - 1 + 1)%Z with b by lia. f_equal.
    apply flat_map_missing. intros d Hd. apply pd_date_range_In in Hd.
    apply Hnone. lia.
  - rewrite (pd_date_range_split lo (a - 1) a) by lia.
    replace (a - 1 + 1)%Z with a by lia.
    assert (E : pd_date_range a a = [a]).
    { unfold pd_date_range. replace (a - a + 1)%Z with 1%Z by lia. simpl.
      f_equal. lia. }
    rewrite E, flat_map_app, gaps_of_app, last_seen_app. simpl.
    rewrite app_nil_r.
    rewrite last_seen_all_false; [congruence | | apply block_gaps_false; auto].
    unfold gaps_of. intro Hn. apply map_eq_nil in Hn.
    eapply merge_day_nonempty; eauto.
  - rewrite (pd_date_range_split b b hi) by lia.
    assert (E : pd_date_range b b = [b]).
    { unfold pd_date_range. replace (b - b + 1)%Z with 1%Z by lia. simpl.
      f_equal. lia. }
    rewrite E, flat_map_app, gaps_of_app. simpl. rewrite app_nil_r.
    pose proof (block_gaps_false b Hb) as Hf.
    pose proof (merge_day_nonempty L b) as Hne.
    destruct (merge_day L b) as [| m ms]; [congruence |].
    simpl in *. inversion Hf; subst. assumption.
  - intros r Hr. apply in_flat_map in Hr. destruct Hr as (d & Hd & Hr).
    apply pd_date_range_In in Hd. rewrite (merge_day_day _ _ _ Hr). lia.
  - intros r Hr. apply in_flat_map in Hr. destruct Hr as (d & Hd & Hr).
    apply pd_date_range_In in Hd. rewrite (merge_day_day _ _ _ Hr). lia.
Qed.

(** The nearest observed days around an unobserved one. *)
Lemma nearest_below (n : nat) : forall d,
  (exists e, (d - Z.of_nat n <= e < d)%Z /\ has_row L e) ->
  exists a, (a < d)%Z /\ has_row L a /\ forall e, (a < e < d)%Z -> ~ has_row L e.
Proof.
  induction n as [| n IH]; intros d (e & He & Hobs); [lia |].
  destruct (has_row_dec (d - 1)) as [Hy | Hn].
  - exists (d - 1)%Z. split; [lia |]. split; [exact Hy |]. intros e' He'; lia.
  - destruct (IH (d - 1)%Z) as (a & Ha & Hoa & Hnone).
    + exists e. split; auto.
      assert (e <> d - 1)%Z by (intros ->; auto). lia.
    + exists a. split; [lia |]. split; [exact Hoa |].
      intros e' He'. destruct (Z.eq_dec e' (d - 1)) as [-> | Hne]; auto.
      apply Hnone; lia.
Qed.

Lemma nearest_above (n : nat) : forall d,
  (exists e, (d < e <= d + Z.of_nat n)%Z /\ has_row L e) ->
  exists b, (d < b)%Z /\ has_row L b /\ forall e, (d < e < b)%Z -> ~ has_row L e.
Proof.
  induction n as [| n IH]; intros d (e & He & Hobs); [lia |].
  destruct (has_row_dec (d + 1)) as [Hy | Hn].
  - exists (d + 1)%Z. split; [lia |]. split; [exact Hy |]. intros e' He'; lia.
  - destruct (IH (d + 1)%Z) as (b & Hb & Hob & Hnone).
    + exists e. split; auto.
      assert (e <> d + 1)%Z by (intros ->; auto). lia.
    + exists b. split; [lia |]. split; [exact Hob |].
      intros e' He'. destruct (Z.eq_dec e' (d + 1)) as [-> | Hne]; auto.
      apply Hnone; lia.
Qed.

Lemma enclosing_run lo hi d :
  has_row L lo -> has_row L hi -> (lo <= d <= hi)%Z -> ~ has_row L d ->
  exists a b, (lo <= a)%Z /\ (a < d < b)%Z /\ (b <= hi)%Z
    /\ has_row L a /\ has_row L b /\ forall e, (a < e < b)%Z -> ~ has_row L e.
Proof.
  intros Hlo Hhi Hd Hn.
  assert (lo <> d) by (intros ->; auto).
  assert (hi <> d) by (intros ->; auto).
  destruct (nearest_below (Z.to_nat (d - lo)) d) as (a & Ha & Hoa & Hna).
  { exists lo. split; auto. lia. }
  destruct (nearest_above (Z.to_nat (hi - d)) d) as (b & Hb & Hob & Hnb).
  { exists hi. split; auto. lia. }
  exists a, b.
  split; [| split; [lia | split; [| split; [exact Hoa | split; [exact Hob |]]]]].
  - destruct (Z_lt_le_dec a lo) as [Hlt | Hge]; auto.
    exfalso. apply (Hna lo); auto. lia.
  - destruct (Z_lt_le_dec hi b) as [Hlt | Hge]; auto.
    exfalso. apply (Hnb hi); auto. lia.
  - intros e He. destruct (Z.compare_spec e d) as [-> | Hlt | Hgt]; auto.
    + apply Hna; lia.
    + apply Hnb; lia.
Qed.

(** The gap size the code computes for a missing day is the length of its
    maximal run. *)
Lemma gap_size_of_missing_day lo hi a b i x :
  (lo <= a)%Z -> (a < b)%Z -> (b <= hi)%Z ->
  has_row L a -> has_row L b ->
  (forall e, (a < e < b)%Z -> ~ has_row L e) ->
  nth_error (flat_map (merge_day L) (pd_date_range lo hi)) i = Some x ->
  (a < row_day x < b)%Z ->
  Z.of_nat (nth i (gap_sizes_of (gaps_of (flat_map (merge_day L) (pd_date_range lo hi))))
                0%nat)
  = (b - a - 1)%Z.
Proof.
  intros Hlo Hab Hhi Ha Hb Hnone Hx Hd.
  destruct (calendar_around_run lo hi a b Hlo Hab Hhi Ha Hb Hnone)
    as (B1 & B3 & E & H1 & H3 & D1 & D3).
  rewrite E in *. clear E.
  set (R := pd_date_range (a + 1) (b - 1)) in *.
  assert (HR : List.length R = Z.to_nat (b - a - 1)).
  { subst R. rewrite pd_date_range_length. f_equal. lia. }
  assert (Hi : (List.length B1 <= i < List.length B1 + List.length R)%nat).
  { destruct (Nat.lt_ge_cases i (List.length B1)) as [Hlt | Hge].
    - rewrite nth_error_app1 in Hx by exact Hlt.
      apply nth_error_In in Hx. specialize (D1 _ Hx). lia.
    - split; auto.
      rewrite nth_error_app2 in Hx by exact Hge.
      destruct (Nat.lt_ge_cases (i - List.length B1) (List.length R)) as [Hlt | Hge'];
        [lia |].
      rewrite nth_error_app2 in Hx by (rewrite length_map; exact Hge').
      apply nth_error_In in Hx. specialize (D3 _ Hx). lia. }
  rewrite !gaps_of_app, gaps_of_null_rows.
  destruct (List.length R) as [| k] eqn:EK; [lia |].
  rewrite gap_sizes_run; auto.
  - lia.
  - unfold gaps_of. rewrite length_map. lia.
Qed.

End Calendar.

(* ================================================================== *)
(** * The rows of the output *)
(* ================================================================== *)

Lemma NoDup_map_inj {A B} (f : A -> B) (l : list A) a b :
  NoDup (map f l) -> In a l -> In b l -> f a = f b -> a = b.
Proof.
  induction l as [| x l IH]; simpl; intros Hnd Ha Hb E; [destruct Ha |].
  inversion Hnd as [| ? ? Hn Hnd']; subst.
  destruct Ha as [-> | Ha], Hb as [-> | Hb]; auto.
  - exfalso. apply Hn. rewrite E. apply in_map; auto.
  - exfalso. apply Hn. rewrite <- E. apply in_map; auto.
Qed.

Lemma Forall2_map_eq {A B C} (R : A -> B -> Prop) (f : A -> C) (g : B -> C) l l' :
  (forall a b, R a b -> g b = f a) -> Forall2 R l l' -> map g l' = map f l.
Proof. intros H F; induction F; simpl; f_equal; auto. Qed.

Section Retention.

Variable idx : Index.
Variable cs : list (nat * Qc) -> nat -> Qc.
Variable cv : Z -> list (option Qc) -> nat -> option Qc.





Lemma isInterpolated_flag r g : is_interpolated r = Some g -> isInterpolated r = g.
Proof. unfold isInterpolated. intros ->. reflexivity. Qed.

Lemma existsb_false_gaps l :
  existsb (fun g => g) (gaps_of l) = false -> forall b, In b l -> idx_mean b <> None.
Proof.
  intros H b Hb E.
  assert (existsb (fun g => g) (gaps_of l) = true); [| congruence].
  apply existsb_exists. exists true. split; auto.
  unfold gaps_of. apply in_map_iff. exists b. rewrite E. auto.
Qed.

Lemma mask_filter_all_true {A} (m : list bool) (l : list A) :
  List.length m = List.length l -> Forall (fun b => b = true) m -> mask_filter m l = l.
Proof.
  revert l; induction m as [| b m IH]; intros [| x l] Hlen H; simpl in *;
    try discriminate; auto.
  inversion H; subst. f_equal. apply IH; auto.
Qed.

Lemma out_rows_spec df mg out :
  observation_set idx df -> rows df <> [] ->
  fst (fill_gaps idx cs cv df mg) = Ok out ->
  exists rows5,
    Forall2 (from_calendar (solve_succeeds df mg)) (calendar_rows df) rows5
    /\ ((existsb (fun g => g) (gaps_of (calendar_rows df)) = false /\ rows out = rows5)
        \/ (existsb (fun g => g) (gaps_of (calendar_rows df)) = true
            /\ rows out = mask_filter (kept_sizes df mg) rows5)).
Proof.
  intros Hobs Hne H.
  destruct Hobs as (Hdate & Hmean & Hall).
  rewrite fill_gaps_nonempty in H by assumption. simpl in H.
  apply fill_gaps_body_ok in H. cbv zeta in H.
  rewrite merged_frame_rows in H. fold (calendar_rows df) in H.
  fold (gaps_of (calendar_rows df)) in H.
  destruct H as [[Hg ->] | (Hg & smoothed & rows5 & Es & F & E)].
  - exists (calendar_rows df). split; [| left; split; [exact Hg | apply merged_frame_rows]].
    assert (Hin : Forall (fun b => In b (calendar_rows df)) (calendar_rows df))
      by (apply Forall_forall; auto).
    revert Hin. generalize (calendar_rows df) at 2 3 4 as l.
    induction l as [| b l IH]; intro Hin; constructor.
    + inversion Hin as [| ? ? Hb _]; subst.
      pose proof (existsb_false_gaps _ Hg b Hb) as Hm.
      assert (Lobs : forall r, In r (sorted_input df) -> idx_mean r <> None).
      { intros r Hr.
        apply (sorted_input_observation idx df r (conj Hdate (conj Hmean Hall)) Hr). }
      destruct (merged_row_cases _ Lobs _ _ Hb) as [_ [[_ HL] | [Hnone _]]];
        [| congruence].
      apply sorted_input_In in HL. destruct HL as (r & Hr & ->).
      rewrite Forall_forall in Hall. destruct (Hall r Hr) as [_ Hflag].
      unfold from_calendar, row_kept, isInterpolated.
      repeat split; auto using keeps_refl.
      simpl. rewrite Hflag. simpl in Hm.
      destruct (idx_mean r); [reflexivity | congruence].
    + apply IH. inversion Hin; assumption.
  - exists rows5. split; [| right; split; [exact Hg | exact E]].
    eapply Forall2_impl; [| exact F].
    intros b r (Hk & Hflag & Hfill). unfold from_calendar.
    split; [exact Hk |]. split; [apply isInterpolated_flag; exact Hflag |].
    intro Hs. apply Hfill. apply Hs. exact Es.
Qed.

Lemma calendar_rows_length_sizes df mg :
  List.length (kept_sizes df mg) = List.length (calendar_rows df).
Proof.
  unfold kept_sizes, gaps_of. rewrite length_map, gap_sizes_of_length, length_map.
  reflexivity.
Qed.

(** With a threshold that is not negative, the output is the calendar
    filtered by the gap sizes, gaps or not. *)
Lemma out_rows_filtered df mg out :
  observation_set idx df -> rows df <> [] -> (0 <= mg)%Z ->
  fst (fill_gaps idx cs cv df mg) = Ok out ->
  exists rows5,
    Forall2 (from_calendar (solve_succeeds df mg)) (calendar_rows df) rows5
    /\ rows out = mask_filter (kept_sizes df mg) rows5.
Proof.
  intros Hobs Hne Hmg H.
  destruct (out_rows_spec df mg out Hobs Hne H) as (rows5 & F & [[Hg E] | [Hg E]]).
  - exists rows5. split; [exact F |]. rewrite E. symmetry.
    apply mask_filter_all_true.
    + rewrite calendar_rows_length_sizes. eapply Forall2_length'; eauto.
    + unfold kept_sizes. rewrite Forall_map, Forall_forall. intros s Hs.
      apply In_nth with (d := 0%nat) in Hs. destruct Hs as (i & Hi & <-).
      rewrite gap_sizes_observed; [apply Z.leb_le; simpl; exact Hmg |].
      rewrite gap_sizes_of_length in Hi.
      unfold gaps_of in *. rewrite length_map in Hi.
      rewrite nth_map_lt with (a := null_row 0) by exact Hi.
      pose proof (existsb_false_gaps _ Hg (nth i (calendar_rows df) (null_row 0))) as Hm.
      destruct (idx_mean (nth i (calendar_rows df) (null_row 0))); [reflexivity |].
      exfalso. apply Hm; [apply nth_In; exact Hi | reflexivity].
  - exists rows5. split; assumption.
Qed.

End Retention.

(* ================================================================== *)
(** * Observed rows *)
(* ================================================================== *)


Section Observed.

Variable idx : Index.
Variable cs : list (nat * Qc) -> nat -> Qc.
Variable cv : Z -> list (option Qc) -> nat -> option Qc.

Lemma from_calendar_day P b r : from_calendar P b r -> row_day r = row_day b.
Proof. intros ((D & _) & _). unfold row_day. rewrite D. reflexivity. Qed.

Lemma sorted_input_means idx' df :
  observation_set idx' df -> forall r, In r (sorted_input df) -> idx_mean r <> None.
Proof. intros H r Hr. apply (sorted_input_observation idx' df r H Hr). Qed.

Lemma has_row_observed df d :
  observation_set idx df -> (has_row (sorted_input df) d <-> observed_on df d).
Proof.
  intro Hobs. rewrite observed_on_sorted. split.
  - intros (r & Hr & Hd). exists r. repeat split; auto.
    eapply sorted_input_means; eauto.
  - intros (r & Hr & Hd & _). exists r; auto.
Qed.

(** Where a row of the output comes from. *)
Lemma out_row_origin df mg out r' :
  observation_set idx df -> rows df <> [] ->
  fst (fill_gaps idx cs cv df mg) = Ok out ->
  In r' (rows out) ->
  exists i b,
    nth_error (calendar_rows df) i = Some b
    /\ from_calendar (solve_succeeds df mg) b r'
    /\ (existsb (fun g => g) (gaps_of (calendar_rows df)) = true ->
        nth_error (kept_sizes df mg) i = Some true).
Proof.
  intros Hobs Hne H Hin.
  destruct (out_rows_spec idx cs cv df mg out Hobs Hne H) as (rows5 & F & [[Hg E] | [Hg E]]);
    rewrite E in Hin.
  - apply In_nth_error in Hin. destruct Hin as (i & Hi).
    destruct (Forall2_nth_error _ _ _ _ _ F Hi) as (b & Hb & Hr).
    exists i, b. split; [exact Hb |]. split; [exact Hr |].
    intro Hg'. congruence.
  - apply mask_filter_In in Hin. destruct Hin as (i & Hk & Hi).
    destruct (Forall2_nth_error _ _ _ _ _ F Hi) as (b & Hb & Hr).
    exists i, b. split; [exact Hb |]. split; [exact Hr |].
    intros _. exact Hk.
Qed.

Lemma calendar_row_of_observation df r :
  rows df <> [] -> In r (rows df) -> In (conv r) (calendar_rows df).
Proof.
  intros Hne Hr. unfold calendar_rows. apply in_flat_map.
  assert (Hin : In (conv r) (sorted_input df)) by (apply sorted_input_In; eauto).
  exists (row_day (conv r)). split.
  - apply pd_date_range_In. split; [apply date_min_le | apply date_max_ge]; auto.
  - apply merge_day_observed; auto.
Qed.

Lemma kept_observed df mg i b :
  (0 <= mg)%Z -> nth_error (calendar_rows df) i = Some b -> idx_mean b <> None ->
  nth_error (kept_sizes df mg) i = Some true.
Proof.
  intros Hmg Hb Hm.
  assert (Hi : (i < List.length (calendar_rows df))%nat)
    by (apply nth_error_Some; congruence).
  unfold kept_sizes. rewrite nth_error_map.
  rewrite (nth_error_nth' _ 0%nat)
    by (rewrite gap_sizes_of_length; unfold gaps_of; rewrite length_map; exact Hi).
  simpl. f_equal. apply Z.leb_le.
  rewrite gap_sizes_observed; [simpl; exact Hmg |].
  unfold gaps_of. rewrite nth_map_lt with (a := null_row 0) by exact Hi.
  rewrite (nth_error_nth _ _ _ Hb).
  destruct (idx_mean b); [reflexivity | congruence].
Qed.

(** An observation is retained, with its primary statistic and unflagged. *)
Lemma observation_retained df mg out r :
  observation_set idx df -> (0 <= mg)%Z ->
  fst (fill_gaps idx cs cv df mg) = Ok out ->
  In r (rows df) ->
  exists r', In r' (rows out) /\ row_day r' = row_day r
             /\ idx_mean r' = idx_mean r /\ isInterpolated r' = false.
Proof.
  intros Hobs Hmg H Hr.
  assert (Hne : rows df <> []) by (intro E; rewrite E in Hr; destruct Hr).
  destruct (out_rows_filtered idx cs cv df mg out Hobs Hne Hmg H) as (rows5 & F & E).
  pose proof (calendar_row_of_observation df r Hne Hr) as Hc.
  apply In_nth_error in Hc. destruct Hc as (i & Hi).
  destruct (Forall2_nth_error_l _ _ _ _ _ F Hi) as (r5 & H5 & (Hk & Hflag & _)).
  assert (Hm : idx_mean (conv r) <> None).
  { destruct Hobs as (_ & _ & Hall). rewrite Forall_forall in Hall.
    destruct (Hall r Hr) as [Hm _]. exact Hm. }
  exists r5. split; [| split; [| split]].
  - rewrite E. apply mask_filter_In. exists i. split; auto.
    eapply kept_observed; eauto.
  - destruct Hk as (D & _). unfold row_day. rewrite D. apply conv_day.
  - destruct Hk as (_ & Km & _).
    change (idx_mean (conv r)) with (idx_mean r) in *.
    destruct (idx_mean r) as [v |] eqn:Ev; [| congruence].
    apply Km. reflexivity.
  - rewrite Hflag. destruct (idx_mean (conv r)); [reflexivity | congruence].
Qed.


(** Claim C8.  For an input with a [date] column and unique dates,
    whenever [fill_gaps] returns, the dates of the output are strictly
    increasing; so no date occurs twice. *)
Theorem output_dates_strictly_increasing (df : DataFrame) (max_gap_days : Z)
    (out : DataFrame) :
  has_column "date" df = true -> unique_dates df ->
  fst (fill_gaps idx cs cv df max_gap_days) = Ok out ->
  strictly_increasing (map row_day (rows out)).
Proof.
  intros Hdate Huniq H.
  destruct (rows df) as [| r0 l] eqn:R.
  { unfold fill_gaps, empty in H. rewrite R in H. simpl in H.
    injection H as <-. rewrite R. constructor. }
  assert (Hne : rows df <> []) by congruence.
  rewrite fill_gaps_nonempty in H by assumption. simpl in H.
  apply fill_gaps_body_ok in H. cbv zeta in H.
  rewrite merged_frame_rows in H.
  pose proof (merged_unique_days (sorted_input df)
                (pd_date_range (date_min (sorted_input df)) (date_max (sorted_input df)))
                (sorted_input_unique df Huniq)) as Hdays.
  destruct H as [[_ ->] | (_ & smoothed & rows5 & _ & F & E)].
  - rewrite merged_frame_rows, Hdays. apply pd_date_range_sorted.
  - rewrite E. apply mask_filter_sorted.
    rewrite (Forall2_map_eq (filled_row (Forall (fun v => v <> None) smoothed))
               row_day row_day
               (flat_map (merge_day (sorted_input df))
                  (pd_date_range (date_min (sorted_input df))
                                 (date_max (sorted_input df))))
               rows5).
    + rewrite Hdays. apply pd_date_range_sorted.
    + intros a b ((D & _) & _). unfold row_day. rewrite D. reflexivity.
    + exact F.
Qed.

End Observed.

(* ================================================================== *)
(** * First and last row *)
(* ================================================================== *)

Lemma pd_date_range_single a : pd_date_range a a = [a].
Proof.
  unfold pd_date_range. replace (a - a + 1)%Z with 1%Z by lia. simpl.
  f_equal. lia.
Qed.

Lemma missing_run_unique df d k k' :
  missing_run df d k -> missing_run df d k' -> k = k'.
Proof.
  intros (a & b & Hd & Ha & Hb & Hn & ->) (a' & b' & Hd' & Ha' & Hb' & Hn' & ->).
  assert (a = a').
  { destruct (Z.lt_trichotomy a a') as [Hlt | [E | Hgt]]; auto.
    - exfalso. apply (Hn a'); [lia | exact Ha'].
    - exfalso. apply (Hn' a); [lia | exact Ha]. }
  assert (b = b').
  { destruct (Z.lt_trichotomy b b') as [Hlt | [E | Hgt]]; auto.
    - exfalso. apply (Hn' b); [lia | exact Hb].
    - exfalso. apply (Hn b'); [lia | exact Hb']. }
  subst. reflexivity.
Qed.

Section Boundary.

Variable idx : Index.
Variable cs : list (nat * Qc) -> nat -> Qc.
Variable cv : Z -> list (option Qc) -> nat -> option Qc.

Lemma extreme_days_observed df :
  rows df <> [] ->
  has_row (sorted_input df) (date_min (sorted_input df))
  /\ has_row (sorted_input df) (date_max (sorted_input df))
  /\ (date_min (sorted_input df) <= date_max (sorted_input df))%Z.
Proof.
  intro Hne. pose proof (sorted_input_nonempty df Hne) as Hs.
  destruct (date_min_In _ Hs) as (r1 & H1 & E1).
  destruct (date_max_In _ Hs) as (r2 & H2 & E2).
  split; [exists r1; auto | split; [exists r2; auto |]].
  pose proof (date_min_le _ _ H1). pose proof (date_max_ge _ _ H1). lia.
Qed.

Lemma calendar_first df :
  rows df <> [] ->
  exists b0 rest, calendar_rows df = b0 :: rest /\ In b0 (sorted_input df).
Proof.
  intro Hne. destruct (extreme_days_observed df Hne) as (Hlo & _ & Hle).
  unfold calendar_rows.
  rewrite (pd_date_range_split _ (date_min (sorted_input df))) by lia.
  rewrite pd_date_range_single. simpl.
  pose proof (block_observed (sorted_input df) (date_min (sorted_input df))) as Hb.
  pose proof (merge_day_nonempty (sorted_input df) (date_min (sorted_input df))) as Hn.
  destruct (merge_day (sorted_input df) (date_min (sorted_input df))) as [| m ms];
    [congruence |].
  exists m. eexists. split; [reflexivity |].
  apply (Hb m Hlo). left; reflexivity.
Qed.

Lemma calendar_last df :
  rows df <> [] ->
  exists pre bl, calendar_rows df = pre ++ [bl] /\ In bl (sorted_input df).
Proof.
  intro Hne. destruct (extreme_days_observed df Hne) as (_ & Hhi & Hle).
  unfold calendar_rows.
  rewrite (pd_date_range_split _ (date_max (sorted_input df) - 1)) by lia.
  replace (date_max (sorted_input df) - 1 + 1)%Z with (date_max (sorted_input df)) by lia.
  rewrite pd_date_range_single, flat_map_app. simpl. rewrite app_nil_r.
  pose proof (block_observed (sorted_input df) (date_max (sorted_input df))) as Hb.
  pose proof (merge_day_nonempty (sorted_input df) (date_max (sorted_input df))) as Hn.
  destruct (exists_last Hn) as (ms & m & E).
  rewrite E in *. rewrite app_assoc. eexists. exists m. split; [reflexivity |].
  apply (Hb m Hhi). apply in_or_app. right. left. reflexivity.
Qed.

Lemma from_calendar_observation df P b r' :
  observation_set idx df -> In b (sorted_input df) -> from_calendar P b r' ->
  real_observation_row df r'.
Proof.
  intros Hobs Hb ((D & Km & _) & Hflag & _).
  pose proof (sorted_input_means idx df Hobs b Hb) as Hm.
  apply sorted_input_In in Hb. destruct Hb as (r & Hr & ->).
  change (idx_mean (conv r)) with (idx_mean r) in *.
  split.
  - rewrite Hflag. destruct (idx_mean r); [reflexivity | congruence].
  - exists r. repeat split; auto.
    + unfold row_day. rewrite D. symmetry. apply conv_day.
    + destruct (idx_mean r) as [v |]; [| congruence]. apply Km; reflexivity.
Qed.

(** Claim C10.  For a non-empty Observation set and a threshold that is
    not negative: whenever [fill_gaps] returns, every input observation has
    a row in the output, with its mean and without the flag; every observed
    day is present; and the output is not empty, its first and its last row
    being real observations without the flag. *)
Theorem observations_retained (df : DataFrame) (max_gap_days : Z)
    (out : DataFrame) :
  observation_set idx df -> rows df <> [] -> (0 <= max_gap_days)%Z ->
  fst (fill_gaps idx cs cv df max_gap_days) = Ok out ->
  (forall r, In r (rows df) ->
     exists r', In r' (rows out) /\ row_day r' = row_day r
                /\ idx_mean r' = idx_mean r /\ isInterpolated r' = false)
  /\ (forall d, observed_on df d -> present out d)
  /\ (exists first, hd_error (rows out) = Some first
                    /\ real_observation_row df first)
  /\ (exists pre final, rows out = pre ++ [final]
                        /\ real_observation_row df final).
Proof.
  intros Hobs Hne Hmg H.
  split; [| split; [| split]].
  - intros r Hr. eapply observation_retained; eauto.
  - intros d (r & Hr & Hd & _).
    destruct (observation_retained idx cs cv df max_gap_days out r Hobs Hmg H Hr)
      as (r' & Hr' & Hd' & _).
    exists r'. split; [exact Hr' | congruence].
  - destruct (out_rows_filtered idx cs cv df max_gap_days out Hobs Hne Hmg H)
      as (rows5 & F & E).
    destruct (calendar_first df Hne) as (b0 & rest & Ec & Hb0).
    rewrite Ec in F. inversion F as [| ? r5 ? rs5 Hf F']; subst.
    exists r5. split.
    + rewrite E. apply mask_filter_first; [reflexivity |].
      pose proof (kept_observed df max_gap_days 0 b0 Hmg) as Hk.
      rewrite Ec in Hk. specialize (Hk eq_refl (sorted_input_means idx df Hobs b0 Hb0)).
      destruct (kept_sizes df max_gap_days); simpl in *; congruence.
    + eapply from_calendar_observation; eauto.
  - destruct (out_rows_filtered idx cs cv df max_gap_days out Hobs Hne Hmg H)
      as (rows5 & F & E).
    destruct (calendar_last df Hne) as (pre & bl & Ec & Hbl).
    pose proof (kept_observed df max_gap_days (List.length pre) bl Hmg) as Hk.
    rewrite Ec in Hk. rewrite nth_error_app2 in Hk by lia.
    rewrite Nat.sub_diag in Hk.
    specialize (Hk eq_refl (sorted_input_means idx df Hobs bl Hbl)).
    rewrite Ec in F. apply Forall2_app_inv_l in F.
    destruct F as (rs & rl & F1 & F2 & ->).
    inversion F2 as [| ? r5 ? rs5 Hf F']; subst. inversion F'; subst.
    destruct (mask_filter_last (kept_sizes df max_gap_days) (rs ++ [r5]) rs r5)
      as (pre' & E').
    + rewrite calendar_rows_length_sizes, Ec, !length_app.
      rewrite (Forall2_length' _ _ _ F1). reflexivity.
    + reflexivity.
    + rewrite <- (Forall2_length' _ _ _ F1).
      apply nth_error_nth with (d := false) in Hk. exact Hk.
    + exists pre', r5. split; [rewrite E; exact E' |].
      eapply from_calendar_observation; eauto.
Qed.

End Boundary.

(* ================================================================== *)
(** * Retention *)
(* ================================================================== *)

Section Runs.

Variable idx : Index.
Variable cs : list (nat * Qc) -> nat -> Qc.
Variable cv : Z -> list (option Qc) -> nat -> option Qc.

Lemma kept_true_size df mg i :
  nth_error (kept_sizes df mg) i = Some true ->
  (Z.of_nat (nth i (gap_sizes_of (gaps_of (calendar_rows df))) 0%nat) <= mg)%Z.
Proof.
  unfold kept_sizes. rewrite nth_error_map.
  destruct (nth_error (gap_sizes_of (gaps_of (calendar_rows df))) i) as [s |] eqn:E;
    simpl; [| discriminate].
  intro H. injection H as H. apply Z.leb_le in H.
  rewrite (nth_error_nth _ _ _ E). exact H.
Qed.

Lemma kept_size_true df mg i b :
  nth_error (calendar_rows df) i = Some b ->
  (Z.of_nat (nth i (gap_sizes_of (gaps_of (calendar_rows df))) 0%nat) <= mg)%Z ->
  nth_error (kept_sizes df mg) i = Some true.
Proof.
  intros Hb Hs.
  assert (Hi : (i < List.length (calendar_rows df))%nat)
    by (apply nth_error_Some; congruence).
  unfold kept_sizes. rewrite nth_error_map.
  rewrite (nth_error_nth' _ 0%nat)
    by (rewrite gap_sizes_of_length; unfold gaps_of; rewrite length_map; exact Hi).
  simpl. f_equal. apply Z.leb_le. exact Hs.
Qed.

(** A day of the output is an observed day or a day of a run that is short
    enough. *)
Lemma present_cases df mg out d :
  observation_set idx df -> rows df <> [] ->
  fst (fill_gaps idx cs cv df mg) = Ok out ->
  present out d ->
  observed_on df d \/ exists k, missing_run df d k /\ (k <= mg)%Z.
Proof.
  intros Hobs Hne H (r' & Hr' & Hd).
  destruct (out_row_origin idx cs cv df mg out r' Hobs Hne H Hr')
    as (i & b & Hb & Hfrom & Hkept).
  pose proof (from_calendar_day _ _ _ Hfrom) as Hday.
  pose proof (nth_error_In _ _ Hb) as Hin.
  destruct (merged_row_cases _ (sorted_input_means idx df Hobs) _ _ Hin)
    as [Hrange [[Hm HL] | [Hm [_ Hno]]]].
  - left. apply (has_row_observed idx df d Hobs). exists b. split; [exact HL | congruence].
  - right.
    assert (Hg : existsb (fun g => g) (gaps_of (calendar_rows df)) = true).
    { apply existsb_exists. exists true. split; auto.
      unfold gaps_of. apply in_map_iff. exists b. rewrite Hm. auto. }
    specialize (Hkept Hg). apply kept_true_size in Hkept.
    destruct (extreme_days_observed df Hne) as (Hlo & Hhi & _).
    apply pd_date_range_In in Hrange.
    destruct (enclosing_run (sorted_input df) _ _ _ Hlo Hhi Hrange Hno)
      as (a & b' & Ha & Hab & Hb' & Hoa & Hob & Hnone).
    exists (b' - a - 1)%Z. split.
    + exists a, b'. rewrite <- Hd, Hday.
      split; [exact Hab |].
      split; [apply (has_row_observed idx df a Hobs); exact Hoa |].
      split; [apply (has_row_observed idx df b' Hobs); exact Hob |].
      split; [| reflexivity].
      intros e He Ho. apply (Hnone e He).
      apply (has_row_observed idx df e Hobs); exact Ho.
    + rewrite <- (gap_size_of_missing_day (sorted_input df)
                    (sorted_input_means idx df Hobs)
                    (date_min (sorted_input df)) (date_max (sorted_input df))
                    a b' i b Ha ltac:(lia) Hb' Hoa Hob Hnone Hb Hab).
      exact Hkept.
Qed.

Lemma run_retained df mg out d k :
  observation_set idx df -> rows df <> [] -> (0 <= mg)%Z ->
  fst (fill_gaps idx cs cv df mg) = Ok out ->
  missing_run df d k -> (k <= mg)%Z -> present out d.
Proof.
  intros Hobs Hne Hmg H (a & b & Hd & Ha & Hb & Hnone & ->) Hk.
  destruct (out_rows_filtered idx cs cv df mg out Hobs Hne Hmg H) as (rows5 & F & E).
  apply (has_row_observed idx df a Hobs) in Ha.
  apply (has_row_observed idx df b Hobs) in Hb.
  assert (Hnone' : forall e, (a < e < b)%Z -> ~ has_row (sorted_input df) e).
  { intros e He Ho. apply (Hnone e He). apply (has_row_observed idx df e Hobs); exact Ho. }
  assert (Hlo : (date_min (sorted_input df) <= a)%Z).
  { destruct Ha as (r & Hr & <-). apply date_min_le; exact Hr. }
  assert (Hhi : (b <= date_max (sorted_input df))%Z).
  { destruct Hb as (r & Hr & <-). apply date_max_ge; exact Hr. }
  assert (Hin : In (null_row d) (calendar_rows df)).
  { unfold calendar_rows. apply in_flat_map. exists d. split.
    - apply pd_date_range_In. lia.
    - rewrite block_missing; [left; reflexivity | apply Hnone'; lia]. }
  apply In_nth_error in Hin. destruct Hin as (i & Hi).
  destruct (Forall2_nth_error_l _ _ _ _ _ F Hi) as (r5 & H5 & Hfrom).
  exists r5. split.
  - rewrite E. apply mask_filter_In. exists i. split; [| exact H5].
    eapply kept_size_true; [exact Hi |].
    unfold calendar_rows.
    rewrite (gap_size_of_missing_day (sorted_input df)
               (sorted_input_means idx df Hobs)
               (date_min (sorted_input df)) (date_max (sorted_input df))
               a b i (null_row d) Hlo ltac:(lia) Hhi Ha Hb Hnone' Hi Hd).
    exact Hk.
  - rewrite (from_calendar_day _ _ _ Hfrom). reflexivity.
Qed.

Lemma filled_rows df mg out :
  observation_set idx df -> rows df <> [] ->
  fst (fill_gaps idx cs cv df mg) = Ok out ->
  solve_succeeds df mg ->
  forall r', In r' (rows out) -> idx_mean r' <> None.
Proof.
  intros Hobs Hne H Hs r' Hr'.
  destruct (out_row_origin idx cs cv df mg out r' Hobs Hne H Hr')
    as (i & b & _ & (_ & _ & Hfill) & _).
  apply Hfill. exact Hs.
Qed.

(** Which days are retained, for a threshold that is not negative. *)
Lemma retained_iff (df : DataFrame) (max_gap_days : Z) (out : DataFrame) :
  observation_set idx df -> rows df <> [] -> (0 <= max_gap_days)%Z ->
  fst (fill_gaps idx cs cv df max_gap_days) = Ok out ->
  (forall d, present out d <->
       observed_on df d \/ exists k, missing_run df d k /\ (k <= max_gap_days)%Z)
  /\ (forall d, missing_run df d max_gap_days -> present out d)
  /\ (forall d, missing_run df d (max_gap_days + 1) -> ~ present out d).
Proof.
  intros Hobs Hne Hmg H.
  assert (Hiff : forall d, present out d <->
       observed_on df d \/ exists k, missing_run df d k /\ (k <= max_gap_days)%Z).
  { intro d. split.
    - apply present_cases; assumption.
    - intros [Ho | (k & Hrun & Hk)].
      + destruct Ho as (r & Hr & Hd & _).
        destruct (observation_retained idx cs cv df max_gap_days out r Hobs Hmg H Hr)
          as (r' & Hr' & Hd' & _).
        exists r'. split; [exact Hr' | congruence].
      + eapply run_retained; eauto. }
  split; [exact Hiff |]. split.
  - intros d Hrun. apply Hiff. right. exists max_gap_days. split; [exact Hrun | lia].
  - intros d Hrun Hp. apply Hiff in Hp. destruct Hp as [Ho | (k & Hrun' & Hk)].
    + destruct Hrun as (a & b & Hd & _ & _ & Hnone & _). apply (Hnone d Hd Ho).
    + pose proof (missing_run_unique df d _ _ Hrun Hrun'). lia.
Qed.

End Runs.

(* ================================================================== *)
(** * Filling *)
(* ================================================================== *)

Section Filling.

Variable idx : Index.
Variable cs : list (nat * Qc) -> nat -> Qc.
Variable cv : Z -> list (option Qc) -> nat -> option Qc.

Lemma count_valid_In col v : In (Some v) col -> count_valid col <> 0%nat.
Proof.
  intro H. unfold count_valid.
  assert (Hin : In (Some v) (filter (fun c => negb (isnull c)) col))
    by (apply filter_In; split; [exact H | reflexivity]).
  destruct (filter (fun c => negb (isnull c)) col); [destruct Hin | discriminate].
Qed.

Lemma weights_of_length gaps sizes mg :
  List.length sizes = List.length gaps ->
  List.length (weights_of gaps sizes mg) = List.length gaps.
Proof. intro H. unfold weights_of. rewrite map2_length. lia. Qed.

(** The solve of the smoothing step never fails on an Observation set. *)
Lemma solve_succeeds_holds df mg :
  observation_set idx df -> rows df <> [] -> solve_succeeds df mg.
Proof.
  intros Hobs Hne smoothed H.
  destruct (calendar_first df Hne) as (b0 & rest & Ec & Hb0).
  pose proof (sorted_input_means idx df Hobs b0 Hb0) as Hm.
  eapply smooth_means_filled; [| | | exact H].
  - destruct (idx_mean b0) as [v |] eqn:Ev; [| congruence].
    apply (count_valid_In _ v). rewrite Ec. simpl. left. exact Ev.
  - rewrite weights_of_length by (rewrite gap_sizes_of_length; reflexivity).
    unfold gaps_of. rewrite !length_map. reflexivity.
  - apply weights_of_binary.
Qed.

(** Claim C2, amended: for a threshold that is not negative.  For a
    non-empty Observation set, whenever [fill_gaps] returns: a day (of any
    kind, so also one strictly between the first and the last date) has a
    row in the output if and only if it is observed or lies in a maximal run
    of missing days of length at most [max_gap_days]; a run of exactly
    [max_gap_days] days is retained, a run of [max_gap_days + 1] days is
    dropped entirely; and every retained row has a mean, so the retained
    missing days are filled. *)
Theorem retained_iff_short_run (df : DataFrame) (max_gap_days : Z)
    (out : DataFrame) :
  observation_set idx df -> rows df <> [] -> (0 <= max_gap_days)%Z ->
  fst (fill_gaps idx cs cv df max_gap_days) = Ok out ->
  (forall d, present out d <->
       observed_on df d
       \/ exists k, missing_run df d k /\ (k <= max_gap_days)%Z)
  /\ (forall d, missing_run df d max_gap_days -> present out d)
  /\ (forall d, missing_run df d (max_gap_days + 1) -> ~ present out d)
  /\ (forall r', In r' (rows out) -> idx_mean r' <> None).
Proof.
  intros Hobs Hne Hmg H.
  destruct (retained_iff idx cs cv df max_gap_days out Hobs Hne Hmg H)
    as (H1 & H2 & H3).
  repeat split; try assumption; try (apply H1).
  apply (filled_rows idx cs cv df max_gap_days out Hobs Hne H).
  apply solve_succeeds_holds; assumption.
Qed.

(** ** Frames without secondary statistics are always filled *)

Lemma has_column_merged c df :
  has_column c (merged_frame df) = (String.eqb c "date" || has_column c df)%bool.
Proof.
  unfold merged_frame, merge_left, has_column. cbn [columns existsb].
  destruct (String.eqb c "date") eqn:E; [reflexivity |]. cbn [orb].
  induction (columns df) as [| c' l IH]; [reflexivity |].
  cbn [filter existsb].
  destruct (String.eqb c' "date") eqn:E'; cbn [negb existsb].
  - apply String.eqb_eq in E'. subst c'. rewrite E. exact IH.
  - rewrite IH. reflexivity.
Qed.

Lemma fill_gaps_returns df mg :
  observation_set idx df -> rows df <> [] ->
  has_column (min_col idx) df = false -> min_col idx <> "date"%string ->
  has_column (max_col idx) df = false -> max_col idx <> "date"%string ->
  has_column (stdDev_col idx) df = false -> stdDev_col idx <> "date"%string ->
  exists out, fst (fill_gaps idx cs cv df mg) = Ok out.
Proof.
  intros Hobs Hne Hmin Dmin Hmax Dmax Hstd Dstd.
  pose proof (solve_succeeds_holds df mg Hobs Hne) as Hs.
  destruct Hobs as (Hdate & Hmean & Hall).
  rewrite fill_gaps_nonempty by assumption. cbn [fst].
  unfold fill_gaps_body.
  rewrite !has_column_merged.
  change (has_column (mean_col idx) (dates_to_datetime df))
    with (has_column (mean_col idx) df).
  change (has_column (min_col idx) (dates_to_datetime df))
    with (has_column (min_col idx) df).
  change (has_column (max_col idx) (dates_to_datetime df))
    with (has_column (max_col idx) df).
  change (has_column (stdDev_col idx) (dates_to_datetime df))
    with (has_column (stdDev_col idx) df).
  rewrite Hmean, Hmin, Hmax, Hstd, orb_true_r. cbn [negb].
  apply String.eqb_neq in Dmin, Dmax, Dstd. rewrite Dmin, Dmax, Dstd. cbn [orb].
  destruct (existsb (fun g => g)
              (map (fun r => isnull (idx_mean r)) (rows (merged_frame (dates_to_datetime df)))));
    cbn [negb]; [| eexists; reflexivity].
  unfold solve_succeeds in Hs. unfold calendar_rows, gaps_of in Hs.
  rewrite <- merged_frame_rows in Hs.
  destruct (smooth_means _ _) as [smoothed | e] eqn:Es.
  - cbn [bind interpolate_column]. eexists; reflexivity.
  - exfalso. unfold smooth_means in Es.
    destruct (series_mean _) as [m |]; [| discriminate].
    unfold whittaker_smooth in Es.
    rewrite length_map in Es.
    rewrite weights_of_length in Es
      by (rewrite gap_sizes_of_length; reflexivity).
    rewrite !length_map, Nat.eqb_refl in Es. discriminate.
Qed.

End Filling.

(* ================================================================== *)
(** * The caller's frame *)
(* ================================================================== *)


Lemma conv_timestamped r : timestamped (conv r).
Proof. unfold timestamped. destruct r as [[d | d] ? ? ? ? ? ?]; reflexivity. Qed.

Lemma conv_fixed r : timestamped r -> conv r = r.
Proof.
  unfold timestamped, conv, set_date, to_datetime, row_day.
  destruct r as [c ? ? ? ? ? ?]; simpl. intros ->. reflexivity.
Qed.

Lemma dates_to_datetime_fixed df :
  Forall timestamped (rows df) -> dates_to_datetime df = df.
Proof.
  intro H. destruct df as [cols rs]. unfold dates_to_datetime. simpl in *.
  f_equal. induction H as [| r l Hr _ IH]; [reflexivity |].
  simpl. f_equal; [apply conv_fixed; exact Hr | exact IH].
Qed.

Lemma conv_content r : row_content (conv r) = row_content r.
Proof. destruct r as [[d | d] ? ? ? ? ? ?]; reflexivity. Qed.

Section Frame.

Variable idx : Index.
Variable cs : list (nat * Qc) -> nat -> Qc.
Variable cv : Z -> list (option Qc) -> nat -> option Qc.

Lemma fill_gaps_input_after df mg :
  snd (fill_gaps idx cs cv df mg)
  = if (empty df || negb (has_column "date" df))%bool then df
    else dates_to_datetime df.
Proof.
  unfold fill_gaps. destruct (empty df); [reflexivity |].
  destruct (has_column "date" df); reflexivity.
Qed.

Lemma validate_results_input_after df :
  snd (validate_results idx df)
  = if (empty df || negb (has_column "date" df))%bool then df
    else dates_to_datetime df.
Proof.
  unfold validate_results. destruct (empty df); [reflexivity |].
  destruct (has_column "date" df); [| reflexivity]. cbn [negb orb].
  destruct (has_column (mean_col idx) (dates_to_datetime df)); reflexivity.
Qed.

Lemma calendar_timestamped l range :
  Forall timestamped l -> Forall timestamped (flat_map (merge_day l) range).
Proof.
  intro H. rewrite Forall_forall in *. intros b Hb.
  apply in_flat_map in Hb. destruct Hb as (d & _ & Hb).
  destruct (merge_day_cases _ _ _ Hb) as [[-> _] | [Hin _]]; [reflexivity | auto].
Qed.

Lemma mask_filter_Forall {A} (P : A -> Prop) m (l : list A) :
  Forall P l -> Forall P (mask_filter m l).
Proof.
  intro H. rewrite Forall_forall in *. intros a Ha.
  apply mask_filter_In in Ha. destruct Ha as (i & _ & Hi).
  apply H. eapply nth_error_In; eauto.
Qed.

(** The series [fill_gaps] returns holds timestamps only. *)
Lemma fill_gaps_output_timestamped df mg out :
  fst (fill_gaps idx cs cv df mg) = Ok out ->
  empty out = true \/ Forall timestamped (rows out).
Proof.
  intro H. unfold fill_gaps in H.
  destruct (empty df) eqn:E.
  { cbn [fst] in H. injection H as <-. left. exact E. }
  destruct (has_column "date" df); cbn [negb fst] in H; [| discriminate].
  right. apply fill_gaps_body_ok in H. cbv zeta in H.
  assert (Hbase : Forall timestamped (rows (merged_frame (dates_to_datetime df)))).
  { rewrite merged_frame_rows. apply calendar_timestamped.
    rewrite Forall_forall. intros r Hr. apply sorted_input_In in Hr.
    destruct Hr as (r0 & _ & ->). apply conv_timestamped. }
  destruct H as [[_ ->] | (_ & smoothed & rows5 & _ & F & E')]; [exact Hbase |].
  rewrite E'. apply mask_filter_Forall.
  clear -F Hbase. induction F as [| b r l l' Hbr _ IH]; [constructor |].
  inversion Hbase; subst. constructor; [| apply IH; assumption].
  destruct Hbr as ((D & _) & _). unfold timestamped, row_day in *.
  rewrite D. assumption.
Qed.

(** Claim C9, amended.  A call of [fill_gaps] or of [validate_results]
    leaves the caller's frame as it was or with its [date] column converted
    to timestamps in place; that conversion changes neither the columns nor,
    in any row, the day, a statistic, the cloud cover or the flag, and it
    changes nothing at all when the dates are timestamps already.  So the
    series that [fill_gaps] returned is left unchanged by
    [validate_results]. *)
Theorem only_the_date_column_is_converted (df : DataFrame) (max_gap_days : Z) :
  (snd (fill_gaps idx cs cv df max_gap_days) = df
   \/ snd (fill_gaps idx cs cv df max_gap_days) = dates_to_datetime df)
  /\ (snd (validate_results idx df) = df
      \/ snd (validate_results idx df) = dates_to_datetime df)
  /\ columns (dates_to_datetime df) = columns df
  /\ map row_content (rows (dates_to_datetime df)) = map row_content (rows df)
  /\ (Forall timestamped (rows df) -> dates_to_datetime df = df)
  /\ (forall out, fst (fill_gaps idx cs cv df max_gap_days) = Ok out ->
        snd (validate_results idx out) = out).
Proof.
  split; [| split; [| split; [| split; [| split]]]].
  - rewrite fill_gaps_input_after.
    destruct (empty df || negb (has_column "date" df))%bool; auto.
  - rewrite validate_results_input_after.
    destruct (empty df || negb (has_column "date" df))%bool; auto.
  - reflexivity.
  - rewrite rows_dates_to_datetime, map_map. apply map_ext. apply conv_content.
  - apply dates_to_datetime_fixed.
  - intros out H. rewrite validate_results_input_after.
    destruct (fill_gaps_output_timestamped df max_gap_days out H) as [E | T].
    + rewrite E. reflexivity.
    + destruct (empty out || negb (has_column "date" out))%bool; [reflexivity |].
      apply dates_to_datetime_fixed. exact T.
Qed.

End Frame.

(** Claim C9, as stated: after either call on the end-to-end input, whose
    dates are strings, the caller's frame is not what it was. *)
Lemma input_dates_are_converted_in_place :
  snd (mcari_fill_gaps end_to_end_input 32) <> end_to_end_input
  /\ snd (validate_results MCARI end_to_end_input) <> end_to_end_input.
Proof.
  unfold mcari_fill_gaps.
  rewrite fill_gaps_input_after, validate_results_input_after.
  split; intro H; apply (f_equal (fun df => map date (rows df))) in H;
    cbn in H; discriminate H.
Qed.

(* ================================================================== *)
(** * The examples of the specification *)
(* ================================================================== *)

Open Scope Qc_scope.

(** Claim C7.  On an empty Observation set [fill_gaps] returns the empty
    frame it was given and raises nothing; [validate_results] on an empty
    series returns [(False, ["No valid data found"])] at once: no other
    issue is collected, the [date] column is not converted, and not even a
    missing [date] column is noticed. *)
Theorem empty_input_is_returned_and_rejected :
  forall (idx : Index) (cs : list (nat * Qc) -> nat -> Qc)
         (cv : Z -> list (option Qc) -> nat -> option Qc)
         (cols : list string) (max_gap_days : Z),
    fill_gaps idx cs cv (mkFrame cols []) max_gap_days
      = (Ok (mkFrame cols []), mkFrame cols [])
    /\ validate_results idx (mkFrame cols [])
      = (Ok (false, ["No valid data found"%string]), mkFrame cols []).
Proof. intros. split; reflexivity. Qed.

Lemma end_to_end_days :
  out_days (fst (mcari_fill_gaps end_to_end_input 32))
  = [0; 1; 2; 3; 4; 5; 6; 7; 8; 9; 10; 50]%Z.
Proof. vm_compute. reflexivity. Qed.

(** Claim C4, as stated: the output of the end-to-end example does not
    hold the days 0 to 42 (day 11 is not in it). *)
Lemma end_to_end_days_11_to_42_absent :
  ~ (forall d, (0 <= d <= 42)%Z ->
       In d (out_days (fst (mcari_fill_gaps end_to_end_input 32)))).
Proof.
  intro H. rewrite end_to_end_days in H.
  assert (H1 : (0 <= 11 <= 42)%Z) by lia.
  specialize (H 11%Z H1). simpl in H.
  repeat (destruct H as [H | H]; [discriminate H |]).
  exact H.
Qed.

(** Claim C4, amended.  For observations on days 0 (0.3), 10 (0.5) and
    50 (0.4) and a threshold of 32, the output holds the days 0 to 10 and
    day 50 and nothing else: days 1 to 9 are filled and flagged, the whole
    39-day run of days 11 to 49 is dropped, and days 0, 10 and 50 carry the
    observed means and no flag. *)
Theorem end_to_end_example :
  exists out,
    fst (mcari_fill_gaps end_to_end_input 32) = Ok out
    /\ map (fun r => (row_day r, isInterpolated r, isnull (idx_mean r))) (rows out)
       = [(0, false, false); (1, true, false); (2, true, false); (3, true, false);
          (4, true, false); (5, true, false); (6, true, false); (7, true, false);
          (8, true, false); (9, true, false); (10, false, false);
          (50, false, false)]%Z
    /\ map idx_mean (rows_on out 0) = [Some (qfrac 3 10)]
    /\ map idx_mean (rows_on out 10) = [Some (qfrac 1 2)]
    /\ map idx_mean (rows_on out 50) = [Some (qfrac 2 5)].
Proof.
  eexists. split; [vm_compute; reflexivity |].
  repeat split; vm_compute; reflexivity.
Qed.

(** Claim C5, at the failing input.  Three observations with all four
    statistics over a 40-day window, threshold 32: the mean is filled by the
    smoother alone, and then the cubic interpolation of the [MCARI_min]
    column, which has three values only, raises [ValueError].  This holds
    whatever the spline and the interpolant compute: neither is reached. *)
Theorem three_full_observations_raise :
  forall (cs : list (nat * Qc) -> nat -> Qc)
         (cv : Z -> list (option Qc) -> nat -> option Qc),
    fst (fill_gaps MCARI cs cv three_observations_full 32)
    = Raise (ValueError "The number of derivatives at boundaries does not match").
Proof. intros. vm_compute. reflexivity. Qed.

(** The same three observations without the secondary columns: the call
    returns, does not depend on the spline, and keeps the three means. *)
Lemma three_mean_observations_filled :
  (forall (cs : list (nat * Qc) -> nat -> Qc)
          (cv : Z -> list (option Qc) -> nat -> option Qc),
      fst (fill_gaps MCARI cs cv three_observations_mean 32)
      = fst (mcari_fill_gaps three_observations_mean 32))
  /\ exists out,
      fst (mcari_fill_gaps three_observations_mean 32) = Ok out
      /\ List.length (rows out) = 40%nat
      /\ map idx_mean (rows_on out 0) = [Some (qfrac 3 10)]
      /\ map idx_mean (rows_on out 20) = [Some (qfrac 1 2)]
      /\ map idx_mean (rows_on out 39) = [Some (qfrac 2 5)]
      /\ map isInterpolated (rows_on out 0 ++ rows_on out 20 ++ rows_on out 39)
         = [false; false; false].
Proof.
  split; [intros; vm_compute; reflexivity |].
  eexists. split; [vm_compute; reflexivity |].
  repeat split; vm_compute; reflexivity.
Qed.

(** Claim C3, as stated: for observations 0, 1 and 0 on days 0, 1 and 3 the
    smoothing step gets [x = [0; 1; 1/3; 0]] and [w = [1; 1; 0; 1]].  The
    three observed values do not lie on a line, so no sequence passes through
    them without roughness, and what the smoother returns at the observed
    position 1 is not within the tolerance of 1. *)
Lemma smoother_moves_observed_values :
  exists z,
    whittaker_smooth bent_series bent_weights default_lambda = Ok z
    /\ ~ reproduces_observed solver_tolerance bent_series bent_weights z.
Proof.
  eexists. split; [vm_compute; reflexivity |].
  intro H. destruct (H 1%nat eq_refl) as [zi [E L]].
  simpl in E. injection E as E. subst zi.
  revert L. apply Qclt_not_le. vm_compute. reflexivity.
Qed.


(** Claim C2, as stated: with observations on days 0, 1 and 3 and a
    threshold of -1, day 1 is observed and lies strictly between the first
    and the last date, yet the output has no row at all. *)
Lemma negative_threshold_drops_observations :
  exists out,
    fst (mcari_fill_gaps one_missing_day (-1)) = Ok out
    /\ observed_on one_missing_day 1
    /\ (date_min (rows one_missing_day) < 1 < date_max (rows one_missing_day))%Z
    /\ ~ present out 1.
Proof.
  eexists. split; [vm_compute; reflexivity |].
  split; [| split].
  - exists (obs_mean 1 1). split; [simpl; auto |]. split; [reflexivity | discriminate].
  - vm_compute. split; reflexivity.
  - intros (r & Hr & _). exact Hr.
Qed.

(* ================================================================== *)
(** * The theorems at sample inputs *)
(* ================================================================== *)

Lemma mean_only_observation_set (l : list Row) :
  l <> [] ->
  Forall (fun r => idx_mean r <> None /\ is_interpolated r = None) l ->
  observation_set MCARI (mkFrame mean_only_columns l).
Proof.
  intros _ H. split; [reflexivity |]. split; [reflexivity | exact H].
Qed.


Lemma retained_iff_short_run_witness :
  (forall d, present one_missing_day_filled d <->
       observed_on one_missing_day d
       \/ exists k, missing_run one_missing_day d k /\ (k <= 32)%Z)
  /\ (forall d, missing_run one_missing_day d 32 -> present one_missing_day_filled d)
  /\ (forall d, missing_run one_missing_day d (32 + 1) ->
        ~ present one_missing_day_filled d)
  /\ (forall r', In r' (rows one_missing_day_filled) -> idx_mean r' <> None).
Proof.
  apply (retained_iff_short_run MCARI Scipy.CubicSpline_natural
           Scipy.pandas_cubic_value one_missing_day 32 one_missing_day_filled).
  - apply mean_only_observation_set; [discriminate |].
    repeat constructor; discriminate.
  - discriminate.
  - lia.
  - vm_compute. reflexivity.
Defined.

Lemma binary_weights_sample : binary_weights [1; 0; 1].
Proof.
  constructor; [right; reflexivity |].
  constructor; [left; reflexivity |].
  constructor; [right; reflexivity | constructor].
Qed.

Lemma smoother_normal_equations_witness :
  exists z,
    whittaker_smooth [1; 1; 1] [1; 0; 1] default_lambda = Ok (map Some z)
    /\ List.length z = List.length [1; 1; 1]
    /\ mat_vec (whittaker_matrix (List.length [1; 1; 1]) [1; 0; 1] default_lambda) z
       = map2 Qcmult [1; 0; 1] [1; 1; 1]
    /\ (forall z', List.length z' = List.length [1; 1; 1] ->
          mat_vec (whittaker_matrix (List.length [1; 1; 1]) [1; 0; 1] default_lambda) z'
            = map2 Qcmult [1; 0; 1] [1; 1; 1] ->
          z' = z)
    /\ (forall i,
          nth i [1; 0; 1] 0 * nth i z 0
          + default_lambda
            * nth i (mat_vec (penalty_matrix (List.length [1; 1; 1])) z) 0
          = nth i [1; 0; 1] 0 * nth i [1; 1; 1] 0)
    /\ (forall i, nth i [1; 0; 1] 0 = 1 ->
          nth i z 0
          = nth i [1; 1; 1] 0
            - default_lambda
              * nth i (mat_vec (penalty_matrix (List.length [1; 1; 1])) z) 0)
    /\ (forall i, nth i [1; 0; 1] 0 = 0 ->
          nth i (mat_vec (penalty_matrix (List.length [1; 1; 1])) z) 0 = 0).
Proof.
  apply (smoother_normal_equations [1; 1; 1] [1; 0; 1]).
  - reflexivity.
  - exact binary_weights_sample.
Defined.

Lemma placeholders_do_not_matter_witness :
  whittaker_smooth [1; 1; 1] [1; 0; 1] default_lambda
  = whittaker_smooth [1; Qc_of_Z 5; 1] [1; 0; 1] default_lambda.
Proof.
  apply (placeholders_do_not_matter [1; 1; 1] [1; Qc_of_Z 5; 1] [1; 0; 1]
           default_lambda).
  - reflexivity.
  - exact binary_weights_sample.
  - intros i H. destruct i as [| [| [| [| i]]]]; simpl in H |- *;
      try reflexivity; exfalso; exact (Qclt_not_eq 0 1 eq_refl H).
Defined.

Lemma output_dates_strictly_increasing_witness :
  strictly_increasing (map row_day (rows end_to_end_filled)).
Proof.
  apply (output_dates_strictly_increasing MCARI Scipy.CubicSpline_natural
           Scipy.pandas_cubic_value end_to_end_input 32 end_to_end_filled).
  - reflexivity.
  - unfold unique_dates. simpl.
    constructor; [simpl; intros [H | [H | []]]; discriminate H |].
    constructor; [simpl; intros [H | []]; discriminate H |].
    constructor; [intros [] | constructor].
  - vm_compute. reflexivity.
Defined.

Lemma observations_retained_witness :
  (forall r, In r (rows one_missing_day) ->
     exists r', In r' (rows one_missing_day_filled) /\ row_day r' = row_day r
                /\ idx_mean r' = idx_mean r /\ isInterpolated r' = false)
  /\ (forall d, observed_on one_missing_day d -> present one_missing_day_filled d)
  /\ (exists first, hd_error (rows one_missing_day_filled) = Some first
                    /\ real_observation_row one_missing_day first)
  /\ (exists pre final, rows one_missing_day_filled = pre ++ [final]
                        /\ real_observation_row one_missing_day final).
Proof.
  apply (observations_retained MCARI Scipy.CubicSpline_natural
           Scipy.pandas_cubic_value one_missing_day 32 one_missing_day_filled).
  - apply mean_only_observation_set; [discriminate |].
    repeat constructor; discriminate.
  - discriminate.
  - lia.
  - vm_compute. reflexivity.
Defined.

Lemma only_the_date_column_is_converted_witness :
  snd (validate_results MCARI two_observations_filled) = two_observations_filled.
Proof.
  apply (proj2 (proj2 (proj2 (proj2 (proj2
           (only_the_date_column_is_converted MCARI Scipy.CubicSpline_natural
              Scipy.pandas_cubic_value two_observations 32)))))).
  vm_compute. reflexivity.
Defined.

Close Scope Qc_scope.

(* ================================================================== *)
(** * The sizes of the gaps *)
(* ================================================================== *)

(** Property X1.  Lines 80-82, [gaps.ne(gaps.shift()).cumsum()] and
    [groupby(...).transform('size') * gaps]: in a mask that holds a run of
    [k + 1] gaps between a part [X] that does not end with a gap and a part
    [Y] that does not begin with one, the gap size is [k + 1] at every
    position of the run; and in any mask it is 0 at every position that is
    not a gap. *)
Theorem gap_size_is_the_run_length (X Y : list bool) (k : nat) :
  last_seen None X <> Some true -> hd false Y = false ->
  let gaps := X ++ repeat true (S k) ++ Y in
  (forall i, (List.length X <= i < List.length X + S k)%nat ->
     nth i (gap_sizes_of gaps) 0%nat = S k)
  /\ (forall i, nth i gaps false = false -> nth i (gap_sizes_of gaps) 0%nat = 0%nat).
Proof.
  intros HX HY gaps. split.
  - intros i Hi. apply gap_sizes_run; assumption.
  - intros i Hi. apply gap_sizes_observed. exact Hi.
Qed.


(* ================================================================== *)
(** * Sorting by date, and the observed rows of the calendar *)
(* ================================================================== *)

(** ** Sorting by date *)

Lemma insert_by_date_days r l :
  StronglySorted Z.le (map row_day l) ->
  StronglySorted Z.le (map row_day (insert_by_date r l)).
Proof.
  induction l as [| a l IH]; intro H; simpl.
  - constructor; constructor.
  - inversion H as [| ? ? Hs Hall]; subst.
    destruct (row_day r <=? row_day a)%Z eqn:E.
    + apply Z.leb_le in E. simpl. constructor; [exact H |].
      constructor; [exact E |].
      eapply Forall_impl; [| exact Hall]. intros; lia.
    + apply Z.leb_gt in E. simpl. constructor; [apply IH; exact Hs |].
      rewrite Forall_forall. intros d Hd.
      apply in_map_iff in Hd. destruct Hd as (x & <- & Hx).
      apply (Permutation_in _ (insert_by_date_perm r l)) in Hx.
      destruct Hx as [<- | Hx]; [lia |].
      rewrite Forall_forall in Hall. apply Hall. apply in_map. exact Hx.
Qed.

Lemma sort_values_date_days l :
  StronglySorted Z.le (map row_day (sort_values_date l)).
Proof.
  induction l as [| a l IH]; simpl; [constructor |].
  apply insert_by_date_days. exact IH.
Qed.

Lemma sorted_days_unique (l1 l2 : list Z) :
  StronglySorted Z.le l1 -> StronglySorted Z.le l2 -> Permutation l1 l2 -> l1 = l2.
Proof.
  revert l2; induction l1 as [| a l1 IH]; intros l2 H1 H2 P.
  - apply Permutation_nil in P. congruence.
  - destruct l2 as [| b l2]; [apply Permutation_sym, Permutation_nil in P; discriminate |].
    inversion H1 as [| ? ? S1 A1]; inversion H2 as [| ? ? S2 A2]; subst.
    assert (a = b).
    { assert (Ha : In a (b :: l2)) by (eapply Permutation_in; [exact P | left; auto]).
      assert (Hb : In b (a :: l1))
        by (eapply Permutation_in; [apply Permutation_sym; exact P | left; auto]).
      rewrite Forall_forall in A1, A2.
      destruct Ha as [-> | Ha]; [reflexivity |].
      destruct Hb as [-> | Hb]; [reflexivity |].
      specialize (A1 _ Hb). specialize (A2 _ Ha). lia. }
    subst b. f_equal. apply IH; auto.
    eapply Permutation_cons_inv; eauto.
Qed.

Lemma sorted_rows_unique (l1 l2 : list Row) :
  StronglySorted Z.le (map row_day l1) -> StronglySorted Z.le (map row_day l2) ->
  Permutation l1 l2 -> NoDup (map row_day l1) -> l1 = l2.
Proof.
  revert l2; induction l1 as [| a l1 IH]; intros l2 H1 H2 P N.
  - apply Permutation_nil in P. congruence.
  - destruct l2 as [| b l2]; [apply Permutation_sym, Permutation_nil in P; discriminate |].
    simpl in H1, H2.
    inversion H1 as [| ? ? S1 A1]; inversion H2 as [| ? ? S2 A2]; subst.
    assert (a = b).
    { assert (Ha : In a (b :: l2)) by (eapply Permutation_in; [exact P | left; auto]).
      assert (Hb : In b (a :: l1))
        by (eapply Permutation_in; [apply Permutation_sym; exact P | left; auto]).
      apply (NoDup_map_inj row_day (a :: l1)); auto; [left; reflexivity |].
      rewrite Forall_forall in A1, A2.
      destruct Ha as [-> | Ha]; [reflexivity |].
      destruct Hb as [-> | Hb]; [reflexivity |].
      specialize (A1 _ (in_map row_day _ _ Hb)).
      specialize (A2 _ (in_map row_day _ _ Ha)). lia. }
    subst b. f_equal. apply IH; auto.
    + eapply Permutation_cons_inv; eauto.
    + simpl in N. inversion N; assumption.
Qed.

Lemma sort_values_date_fixed l :
  StronglySorted Z.le (map row_day l) -> sort_values_date l = l.
Proof.
  induction l as [| a l IH]; intro H; [reflexivity |].
  simpl in H. inversion H as [| ? ? Hs Hall]; subst.
  simpl. rewrite (IH Hs).
  destruct l as [| b l]; [reflexivity |].
  simpl. inversion Hall as [| ? ? Hab _]; subst.
  apply Z.leb_le in Hab. rewrite Hab. reflexivity.
Qed.

Lemma insert_by_date_conv r l :
  insert_by_date (conv r) (map conv l) = map conv (insert_by_date r l).
Proof.
  induction l as [| a l IH]; [reflexivity |].
  simpl. rewrite !conv_day.
  destruct (row_day r <=? row_day a)%Z; [reflexivity |].
  simpl. rewrite IH. reflexivity.
Qed.

Lemma sort_values_date_conv l :
  sort_values_date (map conv l) = map conv (sort_values_date l).
Proof.
  induction l as [| a l IH]; [reflexivity |].
  simpl. rewrite IH. apply insert_by_date_conv.
Qed.

(** ** The observed rows of the calendar *)

Lemma filter_all {A} (f : A -> bool) (l : list A) :
  (forall a, In a l -> f a = true) -> filter f l = l.
Proof.
  induction l as [| a l IH]; intro H; [reflexivity |].
  simpl. rewrite (H a) by (left; reflexivity). f_equal. apply IH.
  intros; apply H; right; assumption.
Qed.

Lemma filter_none {A} (f : A -> bool) (l : list A) :
  (forall a, In a l -> f a = false) -> filter f l = [].
Proof.
  induction l as [| a l IH]; intro H; [reflexivity |].
  simpl. rewrite (H a) by (left; reflexivity). apply IH.
  intros; apply H; right; assumption.
Qed.

Lemma observed_calendar_rows (L : list Row) (range : list Z) :
  (forall r, In r L -> idx_mean r <> None) ->
  filter has_mean (flat_map (merge_day L) range)
  = flat_map (fun d => filter (fun r => (row_day r =? d)%Z) L) range.
Proof.
  intro HL. induction range as [| d range IH]; [reflexivity |].
  simpl. rewrite filter_app, IH. f_equal.
  unfold merge_day.
  destruct (filter (fun r => (row_day r =? d)%Z) L) as [| m ms] eqn:E; [reflexivity |].
  apply filter_all. intros a Ha.
  assert (Hin : In a L).
  { rewrite <- E in Ha. apply filter_In in Ha. tauto. }
  unfold has_mean. specialize (HL a Hin). destruct (idx_mean a); [reflexivity | congruence].
Qed.

Lemma sorted_split_first (L : list Row) (lo : Z) :
  StronglySorted Z.le (map row_day L) ->
  (forall r, In r L -> (lo <= row_day r)%Z) ->
  exists L1 L2, L = L1 ++ L2
    /\ (forall r, In r L1 -> row_day r = lo)
    /\ (forall r, In r L2 -> (lo < row_day r)%Z).
Proof.
  induction L as [| a L IH]; intros Hs Hlo.
  - exists [], []. repeat split; intros r [].
  - simpl in Hs. inversion Hs as [| ? ? Hs' Hall]; subst.
    destruct (Z.eq_dec (row_day a) lo) as [E | N].
    + destruct (IH Hs') as (L1 & L2 & -> & H1 & H2).
      { intros; apply Hlo; right; assumption. }
      exists (a :: L1), L2. repeat split; auto.
      intros r [<- | Hr]; auto.
    + exists [], (a :: L). repeat split; [intros r [] |].
      assert (lo < row_day a)%Z by (specialize (Hlo a (or_introl eq_refl)); lia).
      intros r [<- | Hr]; auto.
      rewrite Forall_forall in Hall. specialize (Hall _ (in_map row_day _ _ Hr)). lia.
Qed.

Lemma pd_date_range_cons lo hi :
  (lo <= hi)%Z -> pd_date_range lo hi = lo :: pd_date_range (lo + 1) hi.
Proof.
  intro H. rewrite (pd_date_range_split lo lo hi) by lia.
  rewrite pd_date_range_single. reflexivity.
Qed.

Lemma pd_date_range_empty lo hi : (hi < lo)%Z -> pd_date_range lo hi = [].
Proof.
  intro H. unfold pd_date_range. replace (Z.to_nat (hi - lo + 1)) with 0%nat by lia.
  reflexivity.
Qed.

Lemma StronglySorted_app_r {A} (R : A -> A -> Prop) (l1 l2 : list A) :
  StronglySorted R (l1 ++ l2) -> StronglySorted R l2.
Proof.
  induction l1 as [| a l1 IH]; intro H; [exact H |].
  simpl in H. inversion H; subst. apply IH; assumption.
Qed.

Lemma flat_map_ext_In {A B} (f g : A -> list B) (l : list A) :
  (forall a, In a l -> f a = g a) -> flat_map f l = flat_map g l.
Proof.
  induction l as [| a l IH]; intro H; [reflexivity |].
  simpl. rewrite (H a) by (left; reflexivity). f_equal. apply IH.
  intros; apply H; right; assumption.
Qed.

Lemma calendar_of_sorted (n : nat) : forall (L : list Row) (lo hi : Z),
  Z.to_nat (hi - lo + 1) = n ->
  StronglySorted Z.le (map row_day L) ->
  (forall r, In r L -> (lo <= row_day r <= hi)%Z) ->
  flat_map (fun d => filter (fun r => (row_day r =? d)%Z) L) (pd_date_range lo hi) = L.
Proof.
  induction n as [| n IH]; intros L lo hi Hn Hs Hr.
  - rewrite pd_date_range_empty by lia. simpl.
    destruct L as [| a L]; [reflexivity |].
    specialize (Hr a (or_introl eq_refl)). lia.
  - rewrite pd_date_range_cons by lia. simpl.
    destruct (sorted_split_first L lo Hs) as (L1 & L2 & -> & H1 & H2).
    { intros r Hin. apply Hr; assumption. }
    rewrite filter_app.
    rewrite (filter_all _ L1) by (intros a Ha; apply Z.eqb_eq; auto).
    rewrite (filter_none _ L2)
      by (intros a Ha; apply Z.eqb_neq; specialize (H2 a Ha); lia).
    rewrite app_nil_r. f_equal.
    transitivity (flat_map (fun d => filter (fun r => (row_day r =? d)%Z) L2)
                           (pd_date_range (lo + 1) hi)).
    { apply flat_map_ext_In.
      intros d Hd. apply pd_date_range_In in Hd.
      rewrite filter_app.
      rewrite (filter_none _ L1); [reflexivity |].
      intros a Ha. apply Z.eqb_neq. rewrite (H1 a Ha). lia. }
    apply IH.
    + lia.
    + rewrite map_app in Hs. eapply StronglySorted_app_r; eauto.
    + intros r Hin. specialize (H2 r Hin).
      specialize (Hr r (in_or_app _ _ _ (or_intror Hin))). lia.
Qed.

Lemma calendar_observed_rows idx df :
  observation_set idx df ->
  filter has_mean (calendar_rows df) = sorted_input df.
Proof.
  intro Hobs. unfold calendar_rows.
  rewrite observed_calendar_rows by (apply (sorted_input_means idx df Hobs)).
  eapply calendar_of_sorted; [reflexivity | apply sort_values_date_days |].
  intros r Hr. split; [apply date_min_le | apply date_max_ge]; exact Hr.
Qed.

(* ================================================================== *)
(** * What the gap filler returns *)
(* ================================================================== *)

Lemma existsb_map_false {A} (f : A -> bool) (l : list A) :
  (forall a, In a l -> f a = false) -> existsb (fun g => g) (map f l) = false.
Proof.
  induction l as [| a l IH]; intro H; [reflexivity |].
  simpl. rewrite (H a) by (left; reflexivity). apply IH.
  intros; apply H; right; assumption.
Qed.

Lemma filter_length_split {A} (f : A -> bool) (l : list A) :
  List.length l
  = (List.length (filter (fun a => negb (f a)) l) + List.length (filter f l))%nat.
Proof.
  induction l as [| a l IH]; [reflexivity |].
  simpl. destruct (f a); simpl; lia.
Qed.

Lemma Forall2_of_nth_error {A B} (R : A -> B -> Prop) (l : list A) (m : list B) :
  List.length l = List.length m ->
  (forall i a b, nth_error l i = Some a -> nth_error m i = Some b -> R a b) ->
  Forall2 R l m.
Proof.
  revert m; induction l as [| a l IH]; intros [| b m] Hl H; simpl in Hl;
    try discriminate; constructor.
  - apply (H 0%nat); reflexivity.
  - apply IH; [lia |]. intros i a' b' Ha Hb. apply (H (S i)); assumption.
Qed.

Section Accounting.

Variable idx : Index.
Variable cs : list (nat * Qc) -> nat -> Qc.
Variable cv : Z -> list (option Qc) -> nat -> option Qc.

(** The rows of the output that are not flagged, against the observed rows
    of the calendar. *)
Lemma unflagged_of_calendar (P : Prop) :
  forall cal rows5 mask,
  Forall2 (from_calendar P) cal rows5 ->
  Forall2 (fun b (k : bool) => idx_mean b <> None -> k = true) cal mask ->
  map (fun r => (date r, idx_mean r, cloud_cover r))
      (filter (fun r => negb (isInterpolated r)) (mask_filter mask rows5))
  = map (fun r => (date r, idx_mean r, cloud_cover r)) (filter has_mean cal).
Proof.
  intros cal rows5 mask F. revert mask.
  induction F as [| b r cal rows5 Hbr F IH]; intros mask M.
  - inversion M; subst. reflexivity.
  - inversion M as [| ? k ? mask' Hk M']; subst.
    destruct Hbr as ((D & Km & _ & _ & _ & C) & Hflag & _).
    cbn [mask_filter filter]. unfold has_mean at 1.
    destruct (idx_mean b) as [v |] eqn:Eb; cbn [isnull negb] in *.
    + rewrite (Hk ltac:(discriminate)). cbn [filter]. rewrite Hflag. cbn [negb map].
      rewrite (IH _ M'), D, C, (Km v eq_refl), Eb. reflexivity.
    + destruct k; cbn [filter]; [rewrite Hflag; cbn [negb] |]; apply IH; exact M'.
Qed.

Lemma kept_observed_all df mg :
  (0 <= mg)%Z ->
  Forall2 (fun b (k : bool) => idx_mean b <> None -> k = true)
          (calendar_rows df) (kept_sizes df mg).
Proof.
  intro Hmg. apply Forall2_of_nth_error.
  - symmetry. apply calendar_rows_length_sizes.
  - intros i b k Hb Hk Hm.
    rewrite (kept_observed df mg i b Hmg Hb Hm) in Hk. congruence.
Qed.

(** The rows of the output without the flag are the observations, sorted. *)
Lemma unflagged_rows df mg out :
  observation_set idx df -> rows df <> [] -> (0 <= mg)%Z ->
  fst (fill_gaps idx cs cv df mg) = Ok out ->
  map (fun r => (date r, idx_mean r, cloud_cover r))
      (filter (fun r => negb (isInterpolated r)) (rows out))
  = map (fun r => (date r, idx_mean r, cloud_cover r)) (sorted_input df).
Proof.
  intros Hobs Hne Hmg H.
  destruct (out_rows_filtered idx cs cv df mg out Hobs Hne Hmg H) as (rows5 & F & E).
  rewrite E.
  rewrite (unflagged_of_calendar _ _ _ _ F (kept_observed_all df mg Hmg)).
  rewrite (calendar_observed_rows idx df Hobs). reflexivity.
Qed.

Lemma sorted_input_length df : List.length (sorted_input df) = List.length (rows df).
Proof.
  unfold sorted_input.
  rewrite (Permutation_length (sort_values_date_perm _)).
  rewrite rows_dates_to_datetime. apply length_map.
Qed.

(** Property X5.  For a non-empty Observation set and a threshold that is
    not negative, whenever [fill_gaps] returns: the number of rows of the
    output exceeds the number of rows of the input by exactly the number of
    rows flagged as interpolated, which is what [run_analysis] records as
    [interpolated_points] ([len(df_filled) - len(df)]); and, when the dates
    are unique, the rows without the flag carry, in this order, the dates (as
    timestamps), the means and the cloud covers of the input's rows sorted by
    date. *)
Theorem observations_come_back_sorted (df : DataFrame) (max_gap_days : Z)
    (out : DataFrame) :
  observation_set idx df -> rows df <> [] -> (0 <= max_gap_days)%Z ->
  fst (fill_gaps idx cs cv df max_gap_days) = Ok out ->
  (unique_dates df ->
   map (fun r => (date r, idx_mean r, cloud_cover r))
       (filter (fun r => negb (isInterpolated r)) (rows out))
   = map (fun r => (date r, idx_mean r, cloud_cover r))
         (sort_values_date (rows (dates_to_datetime df))))
  /\ (Z.of_nat (List.length (rows out)) - Z.of_nat (List.length (rows df))
      = Z.of_nat (List.length (filter isInterpolated (rows out))))%Z.
Proof.
  intros Hobs Hne Hmg H.
  pose proof (unflagged_rows df max_gap_days out Hobs Hne Hmg H) as U.
  split; [intros _; exact U |].
  apply (f_equal (@List.length _)) in U. rewrite !length_map in U.
  rewrite sorted_input_length in U.
  rewrite (filter_length_split isInterpolated (rows out)). lia.
Qed.

(** ** No missing day *)

(** Property X4.  When every day between the first and the last date of
    a non-empty Observation set with unique dates is observed, [fill_gaps]
    returns at line 78, whatever the threshold: the rows are the input's,
    sorted by date and with their dates as timestamps, the columns are
    [date] and then the other columns of the input, and no
    [is_interpolated] column is added. *)
Theorem no_missing_day_no_flag_column (df : DataFrame) (max_gap_days : Z) :
  observation_set idx df -> rows df <> [] -> unique_dates df ->
  (forall d, (date_min (rows df) <= d <= date_max (rows df))%Z -> observed_on df d) ->
  fst (fill_gaps idx cs cv df max_gap_days)
  = Ok (mkFrame ("date"%string
                   :: filter (fun c => negb (String.eqb c "date")) (columns df))
                (sort_values_date (rows (dates_to_datetime df)))).
Proof.
  intros Hobs Hne _ Hall.
  pose proof Hobs as (Hdate & Hmean & Hrows).
  rewrite fill_gaps_nonempty by assumption. cbn [fst].
  assert (Hcal : forall b, In b (calendar_rows df) -> idx_mean b <> None).
  { intros b Hb.
    destruct (merged_row_cases _ (sorted_input_means idx df Hobs) _ _ Hb)
      as [Hrange [[Hm _] | [_ [_ Hno]]]]; [exact Hm |].
    exfalso. apply Hno. apply (has_row_observed idx df _ Hobs). apply Hall.
    apply pd_date_range_In in Hrange.
    rewrite date_min_sorted_input, date_max_sorted_input in Hrange by exact Hne.
    exact Hrange. }
  unfold fill_gaps_body.
  rewrite has_column_merged.
  change (has_column (mean_col idx) (dates_to_datetime df))
    with (has_column (mean_col idx) df).
  rewrite Hmean, orb_true_r. cbn [negb].
  rewrite merged_frame_rows. fold (calendar_rows df).
  rewrite existsb_map_false.
  2:{ intros b Hb. specialize (Hcal b Hb). destruct (idx_mean b); [reflexivity | congruence]. }
  cbn [negb]. f_equal.
  assert (E : rows (merged_frame (dates_to_datetime df)) = sorted_input df).
  { rewrite merged_frame_rows. fold (calendar_rows df).
    rewrite <- (calendar_observed_rows idx df Hobs). symmetry. apply filter_all.
    intros b Hb. specialize (Hcal b Hb). unfold has_mean.
    destruct (idx_mean b); [reflexivity | congruence]. }
  unfold sorted_input in E. rewrite <- E. reflexivity.
Qed.

End Accounting.

(* ================================================================== *)
(** * The validator, check by check *)
(* ================================================================== *)

Lemma date_min_conv l : date_min (map conv l) = date_min l.
Proof.
  destruct l as [| r l]; [reflexivity |]. simpl. rewrite conv_day.
  induction l as [| a l IH]; [reflexivity |]. simpl. rewrite conv_day, IH. reflexivity.
Qed.

Lemma date_max_conv l : date_max (map conv l) = date_max l.
Proof.
  destruct l as [| r l]; [reflexivity |]. simpl. rewrite conv_day.
  induction l as [| a l IH]; [reflexivity |]. simpl. rewrite conv_day, IH. reflexivity.
Qed.

Lemma map_day_conv l : map row_day (map conv l) = map row_day l.
Proof. rewrite map_map. apply map_ext. intro; apply conv_day. Qed.

Lemma map_mean_conv l : map idx_mean (map conv l) = map idx_mean l.
Proof. rewrite map_map. apply map_ext. intros []; reflexivity. Qed.

Lemma validate_results_checks idx df :
  empty df = false -> has_column "date" df = true ->
  has_column (mean_col idx) df = true ->
  fst (validate_results idx df)
  = Ok (Nat.eqb (List.length (issues_of idx df)) 0, issues_of idx df).
Proof.
  intros He Hd Hm. unfold validate_results. rewrite He, Hd. cbn [negb].
  change (has_column (mean_col idx) (dates_to_datetime df))
    with (has_column (mean_col idx) df).
  rewrite Hm. cbn [negb fst].
  rewrite rows_dates_to_datetime.
  rewrite map_mean_conv, date_max_conv, date_min_conv, sort_values_date_conv, map_day_conv.
  unfold issues_of, missing_values, unrealistic_values, coverage_days, large_gaps.
  destruct (existsb (row_has_null idx df) (rows df));
    destruct (_ || _); destruct (_ <? 30)%Z; destruct (existsb _ (day_diffs _));
    reflexivity.
Qed.

Lemma not_empty df c : rows df <> [] -> has_column c df = true -> empty df = false.
Proof.
  intros Hr Hc. unfold empty. destruct (rows df); [congruence |].
  unfold has_column in Hc. destruct (columns df); [discriminate | reflexivity].
Qed.

Section Validated.

Variable idx : Index.
Variable cs : list (nat * Qc) -> nat -> Qc.
Variable cv : Z -> list (option Qc) -> nat -> option Qc.

Lemma fill_gaps_body_columns df mg out c :
  fill_gaps_body idx cs cv df mg = Ok out ->
  has_column c (merged_frame df) = true -> has_column c out = true.
Proof.
  intros H Hc. unfold fill_gaps_body in H.
  destruct (has_column (mean_col idx) (merged_frame df)); cbn [negb bind] in H;
    [| discriminate].
  destruct (existsb _ _); cbn [negb] in H; [| injection H as <-; exact Hc].
  destruct (smooth_means _ _) as [smoothed |]; cbn [bind] in H; [| discriminate].
  destruct (interpolate_column cv (has_column (min_col idx) (merged_frame df)) _ _ _ _)
    as [rows2 |]; cbn [bind] in H; [| discriminate].
  destruct (interpolate_column cv (has_column (max_col idx) (merged_frame df)) _ _ _ _)
    as [rows3 |]; cbn [bind] in H; [| discriminate].
  destruct (interpolate_column cv (has_column (stdDev_col idx) (merged_frame df)) _ _ _ _)
    as [rows4 |]; cbn [bind] in H; [| discriminate].
  injection H as <-.
  destruct (has_column "is_interpolated" (merged_frame df)); [exact Hc |].
  unfold has_column in *.
  change (existsb (String.eqb c)
            (columns (merged_frame df) ++ ["is_interpolated"%string]) = true).
  rewrite existsb_app, Hc. reflexivity.
Qed.

Lemma out_has_column df mg out c :
  has_column "date" df = true -> rows df <> [] ->
  fst (fill_gaps idx cs cv df mg) = Ok out ->
  has_column c df = true -> has_column c out = true.
Proof.
  intros Hd Hne H Hc.
  rewrite fill_gaps_nonempty in H by assumption. cbn [fst] in H.
  eapply fill_gaps_body_columns; [exact H |].
  rewrite has_column_merged.
  change (has_column c (dates_to_datetime df)) with (has_column c df).
  rewrite Hc. apply orb_true_r.
Qed.

(** A flagged row of the output was a null row of the calendar. *)
Lemma flagged_row_origin df mg out r :
  observation_set idx df -> rows df <> [] ->
  fst (fill_gaps idx cs cv df mg) = Ok out ->
  In r (rows out) -> isInterpolated r = true ->
  date r = Timestamp (row_day r) /\ cloud_cover r = None
  /\ ~ observed_on df (row_day r).
Proof.
  intros Hobs Hne H Hr Hflag.
  destruct (out_row_origin idx cs cv df mg out r Hobs Hne H Hr)
    as (i & b & Hb & ((D & _ & _ & _ & _ & C) & Hf & _) & _).
  apply nth_error_In in Hb.
  destruct (merged_row_cases _ (sorted_input_means idx df Hobs) _ _ Hb)
    as [_ [[Hm _] | [_ [Eb Hno]]]].
  - rewrite Hflag in Hf. destruct (idx_mean b); [discriminate | congruence].
  - assert (Hday : row_day r = row_day b) by (unfold row_day; rewrite D; reflexivity).
    rewrite Eb in D, C. cbn in D, C. rewrite Hday.
    split; [exact D |]. split; [exact C |].
    intro Ho. apply Hno. apply (has_row_observed idx df _ Hobs). exact Ho.
Qed.

(** Property X11.  What [run_analysis] does at lines 459-462: when the
    input has a [cloud_cover] column and the output of [fill_gaps] has a row
    flagged as interpolated, [validate_results] on that output returns
    [False] and reports "Missing values detected in the data": a filled
    row has no cloud cover. *)
Theorem filled_series_reports_missing_values (df : DataFrame) (max_gap_days : Z)
    (out : DataFrame) :
  observation_set idx df -> has_column "cloud_cover" df = true ->
  fst (fill_gaps idx cs cv df max_gap_days) = Ok out ->
  (exists r, In r (rows out) /\ isInterpolated r = true) ->
  exists issues,
    fst (validate_results idx out) = Ok (false, issues)
    /\ In "Missing values detected in the data"%string issues.
Proof.
  intros Hobs Hcc H (r & Hr & Hflag).
  pose proof Hobs as (Hdate & Hmean & _).
  assert (Hne : rows df <> []).
  { intro E. unfold fill_gaps, empty in H. rewrite E in H. cbn in H.
    injection H as <-. rewrite E in Hr. destruct Hr. }
  assert (Hne' : rows out <> []) by (intro E; rewrite E in Hr; destruct Hr).
  pose proof (out_has_column df max_gap_days out _ Hdate Hne H Hdate) as Od.
  pose proof (out_has_column df max_gap_days out _ Hdate Hne H Hmean) as Om.
  pose proof (out_has_column df max_gap_days out _ Hdate Hne H Hcc) as Oc.
  rewrite (validate_results_checks idx out (not_empty out _ Hne' Od) Od Om).
  destruct (flagged_row_origin df max_gap_days out r Hobs Hne H Hr Hflag)
    as (_ & C & _).
  assert (Hm : missing_values idx out = true).
  { unfold missing_values. apply existsb_exists. exists r. split; [exact Hr |].
    unfold row_has_null. rewrite Oc, C. cbn [isnull andb].
    rewrite orb_true_r. reflexivity. }
  exists (issues_of idx out). unfold issues_of. rewrite Hm.
  split; [reflexivity | left; reflexivity].
Qed.

(** ** The covered period *)

Lemma date_min_unique l m :
  (forall r, In r l -> (m <= row_day r)%Z) -> (exists r, In r l /\ row_day r = m) ->
  date_min l = m.
Proof.
  intros Hle (r & Hr & E).
  assert (Hne : l <> []) by (intro N; rewrite N in Hr; destruct Hr).
  destruct (date_min_In l Hne) as (r0 & H0 & E0).
  pose proof (date_min_le l r Hr). specialize (Hle r0 H0). lia.
Qed.

Lemma date_max_unique l m :
  (forall r, In r l -> (row_day r <= m)%Z) -> (exists r, In r l /\ row_day r = m) ->
  date_max l = m.
Proof.
  intros Hle (r & Hr & E).
  assert (Hne : l <> []) by (intro N; rewrite N in Hr; destruct Hr).
  destruct (date_max_In l Hne) as (r0 & H0 & E0).
  pose proof (date_max_ge l r Hr). specialize (Hle r0 H0). lia.
Qed.

Lemma out_row_in_range df mg out r :
  observation_set idx df -> rows df <> [] ->
  fst (fill_gaps idx cs cv df mg) = Ok out -> In r (rows out) ->
  (date_min (rows df) <= row_day r <= date_max (rows df))%Z.
Proof.
  intros Hobs Hne H Hr.
  destruct (out_row_origin idx cs cv df mg out r Hobs Hne H Hr)
    as (i & b & Hb & Hfrom & _).
  apply nth_error_In in Hb.
  destruct (merged_row_cases _ (sorted_input_means idx df Hobs) _ _ Hb) as [Hrange _].
  apply pd_date_range_In in Hrange.
  rewrite date_min_sorted_input, date_max_sorted_input in Hrange by exact Hne.
  rewrite (from_calendar_day _ _ _ Hfrom). exact Hrange.
Qed.

(** Property X6.  For a non-empty Observation set and a threshold that is
    not negative, whenever [fill_gaps] returns, the first and the last date
    of the output are the first and the last date of the input: filling
    neither shortens nor extends the covered period. *)
Theorem covered_period_is_kept (df : DataFrame) (max_gap_days : Z)
    (out : DataFrame) :
  observation_set idx df -> rows df <> [] -> (0 <= max_gap_days)%Z ->
  fst (fill_gaps idx cs cv df max_gap_days) = Ok out ->
  date_min (rows out) = date_min (rows df)
  /\ date_max (rows out) = date_max (rows df).
Proof.
  intros Hobs Hne Hmg H. split.
  - apply date_min_unique.
    + intros r Hr. apply (out_row_in_range df max_gap_days out r Hobs Hne H Hr).
    + destruct (date_min_In (rows df) Hne) as (r & Hr & E).
      destruct (observation_retained idx cs cv df max_gap_days out r Hobs Hmg H Hr)
        as (r' & Hr' & Hd & _).
      exists r'. split; [exact Hr' | congruence].
  - apply date_max_unique.
    + intros r Hr. apply (out_row_in_range df max_gap_days out r Hobs Hne H Hr).
    + destruct (date_max_In (rows df) Hne) as (r & Hr & E).
      destruct (observation_retained idx cs cv df max_gap_days out r Hobs Hmg H Hr)
        as (r' & Hr' & Hd & _).
      exists r'. split; [exact Hr' | congruence].
Qed.

End Validated.

(* ================================================================== *)
(** * Large gaps in a filled series *)
(* ================================================================== *)

(** ** Neighbours in a list of days *)

Lemma day_diffs_exists (P : Z -> bool) (ds : list Z) :
  existsb P (day_diffs ds) = true <->
  exists l1 a b l2, ds = l1 ++ a :: b :: l2 /\ P (b - a)%Z = true.
Proof.
  induction ds as [| d1 ds IH].
  - simpl. split; [discriminate |].
    intros (l1 & a & b & l2 & E & _). destruct l1; discriminate.
  - destruct ds as [| d2 rest].
    + simpl. split; [discriminate |].
      intros (l1 & a & b & l2 & E & _).
      destruct l1 as [| x [| y l1]]; discriminate.
    + change (day_diffs (d1 :: d2 :: rest)) with ((d2 - d1)%Z :: day_diffs (d2 :: rest)).
      cbn [existsb]. rewrite orb_true_iff, IH. split.
      * intros [H | (l1 & a & b & l2 & E & H)].
        -- exists [], d1, d2, rest. split; [reflexivity | exact H].
        -- exists (d1 :: l1), a, b, l2. split; [rewrite E; reflexivity | exact H].
      * intros (l1 & a & b & l2 & E & H).
        destruct l1 as [| x l1].
        -- injection E as -> -> ->. left; exact H.
        -- injection E as -> E. right. exists l1, a, b, l2. split; assumption.
Qed.

Lemma StronglySorted_app_inv {A} (R : A -> A -> Prop) (l1 l2 : list A) :
  StronglySorted R (l1 ++ l2) ->
  StronglySorted R l1 /\ StronglySorted R l2
  /\ forall a b, In a l1 -> In b l2 -> R a b.
Proof.
  induction l1 as [| x l1 IH]; intro H.
  - split; [constructor |]. split; [exact H |]. intros a b [].
  - simpl in H. inversion H as [| ? ? Hs Hall]; subst.
    destruct (IH Hs) as (S1 & S2 & H12).
    rewrite Forall_app in Hall. destruct Hall as [A1 A2].
    split; [constructor; assumption |]. split; [exact S2 |].
    intros a b [<- | Ha] Hb; [| auto].
    rewrite Forall_forall in A2. auto.
Qed.

Lemma neighbours_adjacent (ds : list Z) (a b : Z) :
  StronglySorted Z.lt ds -> In a ds -> In b ds -> (a < b)%Z ->
  (forall c, In c ds -> ~ (a < c < b)%Z) ->
  exists l1 l2, ds = l1 ++ a :: b :: l2.
Proof.
  intros Hs Ha Hb Hab Hnone.
  apply in_split in Ha. destruct Ha as (l1 & l' & ->).
  destruct (StronglySorted_app_inv _ _ _ Hs) as (_ & S2 & H12).
  inversion S2 as [| ? ? S' A']; subst.
  assert (Hb' : In b l').
  { apply in_app_or in Hb. destruct Hb as [Hb | [E | Hb]]; auto.
    - specialize (H12 b a Hb (or_introl eq_refl)). lia.
    - lia. }
  destruct l' as [| c l2]; [destruct Hb' |].
  exists l1, l2. do 3 f_equal.
  inversion A' as [| ? ? Hac Hrest]; subst.
  destruct Hb' as [E | Hb']; [exact E |].
  inversion S' as [| ? ? _ Ac]; subst.
  rewrite Forall_forall in Ac. specialize (Ac b Hb').
  exfalso. apply (Hnone c); [| lia].
  apply in_or_app. right. right. left. reflexivity.
Qed.

Lemma adjacent_neighbours (l1 l2 : list Z) (a b : Z) :
  StronglySorted Z.lt (l1 ++ a :: b :: l2) ->
  (a < b)%Z /\ forall c, In c (l1 ++ a :: b :: l2) -> ~ (a < c < b)%Z.
Proof.
  intro Hs.
  destruct (StronglySorted_app_inv _ _ _ Hs) as (_ & S2 & H12).
  inversion S2 as [| ? ? S' A']; subst.
  inversion A' as [| ? ? Hab Hrest]; subst.
  split; [exact Hab |].
  intros c Hc Hbetween.
  apply in_app_or in Hc. destruct Hc as [Hc | [E | [E | Hc]]]; try lia.
  - specialize (H12 c a Hc (or_introl eq_refl)). lia.
  - inversion S' as [| ? ? _ Ab]; subst.
    rewrite Forall_forall in Ab. specialize (Ab c Hc). lia.
Qed.

Lemma StronglySorted_lt_le (l : list Z) : StronglySorted Z.lt l -> StronglySorted Z.le l.
Proof.
  induction 1 as [| a l Hs IH Hall]; constructor; auto.
  eapply Forall_impl; [| exact Hall]. intros; lia.
Qed.

Lemma present_iff_day out d : present out d <-> In d (map row_day (rows out)).
Proof.
  unfold present. rewrite in_map_iff. split; intros (r & H1 & H2); exists r; auto.
Qed.

Section LargeGaps.

Variable idx : Index.
Variable cs : list (nat * Qc) -> nat -> Qc.
Variable cv : Z -> list (option Qc) -> nat -> option Qc.

Lemma out_days_increasing df mg out :
  has_column "date" df = true -> unique_dates df ->
  fst (fill_gaps idx cs cv df mg) = Ok out ->
  StronglySorted Z.lt (map row_day (rows out)).
Proof.
  intros Hdate Huniq H.
  destruct (rows df) as [| r0 l] eqn:R.
  { unfold fill_gaps, empty in H. rewrite R in H. simpl in H.
    injection H as <-. rewrite R. constructor. }
  assert (Hne : rows df <> []) by congruence.
  rewrite fill_gaps_nonempty in H by assumption. simpl in H.
  apply fill_gaps_body_ok in H. cbv zeta in H.
  rewrite merged_frame_rows in H.
  pose proof (merged_unique_days (sorted_input df)
                (pd_date_range (date_min (sorted_input df)) (date_max (sorted_input df)))
                (sorted_input_unique df Huniq)) as Hdays.
  destruct H as [[_ ->] | (_ & smoothed & rows5 & _ & F & E)].
  - rewrite merged_frame_rows, Hdays. apply pd_date_range_sorted.
  - rewrite E. apply mask_filter_sorted.
    rewrite (Forall2_map_eq (filled_row (Forall (fun v => v <> None) smoothed))
               row_day row_day
               (flat_map (merge_day (sorted_input df))
                  (pd_date_range (date_min (sorted_input df))
                                 (date_max (sorted_input df))))
               rows5).
    + rewrite Hdays. apply pd_date_range_sorted.
    + intros a b ((D & _) & _). unfold row_day. rewrite D. reflexivity.
    + exact F.
Qed.

(** A day of the covered period without an observation lies in a run. *)
Lemma unobserved_day_in_run df d :
  observation_set idx df -> rows df <> [] ->
  (date_min (rows df) <= d <= date_max (rows df))%Z -> ~ observed_on df d ->
  exists k, missing_run df d k.
Proof.
  intros Hobs Hne Hd Hno.
  destruct (extreme_days_observed df Hne) as (Hlo & Hhi & _).
  rewrite <- date_min_sorted_input, <- date_max_sorted_input in Hd by exact Hne.
  assert (Hno' : ~ has_row (sorted_input df) d).
  { intro Hr. apply Hno. apply (has_row_observed idx df d Hobs). exact Hr. }
  destruct (enclosing_run (sorted_input df) _ _ _ Hlo Hhi Hd Hno')
    as (a & b & _ & Hab & _ & Hoa & Hob & Hnone).
  exists (b - a - 1)%Z, a, b.
  split; [exact Hab |].
  split; [apply (has_row_observed idx df a Hobs); exact Hoa |].
  split; [apply (has_row_observed idx df b Hobs); exact Hob |].
  split; [| reflexivity].
  intros e He Ho. apply (Hnone e He). apply (has_row_observed idx df e Hobs). exact Ho.
Qed.

Lemma large_gaps_iff_run_dropped df mg out :
  observation_set idx df -> unique_dates df -> rows df <> [] -> (29 <= mg)%Z ->
  fst (fill_gaps idx cs cv df mg) = Ok out ->
  large_gaps out = true <-> exists d k, missing_run df d k /\ (mg < k)%Z.
Proof.
  intros Hobs Huniq Hne Hmg H.
  pose proof Hobs as (Hdate & _).
  pose proof (out_days_increasing df mg out Hdate Huniq H) as Hs.
  destruct (retained_iff idx cs cv df mg out Hobs Hne ltac:(lia) H) as (Hiff & _ & _).
  unfold large_gaps.
  rewrite (sort_values_date_fixed (rows out)) by (apply StronglySorted_lt_le; exact Hs).
  rewrite day_diffs_exists. split.
  - intros (l1 & a & b & l2 & E & Hd). apply Z.ltb_lt in Hd.
    rewrite E in Hs. destruct (adjacent_neighbours _ _ _ _ Hs) as (Hab & Hnone).
    rewrite <- E in Hnone.
    assert (Ha : present out a).
    { apply present_iff_day. rewrite E. apply in_or_app. right. left. reflexivity. }
    assert (Hb : present out b).
    { apply present_iff_day. rewrite E. apply in_or_app. right. right. left. reflexivity. }
    assert (Hn : ~ present out (a + 1)%Z).
    { intro Hp. apply present_iff_day in Hp. apply (Hnone _ Hp). lia. }
    destruct Ha as (ra & Hra & Da). destruct Hb as (rb & Hrb & Db).
    pose proof (out_row_in_range idx cs cv df mg out ra Hobs Hne H Hra) as Ra.
    pose proof (out_row_in_range idx cs cv df mg out rb Hobs Hne H Hrb) as Rb.
    destruct (unobserved_day_in_run df (a + 1)%Z Hobs Hne) as (k & Hk).
    + lia.
    + intro Ho. apply Hn. apply Hiff. left. exact Ho.
    + exists (a + 1)%Z, k. split; [exact Hk |].
      destruct (Z_lt_le_dec mg k) as [Hlt | Hle]; [exact Hlt |].
      exfalso. apply Hn. apply Hiff. right. exists k. split; assumption.
  - intros (d & k & Hrun & Hk).
    pose proof Hrun as (a & b & Hd & Ha & Hb & Hnone & Ek).
    assert (Pa : present out a) by (apply Hiff; left; exact Ha).
    assert (Pb : present out b) by (apply Hiff; left; exact Hb).
    apply present_iff_day in Pa, Pb.
    destruct (neighbours_adjacent _ a b Hs Pa Pb ltac:(lia)) as (l1 & l2 & E).
    + intros c Hc Hbetween. apply present_iff_day in Hc. apply Hiff in Hc.
      destruct Hc as [Ho | (k' & Hrun' & Hk')].
      * apply (Hnone c Hbetween Ho).
      * assert (Hrun_c : missing_run df c k).
        { exists a, b. repeat split; auto; lia. }
        pose proof (missing_run_unique df c _ _ Hrun_c Hrun'). lia.
    + exists l1, a, b, l2. split; [exact E |]. apply Z.ltb_lt. lia.
Qed.

(** Property X12.  For a non-empty Observation set with unique dates and
    a threshold of at least 29 (the default is 32), whenever [fill_gaps]
    returns: [validate_results] on the output returns, and it reports
    "Large temporal gaps detected (>30 days)" if and only if the input
    has a run of missing days longer than the threshold, that is, if and
    only if [fill_gaps] has dropped a run. *)
Theorem large_gap_reported_iff_run_dropped (df : DataFrame) (max_gap_days : Z)
    (out : DataFrame) :
  observation_set idx df -> unique_dates df -> rows df <> [] ->
  (29 <= max_gap_days)%Z ->
  unrealistic_msg idx <> "Large temporal gaps detected (>30 days)"%string ->
  fst (fill_gaps idx cs cv df max_gap_days) = Ok out ->
  exists ok issues,
    fst (validate_results idx out) = Ok (ok, issues)
    /\ (In "Large temporal gaps detected (>30 days)"%string issues
        <-> exists d k, missing_run df d k /\ (max_gap_days < k)%Z).
Proof.
  intros Hobs Huniq Hne Hmg Hmsg H.
  pose proof Hobs as (Hdate & Hmean & _).
  assert (Hne' : rows out <> []).
  { destruct (date_min_In (rows df) Hne) as (r & Hr & _).
    destruct (observation_retained idx cs cv df max_gap_days out r Hobs ltac:(lia) H Hr)
      as (r' & Hr' & _).
    intro E. rewrite E in Hr'. destruct Hr'. }
  pose proof (out_has_column idx cs cv df max_gap_days out _ Hdate Hne H Hdate) as Od.
  pose proof (out_has_column idx cs cv df max_gap_days out _ Hdate Hne H Hmean) as Om.
  rewrite (validate_results_checks idx out (not_empty out _ Hne' Od) Od Om).
  eexists; eexists. split; [reflexivity |].
  rewrite <- (large_gaps_iff_run_dropped df max_gap_days out Hobs Huniq Hne Hmg H).
  unfold issues_of. rewrite !in_app_iff. split.
  - intros [Hi | [Hi | [Hi | Hi]]].
    + destruct (missing_values idx out); [| destruct Hi].
      destruct Hi as [Hi | []]. discriminate.
    + destruct (unrealistic_values idx out); [| destruct Hi].
      destruct Hi as [Hi | []]. congruence.
    + destruct (coverage_days out <? 30)%Z; [| destruct Hi].
      destruct Hi as [Hi | []]. cbn in Hi. discriminate.
    + destruct (large_gaps out); [reflexivity | destruct Hi].
  - intros ->. right. right. right. left. reflexivity.
Qed.

End LargeGaps.

(* ================================================================== *)
(** * The order of the rows; a limit below one *)
(* ================================================================== *)

(** ** Row order *)

Lemma existsb_perm {A} (f : A -> bool) (l l' : list A) :
  Permutation l l' -> existsb f l = existsb f l'.
Proof.
  induction 1; simpl; try congruence.
  destruct (f x), (f y); reflexivity.
Qed.

Lemma date_min_perm l l' : Permutation l l' -> date_min l = date_min l'.
Proof.
  intro P. destruct l as [| r l].
  { apply Permutation_nil in P. subst. reflexivity. }
  symmetry. apply date_min_unique.
  - intros r' Hr'. apply date_min_le. eapply Permutation_in; [symmetry; exact P | exact Hr'].
  - destruct (date_min_In (r :: l) ltac:(discriminate)) as (r0 & H0 & E0).
    exists r0. split; [eapply Permutation_in; eauto | exact E0].
Qed.

Lemma date_max_perm l l' : Permutation l l' -> date_max l = date_max l'.
Proof.
  intro P. destruct l as [| r l].
  { apply Permutation_nil in P. subst. reflexivity. }
  symmetry. apply date_max_unique.
  - intros r' Hr'. apply date_max_ge. eapply Permutation_in; [symmetry; exact P | exact Hr'].
  - destruct (date_max_In (r :: l) ltac:(discriminate)) as (r0 & H0 & E0).
    exists r0. split; [eapply Permutation_in; eauto | exact E0].
Qed.

Lemma sorted_days_perm l l' :
  Permutation l l' ->
  map row_day (sort_values_date l) = map row_day (sort_values_date l').
Proof.
  intro P. apply sorted_days_unique; try apply sort_values_date_days.
  apply Permutation_map.
  rewrite (sort_values_date_perm l), (sort_values_date_perm l'). exact P.
Qed.

Lemma validate_results_empty idx df :
  empty df = true ->
  fst (validate_results idx df) = Ok (false, ["No valid data found"%string]).
Proof. intro H. unfold validate_results. rewrite H. reflexivity. Qed.

Lemma validate_results_no_date idx df :
  empty df = false -> has_column "date" df = false ->
  fst (validate_results idx df) = Raise (KeyError "date").
Proof. intros H1 H2. unfold validate_results. rewrite H1, H2. reflexivity. Qed.

Lemma validate_results_no_mean idx df :
  empty df = false -> has_column "date" df = true ->
  has_column (mean_col idx) df = false ->
  fst (validate_results idx df) = Raise (KeyError (mean_col idx)).
Proof.
  intros H1 H2 H3. unfold validate_results. rewrite H1, H2. cbn [negb].
  change (has_column (mean_col idx) (dates_to_datetime df))
    with (has_column (mean_col idx) df).
  rewrite H3. reflexivity.
Qed.

(** Property X10.  [validate_results] returns the same verdict and the
    same issues, or raises the same exception, for two frames with the same
    columns whose rows are a permutation of one another. *)
Theorem validate_ignores_row_order (idx : Index) (df df' : DataFrame) :
  columns df' = columns df -> Permutation (rows df) (rows df') ->
  fst (validate_results idx df') = fst (validate_results idx df).
Proof.
  destruct df as [cols rs], df' as [cols' rs']. cbn [columns rows].
  intros -> P.
  assert (He : empty (mkFrame cols rs') = empty (mkFrame cols rs)).
  { unfold empty. cbn [rows columns]. destruct rs as [| r rs].
    - apply Permutation_nil in P. subst. reflexivity.
    - destruct rs' as [| r' rs']; [| reflexivity].
      apply Permutation_sym, Permutation_nil in P. discriminate. }
  destruct (empty (mkFrame cols rs)) eqn:E.
  { rewrite !validate_results_empty by assumption. reflexivity. }
  destruct (has_column "date" (mkFrame cols rs)) eqn:Ed.
  2:{ rewrite !validate_results_no_date by assumption. reflexivity. }
  destruct (has_column (mean_col idx) (mkFrame cols rs)) eqn:Em.
  2:{ rewrite !validate_results_no_mean by assumption. reflexivity. }
  rewrite !validate_results_checks by assumption.
  assert (Hi : issues_of idx (mkFrame cols rs') = issues_of idx (mkFrame cols rs)).
  { unfold issues_of, missing_values, unrealistic_values, coverage_days, large_gaps.
    cbn [rows].
    rewrite <- (existsb_perm (row_has_null idx (mkFrame cols rs')) _ _ P).
    rewrite <- (date_min_perm _ _ P), <- (date_max_perm _ _ P).
    rewrite <- (sorted_days_perm _ _ P).
    rewrite <- !(existsb_perm _ _ _ (Permutation_map idx_mean P)).
    reflexivity. }
  rewrite Hi. reflexivity.
Qed.

Section RowOrder.

Variable idx : Index.
Variable cs : list (nat * Qc) -> nat -> Qc.
Variable cv : Z -> list (option Qc) -> nat -> option Qc.

Lemma fill_gaps_body_merged df df' mg :
  merged_frame df' = merged_frame df ->
  fill_gaps_body idx cs cv df' mg = fill_gaps_body idx cs cv df mg.
Proof. intro E. unfold fill_gaps_body. rewrite E. reflexivity. Qed.

(** Property X7.  For a frame with a [date] column and unique dates,
    [fill_gaps] returns the same frame, or raises the same exception,
    whatever the order of the rows of the input (line 63 sorts them). *)
Theorem fill_gaps_ignores_row_order (df df' : DataFrame) (max_gap_days : Z) :
  columns df' = columns df -> Permutation (rows df) (rows df') ->
  has_column "date" df = true -> unique_dates df ->
  fst (fill_gaps idx cs cv df' max_gap_days)
  = fst (fill_gaps idx cs cv df max_gap_days).
Proof.
  destruct df as [cols rs], df' as [cols' rs']. cbn [columns rows].
  intros -> P Hd Hu.
  destruct rs as [| r rs].
  { apply Permutation_nil in P. subst. reflexivity. }
  assert (Hne' : rs' <> []).
  { intro E. subst. apply Permutation_sym, Permutation_nil in P. discriminate. }
  rewrite !fill_gaps_nonempty by (cbn [rows]; assumption || discriminate).
  cbn [fst]. apply fill_gaps_body_merged.
  unfold merged_frame, dates_to_datetime. cbn [rows columns].
  fold conv.
  assert (Hs : sort_values_date (map conv rs') = sort_values_date (map conv (r :: rs))).
  { symmetry. apply sorted_rows_unique; try apply sort_values_date_days.
    - rewrite (sort_values_date_perm (map conv (r :: rs))),
              (sort_values_date_perm (map conv rs')).
      apply Permutation_map. exact P.
    - eapply Permutation_NoDup.
      + apply Permutation_map. symmetry. apply sort_values_date_perm.
      + rewrite map_day_conv. exact Hu. }
  rewrite Hs. reflexivity.
Qed.

(** ** A limit below one *)




End RowOrder.

(* ================================================================== *)
(** * A series that validates *)
(* ================================================================== *)

Lemma existsb_false_forall {A} (f : A -> bool) (l : list A) :
  existsb f l = false -> forall a, In a l -> f a = false.
Proof.
  intros H a Ha. destruct (f a) eqn:E; [| reflexivity].
  assert (existsb f l = true) by (apply existsb_exists; eauto). congruence.
Qed.

Lemma Qc_ltb_false a b : Qc_ltb a b = false -> (b <= a)%Qc.
Proof.
  unfold Qc_ltb. intro H.
  assert (Hn : (a ?= b)%Qc <> Lt) by (intro E; rewrite E in H; discriminate).
  apply Qcge_alt in Hn. exact Hn.
Qed.

Lemma dense_days (ds : list Z) :
  existsb (fun g => (30 <? g)%Z) (day_diffs ds) = false ->
  StronglySorted Z.le ds ->
  forall d, (exists a, In a ds /\ (a <= d)%Z) -> (exists b, In b ds /\ (d < b)%Z) ->
  exists e, In e ds /\ (d < e <= d + 30)%Z.
Proof.
  induction ds as [| d1 ds IH]; intros Hg Hs d (a & Ha & Had) (b & Hb & Hdb).
  - destruct Ha.
  - destruct ds as [| d2 rest].
    + destruct Ha as [<- | []]. destruct Hb as [<- | []]. lia.
    + change (day_diffs (d1 :: d2 :: rest)) with ((d2 - d1)%Z :: day_diffs (d2 :: rest)) in Hg.
      cbn [existsb] in Hg. apply orb_false_iff in Hg. destruct Hg as [G1 G2].
      apply Z.ltb_ge in G1.
      inversion Hs as [| ? ? Hs' Hall]; subst.
      destruct (Z_le_gt_dec d2 d) as [Hle | Hgt].
      * destruct (IH G2 Hs' d) as (e & He & Hde).
        -- exists d2. split; [left; reflexivity | exact Hle].
        -- exists b. split; [| exact Hdb].
           destruct Hb as [<- | Hb]; [| exact Hb].
           inversion Hall; subst. lia.
        -- exists e. split; [right; exact He | exact Hde].
      * exists d2. split; [right; left; reflexivity |].
        destruct Ha as [<- | Ha]; [lia |].
        inversion Hs' as [| ? ? _ A2]; subst.
        destruct Ha as [<- | Ha]; [lia |].
        rewrite Forall_forall in A2. specialize (A2 a Ha). lia.
Qed.

Open Scope Qc_scope.

(** Property X9.  When [validate_results] returns [True]: there is no
    issue; every row has a mean, between the two bounds of the index; the
    dates span at least 30 days; and every day from the first date on and
    before the last is followed by a row within the next 30 days. *)
Theorem validated_series_is_dense (idx : Index) (df : DataFrame)
    (issues : list string) :
  fst (validate_results idx df) = Ok (true, issues) ->
  issues = []
  /\ (forall r, In r (rows df) ->
        exists v, idx_mean r = Some v
                  /\ unrealistic_below idx <= v /\ v <= unrealistic_above idx)
  /\ (30 <= date_max (rows df) - date_min (rows df))%Z
  /\ (forall d, (date_min (rows df) <= d < date_max (rows df))%Z ->
        exists r, In r (rows df) /\ (d < row_day r <= d + 30)%Z).
Proof.
  intro H.
  destruct (empty df) eqn:E.
  { rewrite validate_results_empty in H by exact E. discriminate. }
  destruct (has_column "date" df) eqn:Ed.
  2:{ rewrite validate_results_no_date in H by assumption. discriminate. }
  destruct (has_column (mean_col idx) df) eqn:Em.
  2:{ rewrite validate_results_no_mean in H by assumption. discriminate. }
  rewrite validate_results_checks in H by assumption.
  injection H as Hlen Hi.
  apply Nat.eqb_eq, length_zero_iff_nil in Hlen. rewrite Hlen in Hi.
  split; [symmetry; exact Hi |].
  unfold issues_of in Hlen.
  apply app_eq_nil in Hlen. destruct Hlen as [H1 Hlen].
  apply app_eq_nil in Hlen. destruct Hlen as [H2 Hlen].
  apply app_eq_nil in Hlen. destruct Hlen as [H3 H4].
  destruct (missing_values idx df) eqn:M; [discriminate |].
  destruct (unrealistic_values idx df) eqn:U; [discriminate |].
  destruct (coverage_days df <? 30)%Z eqn:C; [discriminate |].
  destruct (large_gaps df) eqn:G; [discriminate |].
  clear H1 H2 H3 H4.
  assert (Hne : rows df <> []).
  { unfold empty in E. destruct (rows df); [discriminate | discriminate]. }
  split; [| split].
  - intros r Hr.
    pose proof (existsb_false_forall _ _ M r Hr) as Hn.
    unfold row_has_null in Hn. rewrite Em in Hn. cbn [andb] in Hn.
    destruct (idx_mean r) as [v |] eqn:Ev; [| discriminate].
    exists v. split; [reflexivity |].
    unfold unrealistic_values in U. apply orb_false_iff in U. destruct U as [U1 U2].
    assert (Hin : In (Some v) (map idx_mean (rows df))).
    { rewrite <- Ev. apply in_map. exact Hr. }
    pose proof (existsb_false_forall _ _ U1 _ Hin) as A1.
    pose proof (existsb_false_forall _ _ U2 _ Hin) as A2.
    cbn in A1, A2.
    split; [apply Qc_ltb_false; exact A2 | apply Qc_ltb_false; exact A1].
  - apply Z.ltb_ge in C. exact C.
  - intros d Hd. unfold large_gaps in G.
    destruct (date_min_In (rows df) Hne) as (ra & Hra & Ea).
    destruct (date_max_In (rows df) Hne) as (rb & Hrb & Eb).
    destruct (dense_days _ G (sort_values_date_days (rows df)) d) as (e & He & Hde).
    + exists (row_day ra). split; [| lia].
      apply in_map. apply sort_values_date_In. exact Hra.
    + exists (row_day rb). split; [| lia].
      apply in_map. apply sort_values_date_In. exact Hrb.
    + apply in_map_iff in He. destruct He as (r & <- & Hr).
      apply (proj1 (sort_values_date_In _ _)) in Hr. exists r. split; [exact Hr | exact Hde].
Qed.

Close Scope Qc_scope.

(* ================================================================== *)
(** * More about the smoother *)
(* ================================================================== *)

Open Scope Qc_scope.

Lemma weighted_square_expand (w x z : list Qc) :
  List.length x = List.length z -> List.length w = List.length x ->
  dot (vsub x z) (map2 Qcmult w (vsub x z))
  = dot x (map2 Qcmult w x) - (1 + 1) * dot z (map2 Qcmult w x)
    + dot z (map2 Qcmult w z).
Proof.
  revert x z; induction w as [| wi w IH]; intros [| a x] [| b z] H1 H2;
    simpl in H1, H2; try discriminate; try (simpl; ring).
  change (vsub (a :: x) (b :: z)) with ((a - b) :: vsub x z).
  cbn [map2 dot]. rewrite IH by lia. ring.
Qed.

Lemma mat_vec_vadd (A : list (list Qc)) u v :
  List.length u = List.length v ->
  mat_vec A (vadd u v) = vadd (mat_vec A u) (mat_vec A v).
Proof.
  intro H. unfold mat_vec. induction A as [| r A IH]; [reflexivity |].
  cbn [map].
  change (vadd (dot r u :: map (fun r0 => dot r0 u) A)
               (dot r v :: map (fun r0 => dot r0 v) A))
    with ((dot r u + dot r v) :: vadd (map (fun r0 => dot r0 u) A)
                                       (map (fun r0 => dot r0 v) A)).
  f_equal; [apply dot_vadd_r; exact H | exact IH].
Qed.

Lemma mat_vec_vscale (A : list (list Qc)) c u :
  mat_vec A (vscale c u) = vscale c (mat_vec A u).
Proof.
  unfold mat_vec. induction A as [| r A IH]; [reflexivity |].
  cbn [map].
  change (vscale c (dot r u :: map (fun r0 => dot r0 u) A))
    with ((c * dot r u) :: vscale c (map (fun r0 => dot r0 u) A)).
  f_equal; [apply dot_vscale_r | exact IH].
Qed.

Lemma weighted_combination (w x y : list Qc) a b :
  List.length x = List.length w -> List.length y = List.length w ->
  map2 Qcmult w (vadd (vscale a x) (vscale b y))
  = vadd (vscale a (map2 Qcmult w x)) (vscale b (map2 Qcmult w y)).
Proof.
  revert x y; induction w as [| wi w IH]; intros [| p x] [| q y] H1 H2;
    simpl in H1, H2; try discriminate; [reflexivity |].
  change (vscale a (p :: x)) with ((a * p) :: vscale a x).
  change (vscale b (q :: y)) with ((b * q) :: vscale b y).
  change (vadd ((a * p) :: vscale a x) ((b * q) :: vscale b y))
    with ((a * p + b * q) :: vadd (vscale a x) (vscale b y)).
  cbn [map2].
  change (vscale a (wi * p :: map2 Qcmult w x))
    with ((a * (wi * p)) :: vscale a (map2 Qcmult w x)).
  change (vscale b (wi * q :: map2 Qcmult w y))
    with ((b * (wi * q)) :: vscale b (map2 Qcmult w y)).
  change (vadd (a * (wi * p) :: vscale a (map2 Qcmult w x))
               (b * (wi * q) :: vscale b (map2 Qcmult w y)))
    with ((a * (wi * p) + b * (wi * q))
            :: vadd (vscale a (map2 Qcmult w x)) (vscale b (map2 Qcmult w y))).
  f_equal; [ring | apply IH; lia].
Qed.

Lemma vscale_length c v : List.length (vscale c v) = List.length v.
Proof. unfold vscale. apply length_map. Qed.

Lemma vadd_length u v :
  List.length u = List.length v -> List.length (vadd u v) = List.length u.
Proof. intro H. unfold vadd. rewrite map2_length. lia. Qed.

(** Property X2.  For weights that are not negative, as many as the data,
    and a positive [lambda_], [whittaker_smooth] returns a sequence [z]
    whose weighted sum of squares is at most its weighted product with the
    data, and at most the weighted sum of squares of the data: smoothing
    never adds energy at the weighted positions. *)
Theorem smoother_does_not_add_energy (x w : list Qc) (lambda_ : Qc) :
  List.length x = List.length w -> Forall (fun wi => 0 <= wi) w -> 0 < lambda_ ->
  exists z,
    whittaker_smooth x w lambda_ = Ok (map Some z)
    /\ dot z (map2 Qcmult w z) <= dot z (map2 Qcmult w x)
    /\ dot z (map2 Qcmult w z) <= dot x (map2 Qcmult w x).
Proof.
  intros Hlen Hnn Hlam.
  destruct (whittaker_smooth_solves x w lambda_ Hlen Hnn Hlam) as (z & Hz & Hzl & Hsys).
  exists z. split; [exact Hz |].
  rewrite whittaker_matrix_action in Hsys by congruence.
  apply (f_equal (dot z)) in Hsys.
  destruct (penalty_matrix_dims (List.length x)) as [Pl _].
  rewrite dot_vadd_r in Hsys
    by (rewrite map2_length, vscale_length, mat_vec_length; lia).
  rewrite dot_vscale_r in Hsys.
  pose proof (penalty_quadratic_form (List.length x) z Hzl) as Hq.
  pose proof (dot_self_nonneg (mat_vec (second_difference (List.length x)) z)) as Hp.
  rewrite <- Hq in Hp.
  set (P := dot z (mat_vec (penalty_matrix (List.length x)) z)) in *.
  assert (Hlp : 0 <= lambda_ * P)
    by (apply Qc_mul_nonneg; [apply Qclt_le_weak; exact Hlam | exact Hp]).
  assert (H1 : dot z (map2 Qcmult w z) <= dot z (map2 Qcmult w x)).
  { rewrite <- Hsys. apply Qcle_minus_iff.
    replace (dot z (map2 Qcmult w z) + lambda_ * P + - dot z (map2 Qcmult w z))
      with (lambda_ * P) by ring.
    exact Hlp. }
  split; [exact H1 |].
  pose proof (dot_weighted_nonneg w (vsub x z) Hnn) as Hsq.
  rewrite weighted_square_expand in Hsq by congruence.
  apply Qcle_minus_iff.
  replace (dot x (map2 Qcmult w x) + - dot z (map2 Qcmult w z))
    with ((dot x (map2 Qcmult w x) - (1 + 1) * dot z (map2 Qcmult w x)
           + dot z (map2 Qcmult w z))
          + (1 + 1) * (lambda_ * P))
    by (rewrite <- Hsys; ring).
  apply Qc_add_nonneg; [exact Hsq |].
  apply Qc_mul_nonneg; [discriminate | exact Hlp].
Qed.

Lemma map_Some_inj {A} (l m : list A) : map Some l = map Some m -> l = m.
Proof.
  revert m; induction l as [| a l IH]; intros [| b m] H; simpl in H;
    try discriminate; [reflexivity |].
  apply cons_eq_inv in H. destruct H as [H1 H2].
  f_equal; [congruence | apply IH; exact H2].
Qed.

(** Property X3.  For weights that are not negative and a positive
    [lambda_], [whittaker_smooth] is linear in the data: what it returns for
    [a * x + b * y] is [a] times what it returns for [x] plus [b] times what
    it returns for [y]. *)
Theorem smoother_is_linear (x y w : list Qc) (a b lambda_ : Qc) :
  List.length x = List.length w -> List.length y = List.length w ->
  Forall (fun wi => 0 <= wi) w -> 0 < lambda_ ->
  exists zx zy,
    whittaker_smooth x w lambda_ = Ok (map Some zx)
    /\ whittaker_smooth y w lambda_ = Ok (map Some zy)
    /\ whittaker_smooth (vadd (vscale a x) (vscale b y)) w lambda_
       = Ok (map Some (vadd (vscale a zx) (vscale b zy))).
Proof.
  intros Hx Hy Hnn Hlam.
  destruct (whittaker_smooth_solves x w lambda_ Hx Hnn Hlam) as (zx & Hzx & Lx & Sx).
  destruct (whittaker_smooth_solves y w lambda_ Hy Hnn Hlam) as (zy & Hzy & Ly & Sy).
  exists zx, zy. split; [exact Hzx |]. split; [exact Hzy |].
  set (c := vadd (vscale a x) (vscale b y)).
  assert (Hc : List.length c = List.length w).
  { subst c. rewrite vadd_length; rewrite !vscale_length; congruence. }
  destruct (whittaker_smooth_solves c w lambda_ Hc Hnn Hlam) as (zc & Hzc & Lc & Sc).
  rewrite Hzc. do 2 f_equal.
  rewrite Hc in Sc, Lc. rewrite Hx in Sx, Lx. rewrite Hy in Sy, Ly.
  apply (posdef_solution_unique (List.length w) (whittaker_matrix (List.length w) w lambda_)).
  - apply whittaker_posdef; auto.
  - exact Lc.
  - rewrite vadd_length; rewrite !vscale_length; congruence.
  - rewrite Sc. subst c. rewrite weighted_combination by assumption.
    rewrite mat_vec_vadd by (rewrite !vscale_length; congruence).
    rewrite !mat_vec_vscale, Sx, Sy. reflexivity.
Qed.

Close Scope Qc_scope.

(* ================================================================== *)
(** * Configuration, chunks and acquisition *)
(* ================================================================== *)

(** ** Dictionaries *)

Lemma dict_get_set_same d k v : dict_get (dict_set d k v) k = Some v.
Proof.
  induction d as [| [k' v'] d IH]; simpl.
  - rewrite String.eqb_refl. reflexivity.
  - destruct (String.eqb k k') eqn:E; simpl; rewrite E; [reflexivity | exact IH].
Qed.

Lemma dict_get_set_other d k v k' :
  k' <> k -> dict_get (dict_set d k v) k' = dict_get d k'.
Proof.
  intro N. pose proof (proj2 (String.eqb_neq _ _) N) as Nb.
  induction d as [| [k0 v0] d IH]; simpl.
  - rewrite Nb. reflexivity.
  - destruct (String.eqb k k0) eqn:E; simpl.
    + apply String.eqb_eq in E. subst k0. rewrite Nb. reflexivity.
    + rewrite IH. reflexivity.
Qed.

Lemma dict_get_merge d other k :
  NoDup (map fst other) ->
  dict_get (dict_merge d other) k
  = match dict_get other k with
    | Some v => Some v
    | None => dict_get d k
    end.
Proof.
  unfold dict_merge. revert d.
  induction other as [| [k0 v0] other IH]; intros d N; [reflexivity |].
  simpl in N. inversion N as [| ? ? Hnot N']; subst.
  cbn [fold_left fst snd dict_get]. rewrite (IH _ N').
  destruct (String.eqb k k0) eqn:E.
  - apply String.eqb_eq in E. subst k0.
    assert (Hk : dict_get other k = None).
    { clear -Hnot. induction other as [| [k1 v1] other IH]; [reflexivity |].
      simpl in *. destruct (String.eqb k k1) eqn:E.
      - apply String.eqb_eq in E. subst. exfalso. apply Hnot. left; reflexivity.
      - apply IH. intro H. apply Hnot. right; exact H. }
    rewrite Hk. apply dict_get_set_same.
  - apply String.eqb_neq in E.
    rewrite dict_get_set_other by exact E. reflexivity.
Qed.

Lemma dict_get_merge_defined d other k :
  dict_get d k <> None -> dict_get (dict_merge d other) k <> None.
Proof.
  unfold dict_merge. revert d.
  induction other as [| [k0 v0] other IH]; intros d H; [exact H |].
  cbn [fold_left fst snd]. apply IH.
  destruct (string_dec k k0) as [-> | N].
  - rewrite dict_get_set_same. discriminate.
  - rewrite dict_get_set_other by exact N. exact H.
Qed.

(** Property X13.  Whenever [_load_config] returns a configuration, every
    key of [default_config] is defined in it; so the keys the analyzer reads
    later ([cloud_cover_threshold], [chunk_size_days], [scale_meters],
    [max_pixels]) raise no [KeyError].  For a file that holds an object, a
    key has the file's value when the file has one, and the default's
    otherwise; without a file the configuration is [default_config]. *)
Theorem loaded_config_has_every_default (default_config : list (string * json))
    (file : config_file) (config : list (string * json)) :
  _load_config default_config file = inr config ->
  (forall k, dict_get default_config k <> None -> dict_get config k <> None)
  /\ (forall members, file = Holds (JObject members) -> NoDup (map fst members) ->
      forall k, dict_get config k
                = match dict_get members k with
                  | Some v => Some v
                  | None => dict_get default_config k
                  end)
  /\ (file = NoFile -> config = default_config).
Proof.
  intro H. split; [| split].
  - intros k Hk. destruct file as [| | [| | | | |]]; simpl in H; try discriminate;
      injection H as <-; [exact Hk |].
    apply dict_get_merge_defined. exact Hk.
  - intros members -> N k. simpl in H. injection H as <-.
    apply dict_get_merge. exact N.
  - intros ->. simpl in H. injection H as <-. reflexivity.
Qed.

(** ** The chunk loop *)

Section Chunks.

Context {A : Type}.
Variable process : Z -> Z -> list A.





End Chunks.

(** ** Acquisition *)

Lemma extract_properties_ok idx features : forall results,
  Forall (fun f => prop_mean f <> Absent) features ->
  extract_properties idx features results
  = Ok (results ++ filter (fun f => numeric (prop_mean f)) features).
Proof.
  induction features as [| f features IH]; intros results H.
  - simpl. rewrite app_nil_r. reflexivity.
  - inversion H as [| ? ? Hf Hrest]; subst. cbn [extract_properties filter].
    destruct (prop_mean f) eqn:E; [congruence | |]; cbn [numeric].
    + apply IH; exact Hrest.
    + rewrite (IH _ Hrest). rewrite <- app_assoc. reflexivity.
Qed.

Lemma extract_properties_raises idx features : forall results,
  Exists (fun f => prop_mean f = Absent) features ->
  extract_properties idx features results = Raise (KeyError (mean_col idx)).
Proof.
  induction features as [| f features IH]; intros results H; [inversion H |].
  cbn [extract_properties].
  destruct (prop_mean f) eqn:E; [reflexivity | |];
    (inversion H as [? ? Hf | ? ? Hrest]; subst; [congruence | apply IH; exact Hrest]).
Qed.

(** Property X16.  [process_date_chunk] on a chunk with images: when
    every feature has the key of the mean, it returns the properties of the
    features whose mean is a number, in their order; when some feature lacks
    the key, the [KeyError] of line 266 is caught at line 271 and the call
    returns the empty list, so every observation of the chunk is lost. *)
Theorem chunk_is_lost_when_a_mean_is_absent (idx : Index) (n : nat)
    (features : list Properties) :
  (Forall (fun f => prop_mean f <> Absent) features ->
   process_date_chunk idx (Images (S n) (Some features))
   = filter (fun f => numeric (prop_mean f)) features)
  /\ (Exists (fun f => prop_mean f = Absent) features ->
      process_date_chunk idx (Images (S n) (Some features)) = []).
Proof.
  split; intro H; cbn [process_date_chunk].
  - rewrite extract_properties_ok by exact H. reflexivity.
  - rewrite extract_properties_raises by exact H. reflexivity.
Qed.

Lemma extract_properties_numeric idx features : forall results out,
  extract_properties idx features results = Ok out ->
  Forall (fun p => numeric (prop_mean p) = true) results ->
  Forall (fun p => numeric (prop_mean p) = true) out.
Proof.
  induction features as [| f features IH]; intros results out H Hr.
  - injection H as <-. exact Hr.
  - cbn [extract_properties] in H.
    destruct (prop_mean f) eqn:E; [discriminate | eapply IH; eauto |].
    eapply IH; [exact H |]. apply Forall_app. split; [exact Hr |].
    constructor; [rewrite E; reflexivity | constructor].
Qed.

Lemma process_date_chunk_numeric idx reply :
  Forall (fun p => numeric (prop_mean p) = true) (process_date_chunk idx reply).
Proof.
  destruct reply as [| [| n] [features |]]; cbn [process_date_chunk]; try constructor.
  destruct (extract_properties idx features []) as [out |] eqn:E; [| constructor].
  eapply extract_properties_numeric; [exact E | constructor].
Qed.

Lemma chunk_loop_Forall {A} (P : A -> Prop) (process : Z -> Z -> list A) fuel :
  forall current_start end_ chunk_size all_results out,
  (forall s e, Forall P (process s e)) ->
  chunk_loop process fuel current_start end_ chunk_size all_results = Some out ->
  Forall P all_results -> Forall P out.
Proof.
  induction fuel as [| fuel IH]; intros s e c acc out Hp H Hacc; [discriminate |].
  cbn [chunk_loop] in H. destruct (s <? e)%Z.
  - eapply IH; [exact Hp | exact H |]. apply Forall_app. split; [exact Hacc | apply Hp].
  - injection H as <-. exact Hacc.
Qed.

(** Property X17.  Whenever the chunk loop of [run_analysis] ends with at
    least one record, the frame [pd.DataFrame(all_results)] that line 459
    passes to [fill_gaps] is an Observation set: it has a [date] and a mean
    column, every row has a mean and none has the interpolation flag; and it
    has one row per record. *)
Theorem acquired_frame_is_an_observation_set (idx : Index)
    (ee : Z -> Z -> ee_reply) (fuel : nat) (start end_ chunk_size : Z)
    (all_results : list Properties) :
  chunk_loop (fun s e => process_date_chunk idx (ee s e)) fuel start end_
             chunk_size [] = Some all_results ->
  all_results <> [] ->
  observation_set idx (frame_of_results idx all_results)
  /\ List.length (rows (frame_of_results idx all_results))
     = List.length all_results.
Proof.
  intros H Hne.
  assert (Hn : Forall (fun p => numeric (prop_mean p) = true) all_results).
  { eapply chunk_loop_Forall; [| exact H | constructor].
    intros s e. apply process_date_chunk_numeric. }
  destruct all_results as [| p rest]; [congruence |].
  unfold frame_of_results.
  split; [| cbn [rows]; apply length_map].
  assert (Hp : existsb (fun q => property_present (prop_mean q)) (p :: rest) = true).
  { inversion Hn as [| ? ? Hp _]; subst. cbn [existsb].
    revert Hp. destruct (prop_mean p); intro Hp; try discriminate. reflexivity. }
  rewrite Hp.
  split; [reflexivity |]. split.
  - unfold has_column. cbn [columns existsb app]. rewrite String.eqb_refl.
    apply orb_true_r.
  - cbn [rows]. rewrite Forall_map. eapply Forall_impl; [| exact Hn].
    intros q Hq. cbv beta in Hq. split; [| reflexivity]. cbn.
    destruct (prop_mean q); [discriminate Hq | discriminate Hq | discriminate].
Qed.

(* ================================================================== *)
(** * The two indices *)
(* ================================================================== *)

Open Scope Qc_scope.

Lemma EE_divide_nonzero a b : b <> 0 -> EE.divide a b = a / b.
Proof. intro H. unfold EE.divide. destruct (Qc_eq_dec b 0); [congruence | reflexivity]. Qed.

Lemma EE_divide_scale_l c a b : EE.divide (c * a) b = c * EE.divide a b.
Proof.
  unfold EE.divide. destruct (Qc_eq_dec b 0); [ring | field; assumption].
Qed.

Lemma EE_divide_scale_both c a b : c <> 0 -> EE.divide (c * a) (c * b) = EE.divide a b.
Proof.
  intro Hc. unfold EE.divide.
  destruct (Qc_eq_dec b 0) as [-> | Hb].
  - destruct (Qc_eq_dec (c * 0) 0) as [_ | N]; [reflexivity |].
    exfalso. apply N. ring.
  - destruct (Qc_eq_dec (c * b) 0) as [E | _].
    + exfalso. destruct (Qcmult_integral _ _ E); contradiction.
    + field. split; assumption.
Qed.

(** Property X18.  [calculate_mcari] is homogeneous of degree one in the
    bands: multiplying the three bands by a factor that is not zero
    multiplies the index by that factor.  So the division by 10000 enters
    the index as the factor 1/10000 only. *)
Theorem mcari_scales_with_the_bands (c : Qc) (image : Pixel) :
  c <> 0 ->
  calculate_mcari (mkPixel (c * B3 image) (c * B4 image) (c * B5 image) (c * B8 image))
  = c * calculate_mcari image.
Proof.
  intro Hc. unfold calculate_mcari. cbn [B3 B4 B5 B8].
  rewrite (EE_divide_scale_l c (B3 image)), (EE_divide_scale_l c (B4 image)),
          (EE_divide_scale_l c (B5 image)).
  cbv zeta.
  rewrite EE_divide_scale_both by exact Hc.
  unfold EE.subtract, EE.multiply. ring.
Qed.

Lemma Qc_div_bounds d x lo hi :
  0 < d -> lo * d <= x -> x <= hi * d -> lo <= x / d /\ x / d <= hi.
Proof.
  intros Hd Hlo Hhi.
  assert (E : x / d * d = x) by (field; apply Qc_pos_neq; exact Hd).
  rewrite <- E in Hlo, Hhi.
  split; eapply Qcmult_lt_0_le_reg_r; eauto.
Qed.

Lemma Qc_sub_nonneg a b : a <= b -> 0 <= b - a.
Proof. intro H. apply Qcle_minus_iff in H. exact H. Qed.

Lemma Qc_ltb_ge a b : a <= b -> Qc_ltb b a = false.
Proof.
  intro H. unfold Qc_ltb. destruct (b ?= a) eqn:E; try reflexivity.
  apply Qclt_alt in E. exfalso. exact (Qcle_not_lt _ _ H E).
Qed.

Lemma ten_thousand_pos : 0 < Qc_of_Z 10000.
Proof. reflexivity. Qed.

Lemma reflectance_range b :
  0 <= b -> b <= Qc_of_Z 10000 ->
  0 <= EE.divide b (Qc_of_Z 10000) /\ EE.divide b (Qc_of_Z 10000) <= 1.
Proof.
  intros H0 H1. rewrite EE_divide_nonzero by discriminate.
  apply Qc_div_bounds; [apply ten_thousand_pos | |].
  - replace (0 * Qc_of_Z 10000) with 0 by ring. exact H0.
  - replace (1 * Qc_of_Z 10000) with (Qc_of_Z 10000) by ring. exact H1.
Qed.

(** Property X19.  For a positive soil brightness factor and digital
    numbers of the red and the near-infrared band between 0 and 10000,
    [calculate_savi] lies between -1 and 1; so it is neither above 2 nor
    below -1, the bounds [validate_results] of the SAVI script checks. *)
Theorem savi_stays_in_range (L : Qc) (image : Pixel) :
  0 < L ->
  0 <= B8 image -> B8 image <= Qc_of_Z 10000 ->
  0 <= B4 image -> B4 image <= Qc_of_Z 10000 ->
  - (1) <= calculate_savi L image /\ calculate_savi L image <= 1
  /\ Qc_ltb (unrealistic_above SAVI) (calculate_savi L image) = false
  /\ Qc_ltb (calculate_savi L image) (unrealistic_below SAVI) = false.
Proof.
  intros HL N0 N1 R0 R1.
  destruct (reflectance_range _ N0 N1) as [Hn0 Hn1].
  destruct (reflectance_range _ R0 R1) as [Hr0 Hr1].
  unfold calculate_savi.
  set (n := EE.divide (B8 image) (Qc_of_Z 10000)) in *.
  set (r := EE.divide (B4 image) (Qc_of_Z 10000)) in *.
  unfold EE.add, EE.subtract, EE.multiply.
  pose proof (Qclt_le_weak _ _ HL) as HL0.
  assert (Hd : 0 < n + r + L).
  { replace (n + r + L) with ((n + r) + L) by ring.
    apply Qc_add_nonneg_pos; [apply Qc_add_nonneg; assumption | exact HL]. }
  rewrite EE_divide_nonzero by (apply Qc_pos_neq; exact Hd).
  assert (H2L : 0 <= 1 + 1 + L).
  { apply Qc_add_nonneg; [discriminate | exact HL0]. }
  assert (B : - (1) <= (n - r) * (1 + L) / (n + r + L)
              /\ (n - r) * (1 + L) / (n + r + L) <= 1).
  { apply Qc_div_bounds; [exact Hd | |].
    - apply Qcle_minus_iff.
      replace ((n - r) * (1 + L) + - (- (1) * (n + r + L)))
        with (n * (1 + 1 + L) + L * (1 - r)) by ring.
      apply Qc_add_nonneg; apply Qc_mul_nonneg; auto using Qc_sub_nonneg.
    - apply Qcle_minus_iff.
      replace (1 * (n + r + L) + - ((n - r) * (1 + L)))
        with (r * (1 + 1 + L) + L * (1 - n)) by ring.
      apply Qc_add_nonneg; apply Qc_mul_nonneg; auto using Qc_sub_nonneg. }
  destruct B as [B1 B2].
  split; [exact B1 |]. split; [exact B2 |]. split.
  - apply Qc_ltb_ge. eapply Qcle_trans; [exact B2 | discriminate].
  - apply Qc_ltb_ge. exact B1.
Qed.

Close Scope Qc_scope.

(* ================================================================== *)
(** * The further properties at sample inputs *)
(* ================================================================== *)

Lemma gap_size_is_the_run_length_witness :
  (forall i, (1 <= i < 1 + 2)%nat ->
     nth i (gap_sizes_of ([false] ++ repeat true 2 ++ [false; true])) 0%nat = 2%nat)
  /\ (forall i, nth i ([false] ++ repeat true 2 ++ [false; true]) false = false ->
        nth i (gap_sizes_of ([false] ++ repeat true 2 ++ [false; true])) 0%nat = 0%nat).
Proof.
  apply (gap_size_is_the_run_length [false] [false; true] 1).
  - simpl. discriminate.
  - reflexivity.
Defined.

Open Scope Qc_scope.

Lemma nonneg_weights_sample : Forall (fun wi => 0 <= wi) [1; 0; 1].
Proof. repeat constructor; discriminate. Qed.

Lemma smoother_does_not_add_energy_witness :
  exists z,
    whittaker_smooth [1; 1; 1] [1; 0; 1] default_lambda = Ok (map Some z)
    /\ dot z (map2 Qcmult [1; 0; 1] z) <= dot z (map2 Qcmult [1; 0; 1] [1; 1; 1])
    /\ dot z (map2 Qcmult [1; 0; 1] z)
       <= dot [1; 1; 1] (map2 Qcmult [1; 0; 1] [1; 1; 1]).
Proof.
  apply (smoother_does_not_add_energy [1; 1; 1] [1; 0; 1] default_lambda).
  - reflexivity.
  - exact nonneg_weights_sample.
  - reflexivity.
Defined.

Lemma smoother_is_linear_witness :
  exists zx zy,
    whittaker_smooth [1; 1; 1] [1; 0; 1] default_lambda = Ok (map Some zx)
    /\ whittaker_smooth [0; 1; Qc_of_Z 2] [1; 0; 1] default_lambda = Ok (map Some zy)
    /\ whittaker_smooth
         (vadd (vscale (Qc_of_Z 3) [1; 1; 1]) (vscale (Qc_of_Z 2) [0; 1; Qc_of_Z 2]))
         [1; 0; 1] default_lambda
       = Ok (map Some (vadd (vscale (Qc_of_Z 3) zx) (vscale (Qc_of_Z 2) zy))).
Proof.
  apply (smoother_is_linear [1; 1; 1] [0; 1; Qc_of_Z 2] [1; 0; 1]
           (Qc_of_Z 3) (Qc_of_Z 2) default_lambda).
  - reflexivity.
  - reflexivity.
  - exact nonneg_weights_sample.
  - reflexivity.
Defined.

Close Scope Qc_scope.

Lemma no_missing_day_no_flag_column_witness :
  fst (mcari_fill_gaps consecutive_days 32)
  = Ok (mkFrame ("date"%string
                   :: filter (fun c => negb (String.eqb c "date"))
                        (columns consecutive_days))
                (sort_values_date (rows (dates_to_datetime consecutive_days)))).
Proof.
  apply (no_missing_day_no_flag_column MCARI Scipy.CubicSpline_natural
           Scipy.pandas_cubic_value consecutive_days 32).
  - apply mean_only_observation_set; [discriminate |].
    repeat constructor; discriminate.
  - discriminate.
  - unfold unique_dates. simpl.
    constructor; [simpl; intros [E | [E | []]]; discriminate E |].
    constructor; [simpl; intros [E | []]; discriminate E |].
    constructor; [intros [] | constructor].
  - intros d Hd.
    assert (E1 : date_min (rows consecutive_days) = 0%Z) by reflexivity.
    assert (E2 : date_max (rows consecutive_days) = 2%Z) by reflexivity.
    rewrite E1, E2 in Hd.
    assert (C : d = 0%Z \/ d = 1%Z \/ d = 2%Z) by lia.
    destruct C as [-> | [-> | ->]].
    + exists (obs_mean 0 (qfrac 1 2)). split; [simpl; auto |].
      split; [reflexivity | discriminate].
    + exists (obs_mean 1 1%Qc). split; [simpl; auto |].
      split; [reflexivity | discriminate].
    + exists (obs_mean 2 1%Qc). split; [simpl; auto |].
      split; [reflexivity | discriminate].
Defined.

Lemma observations_come_back_sorted_witness :
  (unique_dates one_missing_day ->
   map (fun r => (date r, idx_mean r, cloud_cover r))
       (filter (fun r => negb (isInterpolated r)) (rows one_missing_day_filled))
   = map (fun r => (date r, idx_mean r, cloud_cover r))
         (sort_values_date (rows (dates_to_datetime one_missing_day))))
  /\ (Z.of_nat (List.length (rows one_missing_day_filled))
      - Z.of_nat (List.length (rows one_missing_day))
      = Z.of_nat (List.length (filter isInterpolated (rows one_missing_day_filled))))%Z.
Proof.
  apply (observations_come_back_sorted MCARI Scipy.CubicSpline_natural
           Scipy.pandas_cubic_value one_missing_day 32 one_missing_day_filled).
  - apply mean_only_observation_set; [discriminate |].
    repeat constructor; discriminate.
  - discriminate.
  - lia.
  - vm_compute. reflexivity.
Defined.

Lemma covered_period_is_kept_witness :
  date_min (rows one_missing_day_filled) = date_min (rows one_missing_day)
  /\ date_max (rows one_missing_day_filled) = date_max (rows one_missing_day).
Proof.
  apply (covered_period_is_kept MCARI Scipy.CubicSpline_natural
           Scipy.pandas_cubic_value one_missing_day 32 one_missing_day_filled).
  - apply mean_only_observation_set; [discriminate |].
    repeat constructor; discriminate.
  - discriminate.
  - lia.
  - vm_compute. reflexivity.
Defined.

Lemma fill_gaps_ignores_row_order_witness :
  fst (mcari_fill_gaps two_observations_swapped 32)
  = fst (mcari_fill_gaps two_observations 32).
Proof.
  apply (fill_gaps_ignores_row_order MCARI Scipy.CubicSpline_natural
           Scipy.pandas_cubic_value two_observations two_observations_swapped 32).
  - reflexivity.
  - apply perm_swap.
  - reflexivity.
  - unfold unique_dates. simpl.
    constructor; [simpl; intros [H | []]; discriminate H |].
    constructor; [intros [] | constructor].
Defined.


Lemma validated_series_is_dense_witness :
  @nil string = []
  /\ (forall r, In r (rows thirty_days) ->
        exists v, idx_mean r = Some v
                  /\ (unrealistic_below MCARI <= v)%Qc /\ (v <= unrealistic_above MCARI)%Qc)
  /\ (30 <= date_max (rows thirty_days) - date_min (rows thirty_days))%Z
  /\ (forall d, (date_min (rows thirty_days) <= d < date_max (rows thirty_days))%Z ->
        exists r, In r (rows thirty_days) /\ (d < row_day r <= d + 30)%Z).
Proof.
  apply (validated_series_is_dense MCARI thirty_days []).
  vm_compute. reflexivity.
Defined.

Lemma validate_ignores_row_order_witness :
  fst (validate_results MCARI two_observations_swapped)
  = fst (validate_results MCARI two_observations).
Proof.
  apply (validate_ignores_row_order MCARI two_observations two_observations_swapped).
  - reflexivity.
  - apply perm_swap.
Defined.

Lemma filled_series_reports_missing_values_witness :
  exists issues,
    fst (validate_results MCARI two_observations_cloud_filled) = Ok (false, issues)
    /\ In "Missing values detected in the data"%string issues.
Proof.
  apply (filled_series_reports_missing_values MCARI Scipy.CubicSpline_natural
           Scipy.pandas_cubic_value two_observations_cloud 32
           two_observations_cloud_filled).
  - split; [reflexivity |]. split; [reflexivity |].
    repeat constructor; discriminate.
  - reflexivity.
  - vm_compute. reflexivity.
  - exists (nth 1 (rows two_observations_cloud_filled) (null_row 0)).
    assert (L : List.length (rows two_observations_cloud_filled) = 3%nat)
      by (vm_compute; reflexivity).
    split; [apply nth_In; rewrite L; lia | vm_compute; reflexivity].
Defined.

Lemma large_gap_reported_iff_run_dropped_witness :
  exists ok issues,
    fst (validate_results MCARI end_to_end_filled) = Ok (ok, issues)
    /\ (In "Large temporal gaps detected (>30 days)"%string issues
        <-> exists d k, missing_run end_to_end_input d k /\ (32 < k)%Z).
Proof.
  apply (large_gap_reported_iff_run_dropped MCARI Scipy.CubicSpline_natural
           Scipy.pandas_cubic_value end_to_end_input 32 end_to_end_filled).
  - apply mean_only_observation_set; [discriminate |].
    repeat constructor; discriminate.
  - unfold unique_dates. simpl.
    constructor; [simpl; intros [E | [E | []]]; discriminate E |].
    constructor; [simpl; intros [E | []]; discriminate E |].
    constructor; [intros [] | constructor].
  - discriminate.
  - lia.
  - discriminate.
  - vm_compute. reflexivity.
Defined.

Lemma loaded_config_has_every_default_witness :
  (forall k, dict_get mcari_default_config k <> None ->
             dict_get (dict_merge mcari_default_config sample_config) k <> None)
  /\ (forall members, Holds (JObject sample_config) = Holds (JObject members) ->
      NoDup (map fst members) ->
      forall k, dict_get (dict_merge mcari_default_config sample_config) k
                = match dict_get members k with
                  | Some v => Some v
                  | None => dict_get mcari_default_config k
                  end)
  /\ (Holds (JObject sample_config) = NoFile ->
      dict_merge mcari_default_config sample_config = mcari_default_config).
Proof.
  apply (loaded_config_has_every_default mcari_default_config
           (Holds (JObject sample_config))
           (dict_merge mcari_default_config sample_config)).
  reflexivity.
Defined.



Lemma acquired_frame_is_an_observation_set_witness :
  observation_set MCARI
    (frame_of_results MCARI
       [mkProperties 0 (Number 1%Qc) Null Null Null (Number (Qc_of_Z 10));
        mkProperties 15 (Number 1%Qc) Null Null Null (Number (Qc_of_Z 10))])
  /\ List.length
       (rows (frame_of_results MCARI
          [mkProperties 0 (Number 1%Qc) Null Null Null (Number (Qc_of_Z 10));
           mkProperties 15 (Number 1%Qc) Null Null Null (Number (Qc_of_Z 10))]))
     = List.length
         [mkProperties 0 (Number 1%Qc) Null Null Null (Number (Qc_of_Z 10));
          mkProperties 15 (Number 1%Qc) Null Null Null (Number (Qc_of_Z 10))].
Proof.
  apply (acquired_frame_is_an_observation_set MCARI sample_ee 5 0 30 15).
  - reflexivity.
  - discriminate.
Defined.

Open Scope Qc_scope.

Lemma mcari_scales_with_the_bands_witness :
  calculate_mcari
    (mkPixel (Qc_of_Z 2 * B3 sample_pixel) (Qc_of_Z 2 * B4 sample_pixel)
             (Qc_of_Z 2 * B5 sample_pixel) (Qc_of_Z 2 * B8 sample_pixel))
  = Qc_of_Z 2 * calculate_mcari sample_pixel.
Proof.
  apply (mcari_scales_with_the_bands (Qc_of_Z 2) sample_pixel). discriminate.
Defined.

Lemma savi_stays_in_range_witness :
  - (1) <= calculate_savi (qfrac 1 2) sample_pixel
  /\ calculate_savi (qfrac 1 2) sample_pixel <= 1
  /\ Qc_ltb (unrealistic_above SAVI) (calculate_savi (qfrac 1 2) sample_pixel) = false
  /\ Qc_ltb (calculate_savi (qfrac 1 2) sample_pixel) (unrealistic_below SAVI) = false.
Proof.
  apply (savi_stays_in_range (qfrac 1 2) sample_pixel).
  - reflexivity.
  - discriminate.
  - discriminate.
  - discriminate.
  - discriminate.
Defined.

Close Scope Qc_scope.
